(** * Workflow orchestration core of brandAGI: a shallow embedding

    The development follows the three TypeScript modules of
    [src/lib/orchestrator]:

    - [workflow-parser.ts]: [areDependenciesSatisfied], [getNextNodes],
      [validateWorkflow] (with its inner depth-first [hasCycle]);
    - [state-manager.ts]: the [workflow_states] table and the operations
      that read and update it;
    - [index.ts]: the [MasterOrchestrator] methods [startWorkflow],
      [executeNextNodes], [executeNode], [approveDecision];

    together with [processStrategyDecision] of the strategy agent, which
    [approveDecision] calls.

    Beyond these it covers [buildExecutionGraph] of the parser, the
    orchestrator's [initialize], the route handlers
    [POST /api/decisions/[decisionId]/approve] and
    [POST /api/orchestrator/stop], and the memory tool
    ([lib/tools/memory.ts]).

    Conventions of the embedding.
    - JavaScript strings are [string]; arrays are [list]; [Set<string>] is
      stdpp's [gset string]; [number] fields that hold counts and
      milliseconds are [Z] (the retry policy comes from a YAML file and is
      used as an integer; floating-point rounding is not modelled).
    - The database is a record of tables, each a list of rows in insertion
      order. Timestamps ([createdAt], [updatedAt], [approvedAt]) are not
      modelled; a [select ... orderBy createdAt limit 1] is the first
      matching row in insertion order.
    - Fields called [id], [name], [status] or [metadata] in several
      TypeScript types carry the name of their record here ([node_id],
      [state_id], [decision_id], ...), since projections share one name
      space.
    - Asynchronous code is run to completion in program order (one caller at
      a time); a rejected promise or a [throw] is the [Throw] outcome.
      Database statements themselves do not fail.
    - Delegates (agents) and tools are opaque: they are section variables
      that read the world and answer; the trace of their invocations and of
      the [setTimeout] delays is kept in the world. *)

From Stdlib Require Import ZArith String List Bool Lia Permutation.
From stdpp Require Import base gmap strings pretty.
Import ListNotations.

Local Open Scope Z_scope.
Set Warnings "-clear-no-such-hyp".

(* ===================================================================== *)
(** ** Data model ([lib/common/schemas.ts], [lib/db/schema.ts])          *)
(* ===================================================================== *)

(** [retryPolicy: z.object({ maxRetries, backoffMs }).optional()] *)
Record RetryPolicy := mkRetryPolicy {
  maxRetries : Z;
  backoffMs : Z
}.

(** [WorkflowNodeSchema] *)
Record WorkflowNodeType := mkNode {
  node_id : string;
  node_name : string;
  agentId : string;
  dependencies : list string;
  requiresApproval : bool;
  retryPolicy : option RetryPolicy;
  runQA : bool;
  runCodeReview : bool
}.

(** [WorkflowSchema] (the free-form [metadata] plays no role) *)
Record WorkflowType := mkWorkflow {
  workflow_name : string;
  workflow_description : string;
  nodes : list WorkflowNodeType
}.

(** [WorkflowStatus = 'running' | 'paused' | 'completed' | 'failed'] *)
Inductive WorkflowStatus := running | paused | completed | failed.

(** [interface WorkflowState]: one row of [workflow_states], with its JSON
    columns parsed. *)
Record WorkflowState := mkState {
  state_id : string;
  projectId : string;
  currentNode : option string;
  completedNodes : list string;
  failedNodes : list string;
  pendingDecisions : list string;
  status : WorkflowStatus;
  metadata : string
}.

(** The status column of the [decisions] table:
    [pending | approved | rejected]. *)
Inductive DecisionStatus := pending | approved | rejected.

(** One entry of [metadata.options] of a decision row: the option and the
    payload ([strategy]) to apply when it is chosen. *)
Record DecisionOption := mkOption {
  option_id : string;
  option_label : string;
  option_strategy : string
}.

(** One row of the [decisions] table. *)
Record Decision := mkDecision {
  decision_id : string;
  decision_projectId : string;
  decision_agentId : string;
  question : string;
  options : list DecisionOption;
  selectedOption : option string;
  decision_status : DecisionStatus
}.

(** One row of the [log_events] table, as [logEvent] writes it. *)
Record LogEvent := mkLogEvent {
  log_id : string;
  log_agentId : string;
  log_agentName : string;
  eventType : string;
  payloadSummary : string;
  log_projectId : string
}.

(** [agentResult.data]: the orchestrator only asks whether the key
    [decision_id] is present; [None] is an object without that key. *)
Record AgentData := mkAgentData {
  data_decision_id : option string
}.

(** [AgentOutputSchema]: [data] is [z.any()], so it may be [null]
    ([None] here, the falsy case of [agentResult.data && ...]). *)
Record AgentOutputType := mkAgentOutput {
  success : bool;
  data : option AgentData;
  error : option string
}.

(* ===================================================================== *)
(** ** [workflow-parser.ts]                                              *)
(* ===================================================================== *)

(** [Array.prototype.includes] on an array of strings. *)
Definition includes (l : list string) (x : string) : bool :=
  existsb (String.eqb x) l.

(** [node.dependencies.every(dep => completedNodes.includes(dep))] *)
Definition areDependenciesSatisfied
    (node : WorkflowNodeType) (completedNodes : list string) : bool :=
  forallb (fun dep => includes completedNodes dep) (dependencies node).

(** [workflow.nodes.filter(node => ...)] *)
Definition getNextNodes (workflow : WorkflowType)
    (completedNodes failedNodes : list string) : list WorkflowNodeType :=
  List.filter
    (fun node =>
       if includes completedNodes (node_id node)
          || includes failedNodes (node_id node)
       then false
       else areDependenciesSatisfied node completedNodes)
    (nodes workflow).

(** [workflow.nodes.find(n => n.id === nodeId)] *)
Definition findNode (workflow : WorkflowType) (nodeId : string)
    : option WorkflowNodeType :=
  List.find (fun n => String.eqb (node_id n) nodeId) (nodes workflow).

(** The two sets that [validateWorkflow] allocates and [hasCycle] mutates. *)
Record DfsState := mkDfs {
  visited : gset string;
  recursionStack : gset string
}.

(** [for (const dep of node.dependencies) if (hasCycle(dep)) return true;]
    with the recursive call abstracted as [rec]. The result [true] is the
    early return; [None] is fuel exhaustion of the callee. *)
Fixpoint hasCycle_deps
    (rec : string -> DfsState -> option (bool * DfsState))
    (deps : list string) (st : DfsState) : option (bool * DfsState) :=
  match deps with
  | [] => Some (false, st)
  | dep :: rest =>
      match rec dep st with
      | None => None
      | Some (true, st') => Some (true, st')
      | Some (false, st') => hasCycle_deps rec rest st'
      end
  end.

(** The inner function [hasCycle(nodeId)]. It is recursive on the graph,
    not on a datum, so the embedding takes a recursion budget; [None] means
    the budget ran out. Note that the early [return true] leaves [nodeId]
    on the recursion stack, as the source does. *)
Fixpoint hasCycle (fuel : nat) (workflow : WorkflowType)
    (nodeId : string) (st : DfsState) : option (bool * DfsState) :=
  match fuel with
  | O => None
  | S fuel' =>
      if decide (nodeId ∈ recursionStack st) then Some (true, st)
      else if decide (nodeId ∈ visited st) then Some (false, st)
      else
        let st1 := mkDfs ({[nodeId]} ∪ visited st)
                         ({[nodeId]} ∪ recursionStack st) in
        match findNode workflow nodeId with
        | Some node =>
            match hasCycle_deps (hasCycle fuel' workflow)
                                (dependencies node) st1 with
            | None => None
            | Some (true, st2) => Some (true, st2)
            | Some (false, st2) =>
                Some (false,
                      mkDfs (visited st2) (recursionStack st2 ∖ {[nodeId]}))
            end
        | None =>
            Some (false,
                  mkDfs (visited st1) (recursionStack st1 ∖ {[nodeId]}))
        end
  end.

(** [`Circular dependency detected involving node: ${node.id}`] *)
Definition circularError (nodeId : string) : string :=
  ("Circular dependency detected involving node: " ++ nodeId)%string.

(** [`Node ${node.id} depends on non-existent node: ${dep}`] *)
Definition danglingError (nodeId dep : string) : string :=
  ("Node " ++ nodeId ++ " depends on non-existent node: " ++ dep)%string.

(** First loop of [validateWorkflow]:
    [for (const node of workflow.nodes)
       if (hasCycle(node.id)) errors.push(...)].
    The DFS state is shared by all iterations. *)
Fixpoint cycleLoop (fuel : nat) (workflow : WorkflowType)
    (ns : list WorkflowNodeType) (st : DfsState) (errors : list string)
    : option (list string * DfsState) :=
  match ns with
  | [] => Some (errors, st)
  | node :: rest =>
      match hasCycle fuel workflow (node_id node) st with
      | None => None
      | Some (true, st') =>
          cycleLoop fuel workflow rest st'
                    (errors ++ [circularError (node_id node)])
      | Some (false, st') => cycleLoop fuel workflow rest st' errors
      end
  end.

(** [workflow.nodes.some(n => n.id === dep)] *)
Definition depExists (workflow : WorkflowType) (dep : string) : bool :=
  existsb (fun n => String.eqb (node_id n) dep) (nodes workflow).

(** Second loop of [validateWorkflow]: the errors pushed for one node. *)
Definition danglingErrorsOf (workflow : WorkflowType)
    (node : WorkflowNodeType) : list string :=
  flat_map
    (fun dep =>
       if depExists workflow dep then []
       else [danglingError (node_id node) dep])
    (dependencies node).

(** Second loop of [validateWorkflow], over all nodes. *)
Definition danglingLoop (workflow : WorkflowType) : list string :=
  flat_map (danglingErrorsOf workflow) (nodes workflow).

(** The result [{ valid, errors }]. *)
Record ValidationResult := mkValidation {
  valid : bool;
  errors : list string
}.

(** [validateWorkflow] with an explicit recursion budget for [hasCycle]. *)
Definition validateWorkflow_fuel (fuel : nat) (workflow : WorkflowType)
    : option ValidationResult :=
  match cycleLoop fuel workflow (nodes workflow) (mkDfs ∅ ∅) [] with
  | None => None
  | Some (errs, _) =>
      let errors := (errs ++ danglingLoop workflow)%list in
      Some (mkValidation (Nat.eqb (List.length errors) 0) errors)
  end.

(** Every id that [hasCycle] can ever be called on: the node ids and the
    dependency ids of the graph. *)
Definition allIds (workflow : WorkflowType) : list string :=
  (map node_id (nodes workflow)
   ++ flat_map dependencies (nodes workflow))%list.

(** [validateWorkflow(workflow)]: each call of [hasCycle] that goes past the
    two membership tests adds a new id to [visited], so one more than the
    number of ids is a sufficient budget ([validateWorkflow_total] below
    proves that it never runs out). *)
Definition validateWorkflow (workflow : WorkflowType)
    : option ValidationResult :=
  validateWorkflow_fuel (S (List.length (allIds workflow))) workflow.

(* ===================================================================== *)
(** ** The world: database tables and traces of external effects         *)
(* ===================================================================== *)

(** The tables the orchestrator reads and writes, and the trace of what it
    asks of its collaborators. [agentCalls], [advisoryCalls], [toolCalls]
    and [sleeps] are ghost state: they record, in order, each [runAgent]
    invocation (agent id), each advisory check ([qaAgent.run],
    [codeReviewAgent.run]), each [executeTool] invocation (tool name) and
    each [setTimeout] delay in milliseconds. *)
Record World := mkWorld {
  workflowStates : list WorkflowState;
  decisions : list Decision;
  logEvents : list LogEvent;
  agentCalls : list string;
  advisoryCalls : list string;
  toolCalls : list string;
  sleeps : list Z;
  idCounter : nat
}.

Definition set_workflowStates (f : list WorkflowState -> list WorkflowState)
    (w : World) : World :=
  mkWorld (f (workflowStates w)) (decisions w) (logEvents w) (agentCalls w)
          (advisoryCalls w) (toolCalls w) (sleeps w) (idCounter w).

Definition set_decisions (f : list Decision -> list Decision)
    (w : World) : World :=
  mkWorld (workflowStates w) (f (decisions w)) (logEvents w) (agentCalls w)
          (advisoryCalls w) (toolCalls w) (sleeps w) (idCounter w).

Definition set_logEvents (f : list LogEvent -> list LogEvent)
    (w : World) : World :=
  mkWorld (workflowStates w) (decisions w) (f (logEvents w)) (agentCalls w)
          (advisoryCalls w) (toolCalls w) (sleeps w) (idCounter w).

Definition set_agentCalls (f : list string -> list string)
    (w : World) : World :=
  mkWorld (workflowStates w) (decisions w) (logEvents w) (f (agentCalls w))
          (advisoryCalls w) (toolCalls w) (sleeps w) (idCounter w).

Definition set_advisoryCalls (f : list string -> list string)
    (w : World) : World :=
  mkWorld (workflowStates w) (decisions w) (logEvents w) (agentCalls w)
          (f (advisoryCalls w)) (toolCalls w) (sleeps w) (idCounter w).

Definition set_toolCalls (f : list string -> list string)
    (w : World) : World :=
  mkWorld (workflowStates w) (decisions w) (logEvents w) (agentCalls w)
          (advisoryCalls w) (f (toolCalls w)) (sleeps w) (idCounter w).

Definition set_sleeps (f : list Z -> list Z) (w : World) : World :=
  mkWorld (workflowStates w) (decisions w) (logEvents w) (agentCalls w)
          (advisoryCalls w) (toolCalls w) (f (sleeps w)) (idCounter w).

Definition set_idCounter (f : nat -> nat) (w : World) : World :=
  mkWorld (workflowStates w) (decisions w) (logEvents w) (agentCalls w)
          (advisoryCalls w) (toolCalls w) (sleeps w) (f (idCounter w)).

(** What one delegate invocation does: it resolves to an output or rejects
    with a message ([reply_result]), and it may have inserted rows into the
    [decisions] table meanwhile (the strategy agent does). Delegates never
    touch [workflow_states]: only [state-manager.ts] imports that table. *)
Record AgentReply := mkReply {
  reply_result : AgentOutputType + string;
  reply_decisions : list Decision
}.

(** The collaborators the orchestrator is linked against: the id generator
    [nanoid], the agent registry behind [runAgent(agentId, input, projectId,
    sessionId)] and the tool registry behind [executeTool(toolName, {action,
    ...})], of which only the [success] flag of the answer is looked at.
    Inputs are opaque JSON texts. *)
Class Collaborators := mkCollaborators {
  nanoid_nth : nat -> string;
  agent_run : string -> string -> string -> option string -> World
              -> AgentReply;
  tool_success : string -> string -> World -> bool
}.

(* ===================================================================== *)
(** ** A small state-and-exception monad                                 *)
(* ===================================================================== *)

(** The outcome of running a piece of the program in a world: a value, a
    thrown error (with the world as it was when the error was thrown), or
    exhaustion of a recursion budget (only [executeNextNodes] and the retry
    loop of [executeNode] take one). *)
Inductive Outcome (A : Type) : Type :=
  | Ok (a : A) (w : World)
  | Throw (msg : string) (w : World)
  | OutOfFuel.
Arguments Ok {A} a w.
Arguments Throw {A} msg w.
Arguments OutOfFuel {A}.

Definition M (A : Type) : Type := World -> Outcome A.

Definition ret {A} (a : A) : M A := fun w => Ok a w.

Definition bind {A B} (m : M A) (k : A -> M B) : M B :=
  fun w =>
    match m w with
    | Ok a w' => k a w'
    | Throw msg w' => Throw msg w'
    | OutOfFuel => OutOfFuel
    end.

Definition throw {A} (msg : string) : M A := fun w => Throw msg w.

(** [try { body } catch (error) { handler(error.message) }] *)
Definition tryCatch {A} (body : M A) (handler : string -> M A) : M A :=
  fun w =>
    match body w with
    | Ok a w' => Ok a w'
    | Throw msg w' => handler msg w'
    | OutOfFuel => OutOfFuel
    end.

Definition outOfFuel {A} : M A := fun _ => OutOfFuel.

Definition modify (f : World -> World) : M unit := fun w => Ok tt (f w).

Declare Scope prog_scope.
Delimit Scope prog_scope with prog.
Notation "x <- c1 ;; c2" := (bind c1 (fun x => c2))
  (at level 100, c1 at next level, right associativity) : prog_scope.
Notation "c1 ;; c2" := (bind c1 (fun _ => c2))
  (at level 100, right associativity) : prog_scope.
Local Open Scope prog_scope.

(** The world an outcome ends in, when it ends. *)
Definition finalWorld {A} (o : Outcome A) : option World :=
  match o with
  | Ok _ w => Some w
  | Throw _ w => Some w
  | OutOfFuel => None
  end.

(* ===================================================================== *)
(** ** [state-manager.ts]                                                *)
(* ===================================================================== *)

(** [nanoid()] *)
Definition nanoid `{Collaborators} : M string :=
  fun w => Ok (nanoid_nth (idCounter w)) (set_idCounter S w).

(** [createWorkflowState(projectId)]: inserts a row, whatever the table
    holds already (the table has no uniqueness constraint on
    [project_id]). *)
Definition createWorkflowState `{Collaborators} (pid : string) : M string :=
  stateId <- nanoid ;;
  modify (set_workflowStates (fun rows =>
    rows ++ [mkState stateId pid None [] [] [] running "{}"])) ;;
  ret stateId.

(** [select ... where project_id = projectId order by created_at limit 1]:
    the oldest row of the project. *)
Definition lookupState (pid : string) (rows : list WorkflowState)
    : option WorkflowState :=
  List.find (fun s => String.eqb (projectId s) pid) rows.

(** [getWorkflowState(projectId)] *)
Definition getWorkflowState (pid : string) : M (option WorkflowState) :=
  fun w => Ok (lookupState pid (workflowStates w)) w.

(** [Partial<WorkflowState>] as [updateWorkflowState] reads it: for each of
    the six fields it looks at, [None] is [undefined]. For [currentNode],
    [Some None] is an explicit [null]. *)
Record StateUpdates := mkUpdates {
  upd_currentNode : option (option string);
  upd_completedNodes : option (list string);
  upd_failedNodes : option (list string);
  upd_pendingDecisions : option (list string);
  upd_status : option WorkflowStatus;
  upd_metadata : option string
}.

Definition orElse {A} (o : option A) (d : A) : A :=
  match o with Some a => a | None => d end.

(** The [set(dbUpdates)] of one row. Arrays and status strings are truthy,
    so every field that is present is written. *)
Definition applyUpdates (u : StateUpdates) (s : WorkflowState)
    : WorkflowState :=
  mkState (state_id s) (projectId s)
          (orElse (upd_currentNode u) (currentNode s))
          (orElse (upd_completedNodes u) (completedNodes s))
          (orElse (upd_failedNodes u) (failedNodes s))
          (orElse (upd_pendingDecisions u) (pendingDecisions s))
          (orElse (upd_status u) (status s))
          (orElse (upd_metadata u) (metadata s)).

(** [updateWorkflowState(projectId, updates)]: an SQL [update ... where
    project_id = projectId]; it touches every row of the project and does
    nothing when there is none. *)
Definition updateWorkflowState (pid : string) (u : StateUpdates) : M unit :=
  modify (set_workflowStates (map (fun s =>
    if String.eqb (projectId s) pid then applyUpdates u s else s))).

Definition stateNotFound (pid : string) : string :=
  ("Workflow state not found for project: " ++ pid)%string.

(** [markNodeComplete(projectId, nodeId)] *)
Definition markNodeComplete (pid nodeId : string) : M unit :=
  state <- getWorkflowState pid ;;
  match state with
  | None => throw (stateNotFound pid)
  | Some state =>
      let completedNodes := (completedNodes state ++ [nodeId])%list in
      updateWorkflowState pid
        (mkUpdates (Some None) (Some completedNodes) None None None None)
  end.

(** [markNodeFailed(projectId, nodeId)] *)
Definition markNodeFailed (pid nodeId : string) : M unit :=
  state <- getWorkflowState pid ;;
  match state with
  | None => throw (stateNotFound pid)
  | Some state =>
      let failedNodes := (failedNodes state ++ [nodeId])%list in
      updateWorkflowState pid
        (mkUpdates (Some None) None (Some failedNodes) None (Some failed)
                   None)
  end.

(** [addPendingDecision(projectId, decisionId)] *)
Definition addPendingDecision (pid decisionId : string) : M unit :=
  state <- getWorkflowState pid ;;
  match state with
  | None => throw (stateNotFound pid)
  | Some state =>
      let pendingDecisions := (pendingDecisions state ++ [decisionId])%list in
      updateWorkflowState pid
        (mkUpdates None None None (Some pendingDecisions) (Some paused) None)
  end.

(** [removePendingDecision(projectId, decisionId)] *)
Definition removePendingDecision (pid decisionId : string) : M unit :=
  state <- getWorkflowState pid ;;
  match state with
  | None => throw (stateNotFound pid)
  | Some state =>
      let pendingDecisions :=
        List.filter (fun id => negb (String.eqb id decisionId))
                    (pendingDecisions state) in
      updateWorkflowState pid
        (mkUpdates None None None (Some pendingDecisions)
           (Some (if (0 <? Z.of_nat (List.length pendingDecisions))
                  then paused else running))
           None)
  end.

(** [setCurrentNode(projectId, nodeId)] *)
Definition setCurrentNode (pid nodeId : string) : M unit :=
  updateWorkflowState pid
    (mkUpdates (Some (Some nodeId)) None None None None None).

(** [completeWorkflow(projectId)] *)
Definition completeWorkflow (pid : string) : M unit :=
  updateWorkflowState pid
    (mkUpdates (Some None) None None None (Some completed) None).

(** [deleteWorkflowState(projectId)] *)
Definition deleteWorkflowState (pid : string) : M unit :=
  modify (set_workflowStates
    (List.filter (fun s => negb (String.eqb (projectId s) pid)))).

(** [cancelWorkflow(projectId)], the whole of the [stop] operation
    ([POST /api/orchestrator/stop] calls nothing else). *)
Definition cancelWorkflow (pid : string) : M unit :=
  updateWorkflowState pid
    (mkUpdates (Some None) None None None (Some failed) None).

(* ===================================================================== *)
(** ** Collaborator calls                                                *)
(* ===================================================================== *)

(** [logEvent(event)] of the output-passer agent: one more row in
    [log_events], under a fresh id. *)
Definition logEvent `{Collaborators}
    (agent agentName type summary pid : string) : M unit :=
  logId <- nanoid ;;
  modify (set_logEvents (fun rows =>
    rows ++ [mkLogEvent logId agent agentName type summary pid])).

(** The events the orchestrator itself logs. *)
Definition orchestratorEvent `{Collaborators}
    (type summary pid : string) : M unit :=
  logEvent "orchestrator" "MasterOrchestrator" type summary pid.

(** [runAgent(agentId, input, projectId, sessionId)]: the invocation is
    recorded, the rows the delegate inserted are added to [decisions], and
    a rejection becomes a [Throw]. *)
Definition runAgent `{Collaborators}
    (agent input pid : string) (sessionId : option string)
    : M AgentOutputType :=
  fun w =>
    let reply := agent_run agent input pid sessionId w in
    let w' :=
      set_decisions (fun rows => rows ++ reply_decisions reply)
        (set_agentCalls (fun calls => calls ++ [agent]) w) in
    match reply_result reply with
    | inl output => Ok output w'
    | inr msg => Throw msg w'
    end.

(** [qaAgent.run] and [codeReviewAgent.run]: both catch their own errors,
    and the orchestrator only prints a warning on a negative verdict, so
    the call is all that is recorded. *)
Definition runAdvisory (agent : string) : M unit :=
  modify (set_advisoryCalls (fun calls => calls ++ [agent])).

(** [executeTool(toolName, { action, ... })], reduced to the [success] flag
    of its answer. *)
Definition executeTool `{Collaborators} (tool action : string) : M bool :=
  fun w =>
    Ok (tool_success tool action w)
       (set_toolCalls (fun calls => calls ++ [(tool ++ "." ++ action)%string])
                      w).

(** [await new Promise(resolve => setTimeout(resolve, delay))] *)
Definition sleep (delay : Z) : M unit :=
  modify (set_sleeps (fun ds => ds ++ [delay])).

(* ===================================================================== *)
(** ** [index.ts]: [MasterOrchestrator.executeNode]                      *)
(* ===================================================================== *)

(** The [status] field of the object [executeNode] returns. *)
Inductive NodeStatus := awaiting_approval | node_completed | node_failed.

(** The object [executeNode] returns. On the failure path the source leaves
    [requiresApproval] undefined, which is falsy. *)
Record NodeResult := mkNodeResult {
  result_nodeId : string;
  result_status : NodeStatus;
  result_requiresApproval : bool;
  result_decisionId : option string;
  result_error : option string
}.

(** [s || d] on an optional string: [undefined] and the empty string are
    falsy. *)
Definition strOr (s : option string) (d : string) : string :=
  match s with
  | Some v => if String.eqb v "" then d else v
  | None => d
  end.

(** [n || d] on an optional number: [undefined] and [0] are falsy. *)
Definition numOr (n : option Z) (d : Z) : Z :=
  match n with
  | Some v => if v =? 0 then d else v
  | None => d
  end.

(** [node.retryPolicy?.maxRetries || 0] (line 213) *)
Definition effectiveMaxRetries (node : WorkflowNodeType) : Z :=
  numOr (option_map maxRetries (retryPolicy node)) 0.

(** [node.retryPolicy?.backoffMs || 1000] (line 310) *)
Definition effectiveBackoffMs (node : WorkflowNodeType) : Z :=
  numOr (option_map backoffMs (retryPolicy node)) 1000.

(** [backoffMs * Math.pow(2, retries - 1)] (line 311) *)
Definition retryDelay (node : WorkflowNodeType) (retries : Z) : Z :=
  effectiveBackoffMs node * 2 ^ (retries - 1).

(** [agentResult.data && 'decision_id' in agentResult.data], with the value
    of the key when the test succeeds. *)
Definition decisionIdOf (agentResult : AgentOutputType) : option string :=
  match data agentResult with
  | Some d => data_decision_id d
  | None => None
  end.

(** Lines 285-304: [markNodeComplete], the log entry, and the [completed]
    result. *)
Definition completeNode `{Collaborators}
    (node : WorkflowNodeType) (pid : string) : M NodeResult :=
  markNodeComplete pid (node_id node) ;;
  orchestratorEvent "emit" ("Completed node: " ++ node_name node)%string pid ;;
  ret (mkNodeResult (node_id node) node_completed false None None).

(** The body of the [try] block (lines 218-304), one attempt. *)
Definition attemptNode `{Collaborators}
    (node : WorkflowNodeType) (pid input : string)
    (sessionId : option string) : M NodeResult :=
  agentResult <- runAgent (agentId node) input pid sessionId ;;
  if negb (success agentResult)
  then throw (strOr (error agentResult) "Agent execution failed")
  else
    (if runQA node then runAdvisory "qa_agent" else ret tt) ;;
    (if runCodeReview node then runAdvisory "code_review_agent"
     else ret tt) ;;
    if requiresApproval node
    then
      match decisionIdOf agentResult with
      | Some decisionId =>
          addPendingDecision pid decisionId ;;
          orchestratorEvent "decision"
            ("Node " ++ node_name node
             ++ " requires approval - workflow paused")%string pid ;;
          ret (mkNodeResult (node_id node) awaiting_approval true
                            (Some decisionId) None)
      | None => completeNode node pid
      end
    else completeNode node pid.

(** The [while (retries <= maxRetries)] loop (lines 216-318). It either
    returns from inside the [try] ([inl]) or falls out of the loop with the
    final values of [retries] and [lastError] ([inr]). Each iteration that
    does not return increments [retries], so the loop is given a budget of
    iterations; [executeNode] passes [maxRetries + 1]. *)
Fixpoint retryLoop `{Collaborators} (fuel : nat)
    (node : WorkflowNodeType) (pid input : string)
    (sessionId : option string) (retries : Z) (lastError : option string)
    : M (NodeResult + Z * option string) :=
  if retries <=? effectiveMaxRetries node then
    match fuel with
    | O => outOfFuel
    | S fuel' =>
        tryCatch
          (result <- attemptNode node pid input sessionId ;;
           ret (inl result))
          (fun msg =>
             let retries := retries + 1 in
             (if retries <=? effectiveMaxRetries node
              then sleep (retryDelay node retries)
              else ret tt) ;;
             retryLoop fuel' node pid input sessionId retries (Some msg))
    end
  else ret (inr (retries, lastError)).

(** [executeNode(node, projectId, input, sessionId)] *)
Definition executeNode `{Collaborators}
    (node : WorkflowNodeType) (pid input : string)
    (sessionId : option string) : M NodeResult :=
  setCurrentNode pid (node_id node) ;;
  orchestratorEvent "emit"
    ("Starting node: " ++ node_name node ++ " (" ++ agentId node ++ ")")%string
    pid ;;
  r <- retryLoop (Z.to_nat (effectiveMaxRetries node + 1))
                 node pid input sessionId 0 None ;;
  match r with
  | inl result => ret result
  | inr (retries, lastError) =>
      markNodeFailed pid (node_id node) ;;
      orchestratorEvent "error"
        ("Node " ++ node_name node ++ " failed after " ++ pretty retries
         ++ " retries: " ++ strOr lastError "undefined")%string pid ;;
      ret (mkNodeResult (node_id node) node_failed false None lastError)
  end.

(* ===================================================================== *)
(** ** [index.ts]: the run loop, [startWorkflow], [approveDecision]      *)
(* ===================================================================== *)

(** The four shapes of object that [executeNextNodes] returns. *)
Inductive RunResult :=
  | PausedAwaiting (pendingDecisions : list string)
  | Terminal (status : WorkflowStatus)
             (completedNodes failedNodes : list string)
  | Completed (completedNodes : list string)
  | PausedBatch (executedNodes : list NodeResult).

(** The [status] field of a [RunResult]. *)
Definition resultStatus (r : RunResult) : WorkflowStatus :=
  match r with
  | PausedAwaiting _ => paused
  | Terminal st _ _ => st
  | Completed _ => completed
  | PausedBatch _ => paused
  end.

(** [for (const node of nextNodes) { ...; if (result.requiresApproval)
    break; }] (lines 159-168) *)
Fixpoint executeBatch `{Collaborators}
    (nextNodes : list WorkflowNodeType) (pid input : string)
    (sessionId : option string) (results : list NodeResult)
    : M (list NodeResult) :=
  match nextNodes with
  | [] => ret results
  | node :: rest =>
      result <- executeNode node pid input sessionId ;;
      let results := (results ++ [result])%list in
      if result_requiresApproval result then ret results
      else executeBatch rest pid input sessionId results
  end.

(** [executeNextNodes(projectId, input, sessionId)] with a budget for its
    tail call to itself. The orchestrator's [workflow] field is taken as
    loaded. *)
Fixpoint executeNextNodes_fuel `{Collaborators} (fuel : nat)
    (workflow : WorkflowType) (pid input : string)
    (sessionId : option string) : M RunResult :=
  match fuel with
  | O => outOfFuel
  | S fuel' =>
      state <- getWorkflowState pid ;;
      match state with
      | None => throw "Workflow state not found"
      | Some state =>
          match status state with
          | paused => ret (PausedAwaiting (pendingDecisions state))
          | completed | failed =>
              ret (Terminal (status state) (completedNodes state)
                            (failedNodes state))
          | running =>
              let nextNodes :=
                getNextNodes workflow (completedNodes state)
                             (failedNodes state) in
              if Nat.eqb (List.length nextNodes) 0 then
                completeWorkflow pid ;;
                orchestratorEvent "emit" "Workflow completed successfully"
                                  pid ;;
                ret (Completed (completedNodes state))
              else
                results <- executeBatch nextNodes pid input sessionId [] ;;
                if existsb result_requiresApproval results
                then ret (PausedBatch results)
                else executeNextNodes_fuel fuel' workflow pid input sessionId
          end
      end
  end.

(** [executeNextNodes]: every batch that does not pause adds the id of each
    of its nodes to [completedNodes] or [failedNodes], so one call more
    than there are nodes is a sufficient budget
    ([executeNextNodes_terminates] below). *)
Definition executeNextNodes `{Collaborators}
    (workflow : WorkflowType) (pid input : string)
    (sessionId : option string) : M RunResult :=
  executeNextNodes_fuel (S (List.length (nodes workflow)))
                        workflow pid input sessionId.

(** Lines 64-88 of [startWorkflow]: a new record, then the run loop. *)
Definition startFresh `{Collaborators}
    (workflow : WorkflowType) (pid input : string)
    (sessionId : option string) : M RunResult :=
  stateId <- createWorkflowState pid ;;
  orchestratorEvent "emit"
    ("Started workflow: " ++ workflow_name workflow)%string pid ;;
  tryCatch (executeNextNodes workflow pid input sessionId)
           (fun msg => throw msg).

(** [startWorkflow(projectId, input, sessionId)] *)
Definition startWorkflow `{Collaborators}
    (workflow : WorkflowType) (pid input : string)
    (sessionId : option string) : M RunResult :=
  existingState <- getWorkflowState pid ;;
  match existingState with
  | Some existingState =>
      match status existingState with
      | running | paused => executeNextNodes workflow pid input sessionId
      | completed | failed =>
          deleteWorkflowState pid ;;
          startFresh workflow pid input sessionId
      end
  | None => startFresh workflow pid input sessionId
  end.

(** [approved] write of [processStrategyDecision] on one row. *)
Definition approveRow (selected : string) (d : Decision) : Decision :=
  mkDecision (decision_id d) (decision_projectId d) (decision_agentId d)
             (question d) (options d) (Some selected) approved.

(** [processStrategyDecision(projectId, decisionId, selectedOption,
    sessionId)] of the strategy agent. Decision rows are taken as
    well-formed ([metadata.options] is the list [options]); a tool that
    answers [success] answers with the data the function reads. *)
Definition processStrategyDecision `{Collaborators}
    (pid decisionId selected : string) (sessionId : option string)
    : M AgentOutputType :=
  tryCatch
    (fun w =>
       match List.find (fun d => String.eqb (decision_id d) decisionId)
                       (decisions w) with
       | None => throw ("Decision not found: " ++ decisionId)%string w
       | Some decision =>
           match List.find (fun opt => String.eqb (option_id opt) selected)
                           (options decision) with
           | None =>
               throw ("Invalid option selected: " ++ selected)%string w
           | Some selectedStrategy =>
               (modify (set_decisions (map (fun d =>
                  if String.eqb (decision_id d) decisionId
                  then approveRow selected d else d))) ;;
                calendarOk <- executeTool "artifact_generator"
                                          "content_calendar" ;;
                if negb calendarOk then throw "Calendar generation failed"
                else
                  executeTool "memory" "store" ;;
                  executeTool "file_storage" "save" ;;
                  executeTool "file_storage" "save" ;;
                  logEvent "strategy_agent" "StrategyAgent" "emit"
                    ("Strategy approved: " ++ selected)%string pid ;;
                  ret (mkAgentOutput true (Some (mkAgentData None)) None)) w
           end
       end)
    (fun msg => ret (mkAgentOutput false None (Some msg))).

(** What [approveDecision] returns: the snapshot of the resumed run loop,
    or the unsuccessful result of [processStrategyDecision]. *)
Inductive ApproveResult :=
  | Resumed (r : RunResult)
  | NotProcessed (result : AgentOutputType).

(** [state && state.currentNode]: a missing row, [null] and the empty
    string are falsy. *)
Definition currentNodeOf (state : option WorkflowState) : option string :=
  match state with
  | Some state =>
      match currentNode state with
      | Some n => if String.eqb n "" then None else Some n
      | None => None
      end
  | None => None
  end.

(** [approveDecision(projectId, decisionId, selectedOption, sessionId)] *)
Definition approveDecision `{Collaborators}
    (workflow : WorkflowType) (pid decisionId selected : string)
    (sessionId : option string) : M ApproveResult :=
  removePendingDecision pid decisionId ;;
  orchestratorEvent "emit"
    ("Decision approved: " ++ decisionId ++ " - option: " ++ selected)%string
    pid ;;
  result <- processStrategyDecision pid decisionId selected sessionId ;;
  if success result then
    state <- getWorkflowState pid ;;
    match currentNodeOf state with
    | Some n => markNodeComplete pid n
    | None => ret tt
    end ;;
    r <- executeNextNodes workflow pid "{}" sessionId ;;
    ret (Resumed r)
  else ret (NotProcessed result).

(** [getState(projectId)] *)
Definition getState (pid : string) : M (option WorkflowState) :=
  getWorkflowState pid.

(* ===================================================================== *)
(** ** Operations on the execution state, as data                        *)
(* ===================================================================== *)

(** The exported operations of [state-manager.ts] that write to
    [workflow_states]. *)
Inductive StateOp :=
  | OpCreateWorkflowState
  | OpSetCurrentNode (nodeId : string)
  | OpMarkNodeComplete (nodeId : string)
  | OpMarkNodeFailed (nodeId : string)
  | OpAddPendingDecision (decisionId : string)
  | OpRemovePendingDecision (decisionId : string)
  | OpCompleteWorkflow
  | OpCancelWorkflow
  | OpDeleteWorkflowState.

Definition runOp `{Collaborators} (pid : string) (op : StateOp) : M unit :=
  match op with
  | OpCreateWorkflowState => createWorkflowState pid ;; ret tt
  | OpSetCurrentNode n => setCurrentNode pid n
  | OpMarkNodeComplete n => markNodeComplete pid n
  | OpMarkNodeFailed n => markNodeFailed pid n
  | OpAddPendingDecision d => addPendingDecision pid d
  | OpRemovePendingDecision d => removePendingDecision pid d
  | OpCompleteWorkflow => completeWorkflow pid
  | OpCancelWorkflow => cancelWorkflow pid
  | OpDeleteWorkflowState => deleteWorkflowState pid
  end.

(** The state of project [pid] in a world. *)
Definition stateIn (pid : string) (w : World) : option WorkflowState :=
  lookupState pid (workflowStates w).

(** The state of project [pid] after a computation, when it ends. *)
Definition stateAfter {A} (pid : string) (o : Outcome A)
    : option WorkflowState :=
  match finalWorld o with
  | Some w => stateIn pid w
  | None => None
  end.

(* ===================================================================== *)
(** ** Further entry points of the orchestrator and its routes           *)
(* ===================================================================== *)

(** [buildExecutionGraph(workflow)]: [graph[node.id] = node.dependencies]
    for each node in turn, on an object literal. An assignment to the
    key ["__proto__"] of such an object sets its prototype (the value is an
    array, hence an object) and creates no key. *)
Definition buildExecutionGraph (workflow : WorkflowType)
    : gmap string (list string) :=
  fold_left
    (fun graph node =>
       if String.eqb (node_id node) "__proto__" then graph
       else <[node_id node := dependencies node]> graph)
    (nodes workflow) ∅.

(** [`Invalid workflow: ${validation.errors.join(', ')}`] *)
Definition invalidWorkflow (errors : list string) : string :=
  ("Invalid workflow: " ++ String.concat ", " errors)%string.

(** [initialize()] on the [workflow] field of the orchestrator. [loaded] is
    what [loadBrandWorkflow()] resolves to, or the message it rejects
    with. The field is assigned before the graph is validated. The result
    is the new value of the field and the outcome of the call. *)
Definition initialize (loaded : WorkflowType + string)
    (field : option WorkflowType)
    : World -> option WorkflowType * Outcome unit :=
  fun w =>
    match loaded with
    | inr msg => (field, Throw msg w)
    | inl workflow =>
        match validateWorkflow workflow with
        | Some validation =>
            if valid validation then (Some workflow, Ok tt w)
            else (Some workflow,
                  Throw (invalidWorkflow (errors validation)) w)
        | None => (Some workflow, OutOfFuel)
        end
    end.

(** The method [startWorkflow] on the orchestrator object:
    [if (!this.workflow) await this.initialize()] and then the body, which
    reads the field. ([initialize] returns only after it has assigned the
    field; for the other case, which does not arise, the model gives no
    answer.) *)
Definition startWorkflowMethod `{Collaborators}
    (loaded : WorkflowType + string) (pid input : string)
    (sessionId : option string) (field : option WorkflowType)
    : World -> option WorkflowType * Outcome RunResult :=
  fun w =>
    match field with
    | Some workflow => (field, startWorkflow workflow pid input sessionId w)
    | None =>
        match initialize loaded field w with
        | (Some workflow, Ok _ w') =>
            (Some workflow, startWorkflow workflow pid input sessionId w')
        | (None, Ok _ _) => (None, OutOfFuel)
        | (field', Throw msg w') => (field', Throw msg w')
        | (field', OutOfFuel) => (field', OutOfFuel)
        end
    end.

(** [!x] on an optional string of a request body: [undefined] and the
    empty string are falsy. *)
Definition missing (x : option string) : bool :=
  match x with
  | Some v => String.eqb v ""
  | None => true
  end.

(** What a route handler answers: the HTTP status and the fields of the
    JSON body. *)
Record Response (A : Type) := mkResponse {
  http_status : Z;
  response_success : option bool;
  response_data : option A;
  response_error : option string;
  response_message : option string
}.
Arguments mkResponse {A}.
Arguments http_status {A}.
Arguments response_success {A}.
Arguments response_data {A}.
Arguments response_error {A}.
Arguments response_message {A}.

(** The body of [POST /api/decisions/[decisionId]/approve]. *)
Record ApproveBody := mkApproveBody {
  approve_projectId : option string;
  approve_selectedOption : option string;
  approve_sessionId : option string
}.

(** [POST /api/decisions/[decisionId]/approve], on an orchestrator whose
    [workflow] field is set. *)
Definition approveRoute `{Collaborators} (workflow : WorkflowType)
    (decisionId : string) (body : ApproveBody)
    : M (Response ApproveResult) :=
  tryCatch
    (if missing (approve_projectId body)
        || missing (approve_selectedOption body)
     then ret (mkResponse 400 None None
                 (Some "projectId and selectedOption are required") None)
     else
       result <- approveDecision workflow
                   (strOr (approve_projectId body) "") decisionId
                   (strOr (approve_selectedOption body) "")
                   (approve_sessionId body) ;;
       ret (mkResponse 200 (Some true) (Some result) None None))
    (fun msg => ret (mkResponse 500 (Some false) None (Some msg) None)).

(** [POST /api/orchestrator/stop] *)
Definition stopRoute (projectId : option string) : M (Response unit) :=
  tryCatch
    (if missing projectId
     then ret (mkResponse 400 None None (Some "projectId is required") None)
     else
       cancelWorkflow (strOr projectId "") ;;
       ret (mkResponse 200 (Some true) None None
                       (Some "Workflow stopped")))
    (fun msg => ret (mkResponse 500 (Some false) None (Some msg) None)).

(* ===================================================================== *)
(** ** The memory tool ([lib/tools/memory.ts])                           *)
(* ===================================================================== *)

Section Memory.

(** The values agents keep in memory: any JavaScript value. *)
Variable Value : Type.

(** [JSON.stringify(value).toLowerCase()]: the text, or the message of
    the error that the expression throws ([JSON.stringify] answers
    [undefined] for [undefined], and throws on a cyclic value). *)
Variable stringifyLower : Value -> string + string.

(** [String.prototype.toLowerCase] *)
Variable toLowerCase : string -> string.

(** [{ value, metadata, timestamp }] *)
Record MemoryEntry := mkEntry {
  entry_value : Value;
  entry_metadata : Value;
  entry_timestamp : string
}.

(** A JavaScript [Map] with string keys, as the list of its entries in
    insertion order. *)
Definition JsMap (A : Type) : Type := list (string * A).

(** [map.get(key)] *)
Definition mapGet {A} (key : string) (m : JsMap A) : option A :=
  option_map snd (List.find (fun e => String.eqb (fst e) key) m).

(** [map.set(key, value)]: a key that is present keeps its place. *)
Fixpoint mapSet {A} (key : string) (value : A) (m : JsMap A) : JsMap A :=
  match m with
  | [] => [(key, value)]
  | (k, v) :: rest =>
      if String.eqb k key then (key, value) :: rest
      else (k, v) :: mapSet key value rest
  end.

(** [input.parameters], as the memory tool reads it. Ids, keys and the
    query are strings, and the limit is an integer, when they are
    present. *)
Record MemoryParams := mkParams {
  param_projectId : option string;
  param_key : option string;
  param_value : Value;
  param_metadata : Value;
  param_query : option string;
  param_limit : option Z
}.

(** The [data] of an answer. *)
Inductive MemoryData :=
  | Stored (key : string)
  | Retrieved (entry : MemoryEntry)
  | Found (results : list (string * MemoryEntry)) (count : Z).

(** [ToolOutputType] *)
Record MemoryOutput := mkOutput {
  output_success : bool;
  output_data : option MemoryData;
  output_error : option string
}.

Definition succeeded (d : MemoryData) : MemoryOutput :=
  mkOutput true (Some d) None.

Definition failedWith (msg : string) : MemoryOutput :=
  mkOutput false None (Some msg).

(** [getMemoryStore(projectId)]: the [Map] of the project, created empty
    when the project has none. The module-level [memoryStore], a [Map]
    from project ids to the [Map] of the project, is never iterated: it
    is a [gmap]. *)
Definition getMemoryStore (projectId : string)
    (store : gmap string (JsMap MemoryEntry))
    : JsMap MemoryEntry * gmap string (JsMap MemoryEntry) :=
  match store !! projectId with
  | Some memory => (memory, store)
  | None => ([], <[projectId := []]> store)
  end.

(** [storeMemory(input)]; [now] is [new Date().toISOString()]. *)
Definition storeMemory (params : MemoryParams) (now : string)
    (store : gmap string (JsMap MemoryEntry))
    : MemoryOutput * gmap string (JsMap MemoryEntry) :=
  if missing (param_projectId params) || missing (param_key params)
  then (failedWith "Missing required parameters: projectId and key", store)
  else
    let projectId := strOr (param_projectId params) "" in
    let key := strOr (param_key params) "" in
    let '(memory, store) := getMemoryStore projectId store in
    (succeeded (Stored key),
     <[projectId :=
         mapSet key (mkEntry (param_value params) (param_metadata params)
                             now) memory]> store).

(** [retrieveMemory(input)] *)
Definition retrieveMemory (params : MemoryParams)
    (store : gmap string (JsMap MemoryEntry))
    : MemoryOutput * gmap string (JsMap MemoryEntry) :=
  if missing (param_projectId params) || missing (param_key params)
  then (failedWith "Missing required parameters: projectId and key", store)
  else
    let projectId := strOr (param_projectId params) "" in
    let key := strOr (param_key params) "" in
    let '(memory, store) := getMemoryStore projectId store in
    match mapGet key memory with
    | None => (failedWith ("No data found for key: " ++ key)%string, store)
    | Some data => (succeeded (Retrieved data), store)
    end.

(** [String.prototype.includes] *)
Fixpoint includesText (text part : string) : bool :=
  String.prefix part text
  || match text with
     | EmptyString => false
     | String _ rest => includesText rest part
     end.

(** The loop of [searchMemory]: [inl] is the list of results when the
    loop ends, [inr] the message of an error thrown in it. *)
Fixpoint searchLoop (queryLower : string) (limit : Z)
    (entries : JsMap MemoryEntry) (results : list (string * MemoryEntry))
    : list (string * MemoryEntry) + string :=
  match entries with
  | [] => inl results
  | (key, data) :: rest =>
      match stringifyLower (entry_value data) with
      | inr msg => inr msg
      | inl valueStr =>
          let results :=
            if includesText valueStr queryLower
            then (results ++ [(key, data)])%list else results in
          if limit <=? Z.of_nat (List.length results) then inl results
          else searchLoop queryLower limit rest results
      end
  end.

(** [searchMemory(input)] *)
Definition searchMemory (params : MemoryParams)
    (store : gmap string (JsMap MemoryEntry))
    : MemoryOutput * gmap string (JsMap MemoryEntry) :=
  if missing (param_projectId params) || missing (param_query params)
  then (failedWith "Missing required parameters: projectId and query", store)
  else
    let projectId := strOr (param_projectId params) "" in
    let query := strOr (param_query params) "" in
    let limit := match param_limit params with Some n => n | None => 10 end in
    let '(memory, store) := getMemoryStore projectId store in
    match searchLoop (toLowerCase query) limit memory [] with
    | inl results =>
        (succeeded (Found results (Z.of_nat (List.length results))), store)
    | inr msg =>
        (failedWith ("Failed to search memory: " ++ msg)%string, store)
    end.

(** The keyword test of [searchMemory] on one entry, when it does not
    throw. *)
Definition matchesQuery (queryLower : string) (e : string * MemoryEntry)
    : bool :=
  match stringifyLower (entry_value (snd e)) with
  | inl valueStr => includesText valueStr queryLower
  | inr _ => false
  end.

(** Every value of the project can be serialised. *)
Definition serialisable (memory : JsMap MemoryEntry) : Prop :=
  forall e, In e memory ->
    exists valueStr, stringifyLower (entry_value (snd e)) = inl valueStr.

End Memory.

Arguments mkEntry {Value}.
Arguments entry_value {Value}.
Arguments mkParams {Value}.
Arguments param_projectId {Value}.
Arguments param_key {Value}.
Arguments param_value {Value}.
Arguments param_metadata {Value}.
Arguments param_query {Value}.
Arguments param_limit {Value}.
Arguments Stored {Value}.
Arguments Retrieved {Value}.
Arguments Found {Value}.
Arguments succeeded {Value}.
Arguments failedWith {Value}.
Arguments storeMemory {Value}.
Arguments retrieveMemory {Value}.
Arguments searchMemory {Value}.
Arguments searchLoop {Value}.
Arguments getMemoryStore {Value}.
Arguments matchesQuery {Value}.
Arguments serialisable {Value}.

(* ===================================================================== *)
(** ** Example collaborators, graphs and worlds                          *)
(* ===================================================================== *)

(** A registry with three delegates: ["ok_agent"] succeeds with an output
    that has no [decision_id]; ["strategy_agent"] inserts the decision
    ["d1"] with the options ["safe"] and ["bold"] and answers with its id;
    ["failing_agent"] answers [success: false]. Any other id is not
    registered, and [runAgent] throws. Every tool succeeds. *)
Definition demoDecision (pid : string) : Decision :=
  mkDecision "d1" pid "strategy_agent"
    "Which content strategy approach would you like to pursue?"
    [mkOption "safe" "Safe Approach" "{safe}";
     mkOption "bold" "Bold Approach" "{bold}"]
    None pending.

Definition demoAgents (agent input pid : string) (sessionId : option string)
    (w : World) : AgentReply :=
  if String.eqb agent "ok_agent" then
    mkReply (inl (mkAgentOutput true (Some (mkAgentData None)) None)) []
  else if String.eqb agent "strategy_agent" then
    mkReply (inl (mkAgentOutput true (Some (mkAgentData (Some "d1"))) None))
            [demoDecision pid]
  else if String.eqb agent "failing_agent" then
    mkReply (inl (mkAgentOutput false None (Some "boom"))) []
  else mkReply (inr ("Agent not found: " ++ agent)%string) [].

Definition demo : Collaborators :=
  mkCollaborators (fun n => ("id" ++ pretty n)%string) demoAgents
                  (fun _ _ _ => true).

Definition emptyWorld : World := mkWorld [] [] [] [] [] [] [] 0.

(** A node with the defaults of [parseWorkflowYAML] except for the advisory
    checks, which are switched off. *)
Definition simpleNode (id agent : string) (deps : list string)
    (approval : bool) (policy : option RetryPolicy) : WorkflowNodeType :=
  mkNode id id agent deps approval policy false false.

(** [A -> B], where [B] requires approval and is run by the strategy
    agent. *)
Definition approvalFlow : WorkflowType :=
  mkWorkflow "approval" ""
    [simpleNode "A" "ok_agent" [] false None;
     simpleNode "B" "strategy_agent" ["A"] true None].



(** [A -> B -> C], where the delegate of [A] always fails and is retried
    twice. *)
Definition stuckChain : WorkflowType :=
  mkWorkflow "chain" ""
    [simpleNode "A" "failing_agent" [] false (Some (mkRetryPolicy 2 10));
     simpleNode "B" "ok_agent" ["A"] false None;
     simpleNode "C" "ok_agent" ["B"] false None].

(** [A -> B -> C] with delegates that succeed and no approval. *)
Definition linearChain : WorkflowType :=
  mkWorkflow "linear" ""
    [simpleNode "A" "ok_agent" [] false None;
     simpleNode "B" "ok_agent" ["A"] false None;
     simpleNode "C" "ok_agent" ["B"] false None].

(** [A -> B, B -> A], and a node [C] that depends on a missing [D]. *)
Definition cyclicGraph : WorkflowType :=
  mkWorkflow "cyclic" ""
    [simpleNode "A" "ok_agent" ["B"] false None;
     simpleNode "B" "ok_agent" ["A"] false None;
     simpleNode "C" "ok_agent" ["D"] false None].

(** A world with one fresh run of project ["p"]. *)
Definition freshRun : World :=
  set_workflowStates
    (fun _ => [mkState "s0" "p" None [] [] [] running "{}"]) emptyWorld.

(** The world after [startWorkflow] on [approvalFlow]: paused on ["d1"]. *)
Definition pausedWorld : World :=
  orElse (finalWorld (startWorkflow (H := demo) approvalFlow "p" "{}" None
                                    emptyWorld))
         emptyWorld.

(** The world after the decision ["d1"] has then been approved with
    ["safe"]: the run is completed. *)
Definition approvedWorld : World :=
  orElse (finalWorld (approveDecision (H := demo) approvalFlow "p" "d1"
                                      "safe" None pausedWorld))
         emptyWorld.

(** A node whose policy is [{ maxRetries: -1, backoffMs: 0 }]. *)
Definition negativeRetryNode : WorkflowNodeType :=
  simpleNode "A" "ok_agent" [] false (Some (mkRetryPolicy (-1) 0)).

(** Two roots: [B] requires approval and is run by the strategy agent, [C]
    is an ordinary node. *)
Definition gateFlow : WorkflowType :=
  mkWorkflow "gate" ""
    [simpleNode "B" "strategy_agent" [] true None;
     simpleNode "C" "ok_agent" [] false None].

(** Two roots: the delegate of [A] always fails, the one of [B] succeeds. *)
Definition twoRoots : WorkflowType :=
  mkWorkflow "roots" ""
    [simpleNode "A" "failing_agent" [] false None;
     simpleNode "B" "ok_agent" [] false None].

(** The collaborators of [demo], except that the calendar generation of the
    artifact tool fails. *)
Definition calendarDown : Collaborators :=
  mkCollaborators (fun n => ("id" ++ pretty n)%string) demoAgents
    (fun tool action _ =>
       negb (String.eqb tool "artifact_generator"
             && String.eqb action "content_calendar")).

(** [pausedWorld] with a second project ["q"], whose run has just been
    created. *)
Definition sharedWorld : World :=
  set_workflowStates
    (fun rows => rows ++ [mkState "s9" "q" None [] [] [] running "{}"])
    pausedWorld.

(** A memory of project ["p"] with three entries, as a store whose values
    are texts that serialise to themselves. *)
Definition demoMemory : JsMap (MemoryEntry string) :=
  [("tone", mkEntry "bold voice" "" "t1");
   ("audience", mkEntry "founders" "" "t2");
   ("voice", mkEntry "plain" "" "t3")].

(** The memory store in which only project ["p"] has a memory. *)
Definition demoStore : gmap string (JsMap (MemoryEntry string)) :=
  {[ "p"%string := demoMemory ]}.

(* ===================================================================== *)
(** ** Properties named by the specification                             *)
(* ===================================================================== *)

(** [status = paused] iff [pendingDecisions] is non-empty. *)
Definition pausedIffPending (s : WorkflowState) : Prop :=
  status s = paused <-> pendingDecisions s <> [].

(** The half of it that every operation keeps. *)
Definition pausedImpliesPending (s : WorkflowState) : Prop :=
  status s = paused -> pendingDecisions s <> [].

(** A run is terminal when it is completed or failed. *)
Definition terminal (s : WorkflowState) : Prop :=
  status s = completed \/ status s = failed.

(** No node id is both completed and failed. *)
Definition disjointOutcomes (completedNodes failedNodes : list string)
    : Prop :=
  forall nodeId, In nodeId completedNodes -> In nodeId failedNodes -> False.

(** A delegate invocation that fails: it rejects, or it answers
    [success: false]. *)
Definition failedReply (r : AgentReply) : Prop :=
  match reply_result r with
  | inl output => success output = false
  | inr _ => True
  end.

(** The delegate of a node fails on every invocation. *)
Definition alwaysFails `{Collaborators} (node : WorkflowNodeType)
    (pid input : string) (sessionId : option string) : Prop :=
  forall w, failedReply (agent_run (agentId node) input pid sessionId w).

(** The delegate of a node answers [output] on every invocation. *)
Definition alwaysAnswers `{Collaborators} (node : WorkflowNodeType)
    (pid input : string) (sessionId : option string)
    (output : AgentOutputType) : Prop :=
  forall w,
    reply_result (agent_run (agentId node) input pid sessionId w)
    = inl output.

(** The retry numbers [from + 1, ..., from + count]. *)
Definition retriesFrom (from : Z) (count : nat) : list Z :=
  map (fun i => from + 1 + Z.of_nat i) (seq 0 count).



(** The edges of the dependency graph, as [hasCycle] follows them: from an
    id to each dependency of the node that [find] returns for it. *)
Definition dependsOn (workflow : WorkflowType) (x y : string) : Prop :=
  exists node, findNode workflow x = Some node /\ In y (dependencies node).

(** A path of at least one edge. *)
Inductive path (workflow : WorkflowType) : string -> string -> Prop :=
  | path_edge x y : dependsOn workflow x y -> path workflow x y
  | path_step x y z :
      dependsOn workflow x y -> path workflow y z -> path workflow x z.

(** [x] lies on a dependency cycle. *)
Definition onCycle (workflow : WorkflowType) (x : string) : Prop :=
  path workflow x x.

(** [x] lies on a cycle or depends, directly or not, on an id that does. *)
Definition reachesCycle (workflow : WorkflowType) (x : string) : Prop :=
  onCycle workflow x \/ exists y, path workflow x y /\ onCycle workflow y.

(** The graph contains a dependency cycle. *)
Definition hasDependencyCycle (workflow : WorkflowType) : Prop :=
  exists x, onCycle workflow x.

(** The cycle errors that [validateWorkflow] owes for a list of nodes: one
    for each node, in order, whose id reaches a cycle. *)
Inductive cycleReport (workflow : WorkflowType)
    : list WorkflowNodeType -> list string -> Prop :=
  | report_nil : cycleReport workflow [] []
  | report_cyclic node ns es :
      reachesCycle workflow (node_id node) ->
      cycleReport workflow ns es ->
      cycleReport workflow (node :: ns) (circularError (node_id node) :: es)
  | report_acyclic node ns es :
      ~ reachesCycle workflow (node_id node) ->
      cycleReport workflow ns es ->
      cycleReport workflow (node :: ns) es.

(** Some node of the graph lists a dependency id that names no node. *)
Definition hasDanglingDependency (workflow : WorkflowType) : Prop :=
  exists node dep,
    In node (nodes workflow) /\ In dep (dependencies node) /\
    forall n, In n (nodes workflow) -> node_id n <> dep.

(* ===================================================================== *)
(** ** Vocabulary of the statements and of their proofs                  *)
(* ===================================================================== *)

(** What the search knows at any time: a visited id is still on the
    recursion stack, or it was left for good and reaches no cycle. *)
Definition dfsInv (workflow : WorkflowType) (st : DfsState) : Prop :=
  forall x, x ∈ visited st ->
    x ∈ recursionStack st \/ ~ reachesCycle workflow x.

(** What a call [hasCycle(nodeId)] may assume of the stack: each id on it
    is an ancestor of the call, or it was left there by an earlier call
    that returned [true], and then it reaches a cycle. *)
Definition stackLeadsTo (workflow : WorkflowType) (nodeId : string)
    (st : DfsState) : Prop :=
  forall z, z ∈ recursionStack st ->
    reachesCycle workflow z \/ path workflow z nodeId.

(** What a call guarantees. *)
Definition hasCyclePost (workflow : WorkflowType) (nodeId : string)
    (st : DfsState) (b : bool) (st' : DfsState) : Prop :=
  dfsInv workflow st' /\
  (b = true ->
     reachesCycle workflow nodeId /\
     forall z, z ∈ recursionStack st' -> reachesCycle workflow z) /\
  (b = false ->
     ~ reachesCycle workflow nodeId /\
     recursionStack st' = recursionStack st).

(** The finite universe of ids. *)
Definition universe (workflow : WorkflowType) : gset string :=
  list_to_set (allIds workflow).

(** The ids not yet visited. *)
Definition unvisited (workflow : WorkflowType) (st : DfsState) : nat :=
  size (universe workflow ∖ visited st).

(** Two worlds hold the same rows of [workflow_states], up to their
    contents: no row was inserted or deleted. *)
Definition sameRows (w w' : World) : Prop :=
  map state_id (workflowStates w') = map state_id (workflowStates w) /\
  map projectId (workflowStates w') = map projectId (workflowStates w).

(** The row update of [updateWorkflowState]. *)
Definition updateRows (pid : string) (u : StateUpdates)
    (rows : list WorkflowState) : list WorkflowState :=
  map (fun s => if String.eqb (projectId s) pid then applyUpdates u s else s)
      rows.

(** The state of the project after each operation, from the state
    before. [None] is a project without a row. *)
Definition stateOpEffect (op : StateOp) (before : option WorkflowState)
    : option WorkflowState :=
  match op, before with
  | OpCreateWorkflowState, None => None
  | OpCreateWorkflowState, Some s => Some s
  | OpSetCurrentNode n, Some s =>
      Some (applyUpdates
              (mkUpdates (Some (Some n)) None None None None None) s)
  | OpMarkNodeComplete n, Some s =>
      Some (applyUpdates
              (mkUpdates (Some None) (Some (completedNodes s ++ [n]))
                         None None None None) s)
  | OpMarkNodeFailed n, Some s =>
      Some (applyUpdates
              (mkUpdates (Some None) None (Some (failedNodes s ++ [n]))
                         None (Some failed) None) s)
  | OpAddPendingDecision d, Some s =>
      Some (applyUpdates
              (mkUpdates None None None (Some (pendingDecisions s ++ [d]))
                         (Some paused) None) s)
  | OpRemovePendingDecision d, Some s =>
      let remaining :=
        List.filter (fun id => negb (String.eqb id d))
                    (pendingDecisions s) in
      Some (applyUpdates
              (mkUpdates None None None (Some remaining)
                 (Some (match remaining with
                        | [] => running
                        | _ :: _ => paused
                        end)) None) s)
  | OpCompleteWorkflow, Some s =>
      Some (applyUpdates
              (mkUpdates (Some None) None None None (Some completed) None)
              s)
  | OpCancelWorkflow, Some s =>
      Some (applyUpdates
              (mkUpdates (Some None) None None None (Some failed) None) s)
  | OpDeleteWorkflowState, _ => None
  | _, None => None
  end.

(** One more delegate invocation, and no sleep. *)
Definition oneCall (agent : string) (w w' : World) : Prop :=
  agentCalls w' = (agentCalls w ++ [agent])%list /\ sleeps w' = sleeps w.

(** The state write of a successful attempt, and its result. *)
Definition attemptWrite (node : WorkflowNodeType)
    (output : AgentOutputType) (s : WorkflowState)
    : NodeResult * WorkflowState :=
  match (if requiresApproval node then decisionIdOf output else None) with
  | Some d =>
      (mkNodeResult (node_id node) awaiting_approval true (Some d) None,
       applyUpdates
         (mkUpdates None None None (Some (pendingDecisions s ++ [d])%list)
                    (Some paused) None) s)
  | None =>
      (mkNodeResult (node_id node) node_completed false None None,
       applyUpdates
         (mkUpdates (Some None)
                    (Some (completedNodes s ++ [node_id node])%list)
                    None None None None) s)
  end.

(** An attempt that returns: the delegate answered [success: true], and
    the state was written accordingly. *)
Definition attemptReturned `{Collaborators} (node : WorkflowNodeType)
    (pid input : string)
    (sessionId : option string) (w : World) (r : NodeResult) (w' : World)
    : Prop :=
  oneCall (agentId node) w w' /\ sameRows w w' /\
  exists output s,
    reply_result (agent_run (agentId node) input pid sessionId w)
    = inl output /\
    success output = true /\
    stateIn pid w = Some s /\
    r = fst (attemptWrite node output s) /\
    stateIn pid w' = Some (snd (attemptWrite node output s)).

(** An attempt that throws wrote nothing to the state table; when the
    state exists, it threw because the delegate failed. *)
Definition attemptThrew `{Collaborators} (node : WorkflowNodeType)
    (pid input : string)
    (sessionId : option string) (w w' : World) : Prop :=
  oneCall (agentId node) w w' /\
  workflowStates w' = workflowStates w /\
  (stateIn pid w <> None ->
   failedReply (agent_run (agentId node) input pid sessionId w)).

(** The loop returned from inside the [try]: [j] attempts threw, each
    followed by its backoff sleep, and the next one, started in a world
    [w0] with the same state table, returned. *)
Definition loopReturned `{Collaborators} (node : WorkflowNodeType)
    (pid input : string)
    (sessionId : option string) (retries : Z) (w : World) (r : NodeResult)
    (w' : World) : Prop :=
  exists (j : nat) (w0 : World),
    retries + Z.of_nat j <= effectiveMaxRetries node /\
    agentCalls w' = (agentCalls w ++ repeat (agentId node) (S j))%list /\
    sleeps w'
    = (sleeps w ++ map (retryDelay node) (retriesFrom retries j))%list /\
    workflowStates w0 = workflowStates w /\
    attemptReturned node pid input sessionId w0 r w' /\
    ((0 < j)%nat -> stateIn pid w <> None ->
     exists w1,
       failedReply (agent_run (agentId node) input pid sessionId w1)).

(** The loop ran out of retries: every attempt threw, and all but the
    last were followed by a sleep. When the state exists, an attempt
    throws only because the delegate failed. *)
Definition loopExhausted `{Collaborators} (node : WorkflowNodeType)
    (pid input : string)
    (sessionId : option string) (retries : Z) (w : World) (retries' : Z)
    (w' : World) : Prop :=
  let n := Z.to_nat (effectiveMaxRetries node + 1 - retries) in
  retries' = Z.max retries (effectiveMaxRetries node + 1) /\
  workflowStates w' = workflowStates w /\
  agentCalls w' = (agentCalls w ++ repeat (agentId node) n)%list /\
  sleeps w'
  = (sleeps w ++ map (retryDelay node) (retriesFrom retries (n - 1)))%list /\
  ((0 < n)%nat -> stateIn pid w <> None ->
   exists w1,
     failedReply (agent_run (agentId node) input pid sessionId w1)).

(** The state once [setCurrentNode] has run. *)
Definition started (node : WorkflowNodeType) (s : WorkflowState)
    : WorkflowState :=
  applyUpdates
    (mkUpdates (Some (Some (node_id node))) None None None None None) s.

(** The state once [markNodeFailed] has run. *)
Definition failedState (node : WorkflowNodeType) (s : WorkflowState)
    : WorkflowState :=
  applyUpdates
    (mkUpdates (Some None) None
               (Some (failedNodes s ++ [node_id node])%list) None
               (Some failed) None) s.

(** The trace of [j] failed attempts, each followed by its sleep, and
    one last attempt. *)
Definition attemptsTrace (node : WorkflowNodeType) (j : nat)
    (w w' : World) : Prop :=
  agentCalls w' = (agentCalls w ++ repeat (agentId node) (S j))%list /\
  sleeps w' = (sleeps w ++ map (retryDelay node) (retriesFrom 0 j))%list.

(** The trace of a loop that ran out of retries (none at all when
    [maxRetries] is negative). *)
Definition exhaustedTrace (node : WorkflowNodeType) (w w' : World) : Prop :=
  let n := Z.to_nat (effectiveMaxRetries node + 1) in
  agentCalls w' = (agentCalls w ++ repeat (agentId node) n)%list /\
  sleeps w'
  = (sleeps w ++ map (retryDelay node) (retriesFrom 0 (n - 1)))%list.

(** [executeNode] returned a result from inside the [try]. *)
Definition nodeReturned `{Collaborators} (node : WorkflowNodeType)
    (pid input : string)
    (sessionId : option string) (s : WorkflowState) (w : World)
    (r : NodeResult) (w' : World) : Prop :=
  exists (j : nat) (output : AgentOutputType),
    Z.of_nat j <= effectiveMaxRetries node /\
    attemptsTrace node j w w' /\
    success output = true /\
    (exists w0,
        reply_result (agent_run (agentId node) input pid sessionId w0)
        = inl output) /\
    r = fst (attemptWrite node output (started node s)) /\
    stateIn pid w' = Some (snd (attemptWrite node output (started node s))) /\
    ((0 < j)%nat ->
     exists w1,
       failedReply (agent_run (agentId node) input pid sessionId w1)).

(** [executeNode] ran out of retries and marked the node failed. *)
Definition nodeExhausted `{Collaborators} (node : WorkflowNodeType)
    (pid input : string)
    (sessionId : option string) (s : WorkflowState) (w : World)
    (r : NodeResult) (w' : World) : Prop :=
  exhaustedTrace node w w' /\
  result_nodeId r = node_id node /\
  result_status r = node_failed /\
  result_requiresApproval r = false /\
  stateIn pid w' = Some (failedState node (started node s)) /\
  (0 <= effectiveMaxRetries node ->
   exists w1,
     failedReply (agent_run (agentId node) input pid sessionId w1)).

(** The record of a run is the same row, and its two lists of node ids
    were only appended to. *)
Definition extends (s s' : WorkflowState) : Prop :=
  state_id s' = state_id s /\
  completedNodes s `prefix_of` completedNodes s' /\
  failedNodes s `prefix_of` failedNodes s'.

(** A node id is settled when it is in [completedNodes] or in
    [failedNodes]. *)
Definition settled (s : WorkflowState) (nodeId : string) : bool :=
  includes (completedNodes s) nodeId || includes (failedNodes s) nodeId.

(** The nodes of the graph that are not settled yet. *)
Definition unsettled (workflow : WorkflowType) (s : WorkflowState) : nat :=
  List.length
    (List.filter (fun n => negb (settled s (node_id n))) (nodes workflow)).

(** A step of the run: it ends without throwing, no row was inserted or
    deleted, and the record of the project was extended. *)
Definition runStep (pid : string) {A} (w : World) (s : WorkflowState)
    (o : Outcome A) (post : A -> WorkflowState -> Prop) : Prop :=
  exists a w' s',
    o = Ok a w' /\ sameRows w w' /\ stateIn pid w' = Some s' /\
    extends s s' /\ post a s'.

(** The world in which a fresh start enters the run loop: one more row,
    and the "Started workflow" event. *)
Definition freshWorld `{Collaborators} (workflow : WorkflowType)
    (pid : string) (w : World) : World :=
  set_logEvents
    (fun rows =>
       rows ++ [mkLogEvent (nanoid_nth (S (idCounter w))) "orchestrator"
                  "MasterOrchestrator" "emit"
                  ("Started workflow: " ++ workflow_name workflow)%string
                  pid])
    (set_idCounter S
       (set_workflowStates
          (fun rows =>
             rows ++ [mkState (nanoid_nth (idCounter w)) pid None [] [] []
                              running "{}"])
          (set_idCounter S w))).

(** [select ... from decisions where id = decisionId limit 1] *)
Definition lookupDecision (decisionId : string) (w : World)
    : option Decision :=
  List.find (fun d => String.eqb (decision_id d) decisionId) (decisions w).

(** [metadata.options.find(opt => opt.id === selectedOption)] *)
Definition lookupOption (selected : string) (decision : Decision)
    : option DecisionOption :=
  List.find (fun opt => String.eqb (option_id opt) selected)
            (options decision).

(** The status that [removePendingDecision] writes. *)
Definition statusFor (remaining : list string) : WorkflowStatus :=
  match remaining with
  | [] => running
  | _ :: _ => paused
  end.

(** The record once [removePendingDecision] has run. *)
Definition afterRemoval (decisionId : string) (s : WorkflowState)
    : WorkflowState :=
  let remaining :=
    List.filter (fun id => negb (String.eqb id decisionId))
                (pendingDecisions s) in
  applyUpdates
    (mkUpdates None None None (Some remaining) (Some (statusFor remaining))
               None) s.

(** The four tool calls of [processStrategyDecision]. *)
Definition completionCalls : list string :=
  ["artifact_generator.content_calendar"; "memory.store";
   "file_storage.save"; "file_storage.save"].

(** [approveDecision] up to the result of [processStrategyDecision]. *)
Definition approvalStage `{Collaborators} (pid decisionId selected : string)
    (sessionId : option string) : M AgentOutputType :=
  removePendingDecision pid decisionId ;;
  orchestratorEvent "emit"
    ("Decision approved: " ++ decisionId ++ " - option: " ++ selected)%string
    pid ;;
  processStrategyDecision pid decisionId selected sessionId.

(** [approveDecision] after it. *)
Definition approvalResume `{Collaborators} (workflow : WorkflowType)
    (pid : string) (sessionId : option string) (result : AgentOutputType)
    : M ApproveResult :=
  if success result then
    state <- getWorkflowState pid ;;
    match currentNodeOf state with
    | Some n => markNodeComplete pid n
    | None => ret tt
    end ;;
    r <- executeNextNodes workflow pid "{}" sessionId ;;
    ret (Resumed r)
  else ret (NotProcessed result).

(* ===================================================================== *)
(** ** Vocabulary of the further properties                              *)
(* ===================================================================== *)

(** A list of ids in which each one depends on the next. *)
Fixpoint dependencyChain (workflow : WorkflowType) (l : list string) : Prop :=
  match l with
  | x :: (y :: _) as rest =>
      dependsOn workflow x y /\ dependencyChain workflow rest
  | _ => True
  end.

(** The three ways in which [executeNode] leaves the record of the run. *)
Inductive NodeOutcome :=
  | Completes
  | Pauses (decisionId : string)
  | Fails.

(** The outcome that makes the [for] loop [break]. *)
Definition isPause (o : NodeOutcome) : bool :=
  match o with Pauses _ => true | _ => false end.

(** The record after [executeNode], by outcome. *)
Definition stateAfterNode (node : WorkflowNodeType) (o : NodeOutcome)
    (s : WorkflowState) : WorkflowState :=
  let s0 := started node s in
  match o with
  | Completes =>
      applyUpdates
        (mkUpdates (Some None)
                   (Some (completedNodes s0 ++ [node_id node])%list)
                   None None None None) s0
  | Pauses d =>
      applyUpdates
        (mkUpdates None None None (Some (pendingDecisions s0 ++ [d])%list)
                   (Some paused) None) s0
  | Fails => failedState node s0
  end.

(** What the delegate of a node must be able to do for an outcome to
    occur. *)
Definition possibleOutcome `{Collaborators} (pid input : string)
    (sessionId : option string) (node : WorkflowNodeType)
    (o : NodeOutcome) : Prop :=
  match o with
  | Completes =>
      exists w0 output,
        reply_result (agent_run (agentId node) input pid sessionId w0)
        = inl output /\
        success output = true /\
        (requiresApproval node = true -> decisionIdOf output = None)
  | Pauses d =>
      requiresApproval node = true /\
      exists w0 output,
        reply_result (agent_run (agentId node) input pid sessionId w0)
        = inl output /\
        success output = true /\ decisionIdOf output = Some d
  | Fails =>
      effectiveMaxRetries node < 0 \/
      exists w1, failedReply (agent_run (agentId node) input pid sessionId w1)
  end.

(** The effect of the [for] loop of [executeNextNodes] on the record: the
    nodes of the batch are executed in order, up to and including the first
    one that pauses the run. The flag tells whether one did. *)
Inductive batchTrace (possible : WorkflowNodeType -> NodeOutcome -> Prop)
    : list WorkflowNodeType -> WorkflowState -> WorkflowState -> bool
      -> Prop :=
  | batch_done s : batchTrace possible [] s s false
  | batch_next node rest o s s' b :
      possible node o -> isPause o = false ->
      batchTrace possible rest (stateAfterNode node o s) s' b ->
      batchTrace possible (node :: rest) s s' b
  | batch_break node rest d s :
      possible node (Pauses d) ->
      batchTrace possible (node :: rest) s
                 (stateAfterNode node (Pauses d) s) true.

(** The record once [completeWorkflow] has run. *)
Definition completedState (s : WorkflowState) : WorkflowState :=
  applyUpdates (mkUpdates (Some None) None None None (Some completed) None) s.

(** The effect of [executeNextNodes] on the record, with what it returns. *)
Inductive runTrace (possible : WorkflowNodeType -> NodeOutcome -> Prop)
    (workflow : WorkflowType)
    : WorkflowState -> WorkflowState -> RunResult -> Prop :=
  | run_awaiting s :
      status s = paused ->
      runTrace possible workflow s s (PausedAwaiting (pendingDecisions s))
  | run_terminal s :
      terminal s ->
      runTrace possible workflow s s
               (Terminal (status s) (completedNodes s) (failedNodes s))
  | run_complete s :
      status s = running ->
      getNextNodes workflow (completedNodes s) (failedNodes s) = [] ->
      runTrace possible workflow s (completedState s)
               (Completed (completedNodes s))
  | run_pause s s' results :
      status s = running ->
      batchTrace possible
        (getNextNodes workflow (completedNodes s) (failedNodes s)) s s' true ->
      runTrace possible workflow s s' (PausedBatch results)
  | run_next s s1 s' r :
      status s = running ->
      getNextNodes workflow (completedNodes s) (failedNodes s) <> [] ->
      batchTrace possible
        (getNextNodes workflow (completedNodes s) (failedNodes s)) s s1 false ->
      runTrace possible workflow s1 s' r ->
      runTrace possible workflow s s' r.

(** Every id of the list is the id of a node of the graph all of whose
    dependencies occur earlier in the list. *)
Definition dependenciesFirst (workflow : WorkflowType) (l : list string)
    : Prop :=
  forall before x after,
    l = (before ++ x :: after)%list ->
    exists node,
      In node (nodes workflow) /\ node_id node = x /\
      forall dep, In dep (dependencies node) -> In dep before.

(** A record as [createWorkflowState] writes it. *)
Definition freshState (s : WorkflowState) : Prop :=
  currentNode s = None /\ completedNodes s = [] /\ failedNodes s = [] /\
  pendingDecisions s = [] /\ status s = running.

(** The record on which [startWorkflow] enters the run loop: the existing
    one when it is running or paused, a fresh one otherwise. *)
Definition entryState (before : option WorkflowState) (s0 : WorkflowState)
    : Prop :=
  match before with
  | Some s =>
      match status s with
      | running | paused => s0 = s
      | completed | failed => freshState s0
      end
  | None => freshState s0
  end.

(** The delegate of a node never fails and never asks for a decision, and
    the retry budget of the node is not negative. *)
Definition reliable `{Collaborators} (pid input : string)
    (sessionId : option string) (node : WorkflowNodeType) : Prop :=
  0 <= effectiveMaxRetries node /\
  forall w, exists output,
    reply_result (agent_run (agentId node) input pid sessionId w)
    = inl output /\
    success output = true /\
    (requiresApproval node = true -> decisionIdOf output = None).

(** What a run that ends has to say, by the snapshot it returns. *)
Definition runVerdict (workflow : WorkflowType) (r : RunResult)
    (s' : WorkflowState) : Prop :=
  status s' = resultStatus r /\
  match r with
  | Completed l =>
      l = completedNodes s' /\ failedNodes s' = [] /\
      forall node, In node (nodes workflow) -> In (node_id node) l
  | Terminal st _ l => st = failed /\ l = failedNodes s' /\ l <> []
  | PausedBatch _ => pendingDecisions s' <> []
  | PausedAwaiting l => l = pendingDecisions s'
  end.

(** The unsuccessful result of [processStrategyDecision]. *)
Definition notProcessed (msg : string) : AgentOutputType :=
  mkAgentOutput false None (Some msg).

(** What the approval stage does to the decisions and through the tools,
    by what it finds. *)
Definition approvalEffect `{Collaborators} (decisionId selected : string)
    (w : World) (result : AgentOutputType) (w' : World) : Prop :=
  match lookupDecision decisionId w with
  | None =>
      result = notProcessed ("Decision not found: " ++ decisionId)%string /\
      decisions w' = decisions w /\ toolCalls w' = toolCalls w
  | Some decision =>
      match lookupOption selected decision with
      | None =>
          result
          = notProcessed ("Invalid option selected: " ++ selected)%string /\
          decisions w' = decisions w /\ toolCalls w' = toolCalls w
      | Some _ =>
          lookupDecision decisionId w'
          = Some (approveRow selected decision) /\
          exists w0,
            if tool_success "artifact_generator" "content_calendar" w0
            then
              result = mkAgentOutput true (Some (mkAgentData None)) None /\
              toolCalls w' = (toolCalls w ++ completionCalls)%list
            else
              result = notProcessed "Calendar generation failed" /\
              toolCalls w'
              = (toolCalls w ++ ["artifact_generator.content_calendar"])%list
      end
  end.

(** The record on which [approveDecision] re-enters the run loop: the
    current node, when there is one, is marked completed. *)
Definition resumeState (s : WorkflowState) : WorkflowState :=
  match currentNodeOf (Some s) with
  | Some n =>
      applyUpdates
        (mkUpdates (Some None) (Some (completedNodes s ++ [n])%list)
                   None None None None) s
  | None => s
  end.

(** The rows of [workflow_states] that belong to other projects. *)
Definition otherProjects (pid : string) (w : World) : list WorkflowState :=
  List.filter (fun s => negb (String.eqb (projectId s) pid))
              (workflowStates w).

(** A computation keeps a relation between the world it starts in and
    the world it ends in, whether it returns or throws. *)
Definition keeps {A} (R : World -> World -> Prop) (m : M A) : Prop :=
  forall w,
    match m w with
    | Ok _ w' | Throw _ w' => R w w'
    | OutOfFuel => True
    end.

(** A relation between worlds that every primitive step of the
    orchestrator on project [pid] keeps. *)
Record StepInvariant `{Collaborators} (pid : string)
    (R : World -> World -> Prop) : Prop := mkStepInvariant {
  step_refl : forall w, R w w;
  step_trans : forall w1 w2 w3, R w1 w2 -> R w2 w3 -> R w1 w3;
  step_update : forall u, keeps R (updateWorkflowState pid u);
  step_insert :
    forall row, projectId row = pid ->
      keeps R (modify (set_workflowStates (fun rows => rows ++ [row])%list));
  step_delete : keeps R (deleteWorkflowState pid);
  step_nanoid : keeps R nanoid;
  step_log : forall f, keeps R (modify (set_logEvents f));
  step_advisory : forall f, keeps R (modify (set_advisoryCalls f));
  step_sleep : forall f, keeps R (modify (set_sleeps f));
  step_agent :
    forall agent input sessionId,
      keeps R (runAgent agent input pid sessionId)
}.

(** The rows of the other projects are the same in both worlds. *)
Definition sameOthers (pid : string) (w w' : World) : Prop :=
  otherProjects pid w' = otherProjects pid w.

(** The rows of [decisions] are still there, in place and unchanged;
    rows may have been added after them. *)
Definition decisionsKept (w w' : World) : Prop :=
  decisions w `prefix_of` decisions w'.


(** The last node of an id. *)
Definition findLastNode (workflow : WorkflowType) (nodeId : string)
    : option WorkflowNodeType :=
  List.find (fun n => String.eqb (node_id n) nodeId) (rev (nodes workflow)).




(* ===================================================================== *)
(** * Theorems                                                           *)
(* ===================================================================== *)

(** ** Lists and strings *)

Lemma includes_In l x : includes l x = true <-> In x l.
Proof.
  unfold includes. rewrite existsb_exists. split.
  - intros (y & Hy & Heq). apply String.eqb_eq in Heq. now subst.
  - intros Hin. exists x. split; [assumption | apply String.eqb_refl].
Qed.

Lemma includes_false l x : includes l x = false <-> ~ In x l.
Proof.
  rewrite <- includes_In. destruct (includes l x); split; congruence.
Qed.

Lemma includes_app l k x : includes (l ++ k) x = includes l x || includes k x.
Proof. unfold includes. apply existsb_app. Qed.

(** ** The next-eligible set *)

Lemma getNextNodes_spec workflow completedNodes failedNodes node :
  In node (getNextNodes workflow completedNodes failedNodes) <->
  In node (nodes workflow) /\
  ~ In (node_id node) completedNodes /\
  ~ In (node_id node) failedNodes /\
  forall dep, In dep (dependencies node) -> In dep completedNodes.
Proof.
  unfold getNextNodes. rewrite filter_In.
  unfold areDependenciesSatisfied.
  destruct (includes completedNodes (node_id node)) eqn:Hc;
    destruct (includes failedNodes (node_id node)) eqn:Hf; simpl;
    rewrite ?includes_In, ?includes_false in *.
  1-3: split; [intros [_ ?]; discriminate | tauto].
  rewrite forallb_forall. split.
  - intros [Hin Hall]. repeat split; try assumption.
    intros dep Hdep. apply includes_In. now apply Hall.
  - intros (Hin & _ & _ & Hall). split; [assumption |].
    intros dep Hdep. apply includes_In. now apply Hall.
Qed.

(** ** The dependency graph *)

Section Graph.
Variable workflow : WorkflowType.

Lemma findNode_In nodeId node :
  findNode workflow nodeId = Some node ->
  In node (nodes workflow) /\ node_id node = nodeId.
Proof.
  unfold findNode. intros Hfind. apply find_some in Hfind.
  destruct Hfind as [Hin Heq]. apply String.eqb_eq in Heq. now split.
Qed.

Lemma findNode_None nodeId :
  findNode workflow nodeId = None ->
  forall n, In n (nodes workflow) -> node_id n <> nodeId.
Proof.
  unfold findNode. intros Hfind n Hin Heq.
  apply (find_none _ _ Hfind) in Hin. simpl in Hin.
  apply String.eqb_neq in Hin. contradiction.
Qed.

Lemma findNode_of_In node :
  In node (nodes workflow) ->
  exists node', findNode workflow (node_id node) = Some node'.
Proof.
  intros Hin. destruct (findNode workflow (node_id node)) eqn:Hfind.
  - eauto.
  - exfalso. now apply (findNode_None _ Hfind node).
Qed.

(** With unique ids, [find] returns the only node of that id, and the
    edges are those of the nodes themselves. *)
Lemma findNode_unique node :
  List.NoDup (map node_id (nodes workflow)) ->
  In node (nodes workflow) ->
  findNode workflow (node_id node) = Some node.
Proof.
  unfold findNode. induction (nodes workflow) as [|n ns IH]; simpl.
  - intros _ [].
  - intros Hnd [-> | Hin].
    + now rewrite String.eqb_refl.
    + inversion Hnd as [|? ? Hnotin Hnd']; subst.
      destruct (String.eqb (node_id n) (node_id node)) eqn:Heq.
      * apply String.eqb_eq in Heq. exfalso. apply Hnotin.
        rewrite Heq. now apply in_map.
      * now apply IH.
Qed.

Lemma dependsOn_unique_ids x y :
  List.NoDup (map node_id (nodes workflow)) ->
  dependsOn workflow x y <->
  exists node,
    In node (nodes workflow) /\ node_id node = x /\
    In y (dependencies node).
Proof.
  intros Hnd. split.
  - intros (node & Hfind & Hy). apply findNode_In in Hfind.
    exists node. tauto.
  - intros (node & Hin & <- & Hy). exists node.
    split; [now apply findNode_unique | assumption].
Qed.

Lemma path_trans x y z :
  path workflow x y -> path workflow y z -> path workflow x z.
Proof.
  induction 1 as [x y Hxy | x y y' Hxy _ IH]; intros Hz.
  - now apply path_step with y.
  - apply path_step with y; [assumption | now apply IH].
Qed.

Lemma reachesCycle_path x y :
  path workflow x y -> reachesCycle workflow y -> reachesCycle workflow x.
Proof.
  intros Hxy [Hy | (z & Hyz & Hz)]; right.
  - now exists y.
  - exists z. split; [now apply path_trans with y | assumption].
Qed.

Lemma reachesCycle_edge x y :
  dependsOn workflow x y -> reachesCycle workflow y ->
  reachesCycle workflow x.
Proof. intros Hxy. apply reachesCycle_path. now apply path_edge. Qed.

(** An id that reaches a cycle has a dependency that reaches one. *)
Lemma reachesCycle_inv x :
  reachesCycle workflow x ->
  exists y, dependsOn workflow x y /\ reachesCycle workflow y.
Proof.
  intros [Hx | (z & Hxz & Hz)].
  - unfold onCycle in Hx.
    inversion Hx as [? ? Hedge | ? y ? Hedge Hrest]; subst.
    + exists x. split; [assumption | now left].
    + exists y. split; [assumption |]. right. now exists x.
  - inversion Hxz as [? ? Hedge | ? y ? Hedge Hrest]; subst.
    + exists z. split; [assumption | now left].
    + exists y. split; [assumption |]. right. now exists z.
Qed.

Lemma onCycle_is_node x :
  onCycle workflow x ->
  exists node, In node (nodes workflow) /\ node_id node = x.
Proof.
  intros Hx. assert (exists y, dependsOn workflow x y) as (y & node & Hf & _).
  { inversion Hx; eauto. }
  exists node. now apply findNode_In.
Qed.

(** *** The depth-first search *)

Lemma hasCycle_deps_spec rec :
  (forall dep st b st',
      rec dep st = Some (b, st') ->
      dfsInv workflow st -> stackLeadsTo workflow dep st ->
      hasCyclePost workflow dep st b st') ->
  forall deps st b st',
    hasCycle_deps rec deps st = Some (b, st') ->
    dfsInv workflow st ->
    (forall dep, In dep deps -> stackLeadsTo workflow dep st) ->
    dfsInv workflow st' /\
    (b = true ->
       (exists dep, In dep deps /\ reachesCycle workflow dep) /\
       forall z, z ∈ recursionStack st' -> reachesCycle workflow z) /\
    (b = false ->
       (forall dep, In dep deps -> ~ reachesCycle workflow dep) /\
       recursionStack st' = recursionStack st).
Proof.
  intros Hrec. induction deps as [|dep rest IH]; simpl;
    intros st b st' Hrun Hinv Hpre.
  - inversion Hrun; subst. repeat split; try discriminate; tauto.
  - destruct (rec dep st) as [[[|] st1]|] eqn:Hdep; try discriminate.
    + inversion Hrun; subst.
      destruct (Hrec _ _ _ _ Hdep Hinv (Hpre dep (or_introl eq_refl)))
        as (Hinv' & Htrue & _).
      destruct (Htrue eq_refl) as [Hbad Hstack].
      repeat split; try discriminate; try assumption.
      exists dep. split; [now left | assumption].
    + destruct (Hrec _ _ _ _ Hdep Hinv (Hpre dep (or_introl eq_refl)))
        as (Hinv1 & _ & Hfalse).
      destruct (Hfalse eq_refl) as [Hgood Hsame].
      assert (Hpre1 : forall d, In d rest -> stackLeadsTo workflow d st1).
      { intros d Hd z Hz. rewrite Hsame in Hz.
        apply (Hpre d (or_intror Hd) z Hz). }
      destruct (IH _ _ _ Hrun Hinv1 Hpre1) as (Hinv' & Htrue & Hfalse').
      split; [assumption |]. split.
      * intros ->. destruct (Htrue eq_refl) as [(d & Hd & Hbad) Hstack].
        split; [exists d; split; [now right | assumption] | assumption].
      * intros ->. destruct (Hfalse' eq_refl) as [Hall Hsame'].
        split; [| congruence].
        intros d [<- | Hd]; [assumption | now apply Hall].
Qed.

Lemma hasCycle_spec fuel :
  forall nodeId st b st',
    hasCycle fuel workflow nodeId st = Some (b, st') ->
    dfsInv workflow st -> stackLeadsTo workflow nodeId st ->
    hasCyclePost workflow nodeId st b st'.
Proof.
  induction fuel as [|fuel IH]; simpl; intros nodeId st b st' Hrun Hinv Hpre;
    [discriminate |].
  destruct (decide (nodeId ∈ recursionStack st)) as [Hstack | Hstack].
  { inversion Hrun; subst. split; [assumption |].
    assert (Hbad : reachesCycle workflow nodeId).
    { destruct (Hpre _ Hstack) as [? | ?]; [assumption | now left]. }
    split; [| discriminate]. intros _. split; [assumption |].
    intros z Hz. destruct (Hpre _ Hz) as [? | Hpath]; [assumption |].
    now apply reachesCycle_path with nodeId. }
  destruct (decide (nodeId ∈ visited st)) as [Hvis | Hvis].
  { inversion Hrun; subst. split; [assumption |].
    split; [discriminate |]. intros _. split; [| reflexivity].
    destruct (Hinv _ Hvis); tauto. }
  set (st1 := mkDfs ({[nodeId]} ∪ visited st)
                    ({[nodeId]} ∪ recursionStack st)) in *.
  assert (Hinv1 : dfsInv workflow st1).
  { intros x Hx. simpl in *. apply elem_of_union in Hx.
    destruct Hx as [Hx | Hx].
    - left. set_solver.
    - destruct (Hinv _ Hx); [left; set_solver | now right]. }
  destruct (findNode workflow nodeId) as [node|] eqn:Hfind.
  - assert (Hpre1 : forall dep, In dep (dependencies node) ->
                                stackLeadsTo workflow dep st1).
    { intros dep Hdep z Hz. simpl in Hz. apply elem_of_union in Hz.
      assert (Hedge : dependsOn workflow nodeId dep) by (now exists node).
      destruct Hz as [Hz | Hz].
      - apply elem_of_singleton in Hz. subst z. right. now apply path_edge.
      - destruct (Hpre _ Hz) as [? | Hpath]; [now left | right].
        apply path_trans with nodeId; [assumption | now apply path_edge]. }
    destruct (hasCycle_deps (hasCycle fuel workflow) (dependencies node) st1)
      as [[[|] st2]|] eqn:Hloop; try discriminate;
      destruct (hasCycle_deps_spec _ IH _ _ _ _ Hloop Hinv1 Hpre1)
        as (Hinv2 & Htrue & Hfalse); inversion Hrun; subst; clear Hrun.
    + destruct (Htrue eq_refl) as [(dep & Hdep & Hbad) Hall].
      split; [assumption |]. split; [| discriminate]. intros _.
      split; [| assumption].
      apply reachesCycle_edge with dep; [now exists node | assumption].
    + destruct (Hfalse eq_refl) as [Hgood Hsame].
      assert (Hnode : ~ reachesCycle workflow nodeId).
      { intros Hbad. apply reachesCycle_inv in Hbad.
        destruct Hbad as (y & (node' & Hfind' & Hy) & Hbad).
        rewrite Hfind in Hfind'. inversion Hfind'; subst node'.
        now apply (Hgood y). }
      split; [| split; [discriminate |]].
      * intros x Hx. simpl in *. destruct (Hinv2 _ Hx) as [Hx' | ?];
          [| now right].
        destruct (decide (x = nodeId)) as [-> | Hne]; [now right | left].
        set_solver.
      * intros _. split; [assumption |]. simpl. rewrite Hsame. simpl.
        set_solver.
  - inversion Hrun; subst; clear Hrun.
    assert (Hnode : ~ reachesCycle workflow nodeId).
    { intros Hbad. apply reachesCycle_inv in Hbad.
      destruct Hbad as (y & (node' & Hfind' & _) & _). congruence. }
    split; [| split; [discriminate |]].
    + intros x Hx. simpl in *. destruct (Hinv1 _ Hx) as [Hx' | ?];
        [| now right].
      destruct (decide (x = nodeId)) as [-> | Hne]; [now right | left].
      simpl in Hx'. set_solver.
    + intros _. split; [assumption |]. simpl. set_solver.
Qed.

(** *** Termination of the search *)

Lemma universe_node node :
  In node (nodes workflow) -> node_id node ∈ universe workflow.
Proof.
  intros Hin. unfold universe, allIds. apply elem_of_list_to_set.
  apply list_elem_of_In, in_or_app. left. now apply in_map.
Qed.

Lemma universe_dep node dep :
  In node (nodes workflow) -> In dep (dependencies node) ->
  dep ∈ universe workflow.
Proof.
  intros Hin Hdep. unfold universe, allIds. apply elem_of_list_to_set.
  apply list_elem_of_In, in_or_app. right. apply in_flat_map. eauto.
Qed.

Lemma universe_size :
  (size (universe workflow) <= List.length (allIds workflow))%nat.
Proof.
  unfold universe. induction (allIds workflow) as [|x l IH].
  - rewrite list_to_set_nil, size_empty. simpl. lia.
  - rewrite list_to_set_cons. simpl.
    rewrite size_union_alt, size_singleton.
    assert (size (list_to_set l ∖ {[x]} : gset string)
            <= size (list_to_set l : gset string))%nat
      by (apply subseteq_size; set_solver).
    lia.
Qed.

Lemma unvisited_mono st st' :
  visited st ⊆ visited st' ->
  (unvisited workflow st' <= unvisited workflow st)%nat.
Proof. intros Hsub. unfold unvisited. apply subseteq_size. set_solver. Qed.

Lemma unvisited_visit nodeId st :
  nodeId ∈ universe workflow -> nodeId ∉ visited st ->
  (unvisited workflow (mkDfs ({[nodeId]} ∪ visited st)
                    ({[nodeId]} ∪ recursionStack st))
   < unvisited workflow st)%nat.
Proof.
  intros Hu Hv. unfold unvisited. apply subset_size. simpl. set_solver.
Qed.

Lemma hasCycle_deps_total rec bound :
  (forall dep st,
      dep ∈ universe workflow -> (unvisited workflow st <= bound)%nat ->
      exists b st', rec dep st = Some (b, st') /\ visited st ⊆ visited st') ->
  forall deps st,
    (forall dep, In dep deps -> dep ∈ universe workflow) ->
    (unvisited workflow st <= bound)%nat ->
    exists b st',
      hasCycle_deps rec deps st = Some (b, st') /\
      visited st ⊆ visited st'.
Proof.
  intros Hrec. induction deps as [|dep rest IH]; simpl; intros st Hdeps Hst.
  - exists false, st. split; [reflexivity | set_solver].
  - destruct (Hrec dep st (Hdeps dep (or_introl eq_refl)) Hst)
      as (b & st1 & Hrun & Hsub).
    rewrite Hrun. destruct b.
    + exists true, st1. now split.
    + destruct (IH st1) as (b & st2 & Hrun2 & Hsub2).
      * intros d Hd. apply Hdeps. now right.
      * pose proof (unvisited_mono _ _ Hsub). lia.
      * exists b, st2. split; [assumption | set_solver].
Qed.

Lemma hasCycle_total fuel :
  forall nodeId st,
    nodeId ∈ universe workflow -> (unvisited workflow st < fuel)%nat ->
    exists b st',
      hasCycle fuel workflow nodeId st = Some (b, st') /\
      visited st ⊆ visited st'.
Proof.
  induction fuel as [|fuel IH]; intros nodeId st Hu Hfuel; [lia |].
  simpl.
  destruct (decide (nodeId ∈ recursionStack st));
    [exists true, st; split; [reflexivity | set_solver] |].
  destruct (decide (nodeId ∈ visited st)) as [|Hv];
    [exists false, st; split; [reflexivity | set_solver] |].
  pose proof (unvisited_visit _ _ Hu Hv) as Hless.
  destruct (findNode workflow nodeId) as [node|] eqn:Hfind.
  - apply findNode_In in Hfind. destruct Hfind as [Hin _].
    destruct (hasCycle_deps_total (hasCycle fuel workflow) (fuel - 1)%nat)
      with (deps := dependencies node)
           (st := mkDfs ({[nodeId]} ∪ visited st)
                        ({[nodeId]} ∪ recursionStack st))
      as (b & st2 & Hrun & Hsub).
    + intros dep st0 Hdep Hst0. apply IH; [assumption | lia].
    + intros dep Hdep. now apply universe_dep with node.
    + lia.
    + rewrite Hrun. simpl in Hsub. destruct b.
      * exists true, st2. split; [reflexivity | set_solver].
      * eexists false, _. split; [reflexivity | simpl; set_solver].
  - eexists false, _. split; [reflexivity | simpl; set_solver].
Qed.

(** *** The first loop of [validateWorkflow] *)

Lemma cycleLoop_spec fuel :
  (size (universe workflow) < fuel)%nat ->
  forall ns st errs,
    (forall n, In n ns -> In n (nodes workflow)) ->
    dfsInv workflow st ->
    (forall z, z ∈ recursionStack st -> reachesCycle workflow z) ->
    exists report st',
      cycleLoop fuel workflow ns st errs = Some (errs ++ report, st')%list /\
      cycleReport workflow ns report.
Proof.
  intros Hfuel. induction ns as [|node rest IH]; simpl;
    intros st errs Hns Hinv Hstack.
  - exists [], st. rewrite app_nil_r. split; [reflexivity | constructor].
  - assert (Hu : node_id node ∈ universe workflow)
      by (apply universe_node, Hns; now left).
    assert (Hst : (unvisited workflow st < fuel)%nat).
    { eapply Nat.le_lt_trans; [| exact Hfuel].
      unfold unvisited. apply subseteq_size. set_solver. }
    destruct (hasCycle_total fuel _ _ Hu Hst) as (b & st1 & Hrun & _).
    rewrite Hrun.
    assert (Hpre : stackLeadsTo workflow (node_id node) st)
      by (intros z Hz; left; now apply Hstack).
    destruct (hasCycle_spec _ _ _ _ _ Hrun Hinv Hpre)
      as (Hinv1 & Htrue & Hfalse).
    assert (Hrest : forall n, In n rest -> In n (nodes workflow))
      by (intros n Hn; apply Hns; now right).
    destruct b.
    + destruct (Htrue eq_refl) as [Hbad Hstack1].
      destruct (IH st1 (errs ++ [circularError (node_id node)])%list
                   Hrest Hinv1 Hstack1) as (report & st' & Hloop & Hrep).
      exists (circularError (node_id node) :: report), st'.
      split; [| now constructor].
      rewrite Hloop. now rewrite <- app_assoc.
    + destruct (Hfalse eq_refl) as [Hgood Hsame].
      assert (Hstack1 : forall z, z ∈ recursionStack st1 ->
                                  reachesCycle workflow z)
        by (intros z Hz; apply Hstack; now rewrite <- Hsame).
      destruct (IH st1 errs Hrest Hinv1 Hstack1)
        as (report & st' & Hloop & Hrep).
      exists report, st'. split; [assumption | now constructor].
Qed.

Lemma cycleReport_In ns report :
  cycleReport workflow ns report ->
  forall node, In node ns -> reachesCycle workflow (node_id node) ->
               In (circularError (node_id node)) report.
Proof.
  induction 1 as [|n ns es Hbad _ IH | n ns es Hgood _ IH];
    intros node Hin Hnode.
  - destruct Hin.
  - destruct Hin as [<- | Hin]; [now left | right; now apply IH].
  - destruct Hin as [<- | Hin]; [contradiction | now apply IH].
Qed.

Lemma cycleReport_sound ns report :
  cycleReport workflow ns report ->
  forall e, In e report ->
    exists node, In node ns /\ reachesCycle workflow (node_id node) /\
                 e = circularError (node_id node).
Proof.
  induction 1 as [|n ns es Hbad _ IH | n ns es Hgood _ IH]; intros e He.
  - destruct He.
  - destruct He as [<- | He].
    + exists n. split; [now left | now split].
    + destruct (IH e He) as (node & ? & ? & ?). exists node.
      split; [now right | now split].
  - destruct (IH e He) as (node & ? & ? & ?). exists node.
    split; [now right | now split].
Qed.

(** *** The second loop *)

Lemma depExists_false dep :
  depExists workflow dep = false <->
  forall n, In n (nodes workflow) -> node_id n <> dep.
Proof.
  unfold depExists. split.
  - intros Hnone n Hin Heq.
    assert (Hsome : existsb (fun n => String.eqb (node_id n) dep)
                            (nodes workflow) = true).
    { apply existsb_exists. exists n. split; [assumption |].
      now apply String.eqb_eq. }
    congruence.
  - intros Hall.
    destruct (existsb _ (nodes workflow)) eqn:Hex; [| reflexivity].
    apply existsb_exists in Hex. destruct Hex as (n & Hin & Heq).
    apply String.eqb_eq in Heq. exfalso. now apply (Hall n).
Qed.

Lemma danglingLoop_In e :
  In e (danglingLoop workflow) <->
  exists node dep,
    In node (nodes workflow) /\ In dep (dependencies node) /\
    (forall n, In n (nodes workflow) -> node_id n <> dep) /\
    e = danglingError (node_id node) dep.
Proof.
  unfold danglingLoop, danglingErrorsOf. rewrite in_flat_map. split.
  - intros (node & Hin & He). apply in_flat_map in He.
    destruct He as (dep & Hdep & He).
    destruct (depExists workflow dep) eqn:Hex; [destruct He |].
    destruct He as [<- | []]. exists node, dep.
    repeat split; try assumption. now apply depExists_false.
  - intros (node & dep & Hin & Hdep & Hnone & ->).
    exists node. split; [assumption |]. apply in_flat_map.
    exists dep. split; [assumption |].
    apply depExists_false in Hnone. rewrite Hnone. now left.
Qed.
End Graph.

(** C7. For every graph, [validateWorkflow] returns a result, and its list
    of errors is non-empty exactly when the graph contains a dependency
    cycle or a dependency id that names no node. Neither loop stops at the
    first defect: the list holds the cycle error of every node whose id
    lies on or leads to a cycle and the dangling error of every dependency
    that names no node (and nothing else), and [valid] says whether the
    list is empty. *)
Theorem validateWorkflow_reports_all_defects (workflow : WorkflowType) :
  exists r,
    validateWorkflow workflow = Some r /\
    (errors r <> [] <->
     hasDependencyCycle workflow \/ hasDanglingDependency workflow) /\
    (valid r = true <-> errors r = []) /\
    (forall node,
        In node (nodes workflow) ->
        reachesCycle workflow (node_id node) ->
        In (circularError (node_id node)) (errors r)) /\
    (forall node dep,
        In node (nodes workflow) -> In dep (dependencies node) ->
        (forall n, In n (nodes workflow) -> node_id n <> dep) ->
        In (danglingError (node_id node) dep) (errors r)) /\
    (forall e,
        In e (errors r) ->
        (exists node,
            In node (nodes workflow) /\
            reachesCycle workflow (node_id node) /\
            e = circularError (node_id node)) \/
        (exists node dep,
            In node (nodes workflow) /\ In dep (dependencies node) /\
            (forall n, In n (nodes workflow) -> node_id n <> dep) /\
            e = danglingError (node_id node) dep)).
Proof.
  unfold validateWorkflow, validateWorkflow_fuel.
  destruct (cycleLoop_spec workflow (S (List.length (allIds workflow))))
    with (ns := nodes workflow) (st := mkDfs ∅ ∅) (errs := @nil string)
    as (report & st' & Hloop & Hrep).
  - pose proof (universe_size workflow). lia.
  - auto.
  - intros x Hx. simpl in Hx. set_solver.
  - intros z Hz. simpl in Hz. set_solver.
  - rewrite Hloop. simpl. eexists. split; [reflexivity |]. simpl.
    assert (Hcomplete : forall node, In node (nodes workflow) ->
              reachesCycle workflow (node_id node) ->
              In (circularError (node_id node)) report)
      by (apply cycleReport_In; assumption).
    pose proof (cycleReport_sound _ _ _ Hrep) as Hsound.
    split; [| split; [| split; [| split]]].
    + split.
      * intros Hne.
        destruct (report ++ danglingLoop workflow)%list as [|e l] eqn:Herrs;
          [congruence |].
        assert (He : In e (report ++ danglingLoop workflow))
          by (rewrite Herrs; now left).
        apply in_app_or in He. destruct He as [He | He].
        -- left. destruct (Hsound e He) as (node & _ & Hbad & _).
           destruct Hbad as [Hc | (y & _ & Hc)]; [now exists (node_id node) |
                                                  now exists y].
        -- right. apply danglingLoop_In in He.
           destruct He as (node & dep & ? & ? & ? & _). now exists node, dep.
      * intros [(x & Hx) | (node & dep & Hin & Hdep & Hnone)] Hnil;
          apply app_eq_nil in Hnil; destruct Hnil as [Hr Hd].
        -- destruct (onCycle_is_node _ _ Hx) as (node & Hin & <-).
           specialize (Hcomplete node Hin (or_introl Hx)).
           rewrite Hr in Hcomplete. destruct Hcomplete.
        -- assert (He : In (danglingError (node_id node) dep)
                           (danglingLoop workflow)).
           { apply danglingLoop_In. exists node, dep. tauto. }
           rewrite Hd in He. destruct He.
    + destruct (report ++ danglingLoop workflow)%list; simpl;
        split; congruence.
    + intros node Hin Hbad. apply in_or_app. left. now apply Hcomplete.
    + intros node dep Hin Hdep Hnone. apply in_or_app. right.
      apply danglingLoop_In. exists node, dep. tauto.
    + intros e He. apply in_app_or in He. destruct He as [He | He].
      * left. now apply Hsound.
      * right. now apply danglingLoop_In.
Qed.

(** ** The state table *)

Lemma sameRows_refl w : sameRows w w.
Proof. now split. Qed.

Lemma sameRows_trans w1 w2 w3 :
  sameRows w1 w2 -> sameRows w2 w3 -> sameRows w1 w3.
Proof. intros [? ?] [? ?]. split; congruence. Qed.

Lemma sameRows_eq w w' :
  workflowStates w' = workflowStates w -> sameRows w w'.
Proof. intros Heq. unfold sameRows. now rewrite Heq. Qed.

Lemma updateWorkflowState_eq pid u w :
  updateWorkflowState pid u w
  = Ok tt (set_workflowStates (updateRows pid u) w).
Proof. reflexivity. Qed.

Lemma lookupState_updateRows pid u rows :
  lookupState pid (updateRows pid u rows)
  = option_map (applyUpdates u) (lookupState pid rows).
Proof.
  unfold lookupState, updateRows. induction rows as [|s rows IH]; simpl.
  - reflexivity.
  - destruct (String.eqb (projectId s) pid) eqn:Heq; simpl.
    + now rewrite Heq.
    + now rewrite Heq.
Qed.

Lemma updateRows_ids pid u rows :
  map state_id (updateRows pid u rows) = map state_id rows /\
  map projectId (updateRows pid u rows) = map projectId rows.
Proof.
  unfold updateRows. induction rows as [|s rows [IH1 IH2]]; simpl.
  - now split.
  - rewrite IH1, IH2. now destruct (String.eqb (projectId s) pid).
Qed.

Lemma sameRows_update pid u w :
  sameRows w (set_workflowStates (updateRows pid u) w).
Proof. unfold sameRows. simpl. apply updateRows_ids. Qed.

Lemma applyUpdates_idem u s :
  applyUpdates u (applyUpdates u s) = applyUpdates u s.
Proof.
  destruct u as [c d f p st m], s. unfold applyUpdates. simpl.
  destruct c, d, f, p, st, m; reflexivity.
Qed.

Lemma updateRows_idem pid u rows :
  updateRows pid u (updateRows pid u rows) = updateRows pid u rows.
Proof.
  unfold updateRows. rewrite map_map. apply map_ext. intros s.
  destruct (String.eqb (projectId s) pid) eqn:Heq.
  - replace (projectId (applyUpdates u s)) with (projectId s) by reflexivity.
    rewrite Heq. apply applyUpdates_idem.
  - now rewrite Heq.
Qed.

Lemma lookupState_projectId pid rows s :
  lookupState pid rows = Some s -> projectId s = pid.
Proof.
  unfold lookupState. intros Hfind. apply find_some in Hfind.
  now apply String.eqb_eq.
Qed.

Lemma stateIn_update pid u w :
  stateIn pid (set_workflowStates (updateRows pid u) w)
  = option_map (applyUpdates u) (stateIn pid w).
Proof. unfold stateIn. simpl. apply lookupState_updateRows. Qed.

Lemma lookupState_app pid rows rows' :
  lookupState pid (rows ++ rows')
  = match lookupState pid rows with
    | Some s => Some s
    | None => lookupState pid rows'
    end.
Proof.
  unfold lookupState. induction rows as [|s rows IH]; simpl.
  - reflexivity.
  - now destruct (String.eqb (projectId s) pid).
Qed.

Lemma lookupState_deleted pid rows :
  lookupState pid
    (List.filter (fun s => negb (String.eqb (projectId s) pid)) rows)
  = None.
Proof.
  unfold lookupState. induction rows as [|s rows IH]; simpl.
  - reflexivity.
  - destruct (String.eqb (projectId s) pid) eqn:Heq; simpl.
    + assumption.
    + now rewrite Heq.
Qed.

(** ** The operations of the state manager *)

Section StateManager.
Context `{Collaborators}.
Variable pid : string.

(** Every operation ends, and except for the creation of the first row
    the state it leaves is [stateOpEffect] of the state it found. *)
Lemma runOp_effect op w :
  exists w',
    finalWorld (runOp pid op w) = Some w' /\
    (op = OpCreateWorkflowState /\ stateIn pid w = None /\
     (exists id, stateIn pid w'
                 = Some (mkState id pid None [] [] [] running "{}"))
     \/ stateIn pid w' = stateOpEffect op (stateIn pid w)).
Proof.
  destruct op; unfold runOp, createWorkflowState, setCurrentNode,
    markNodeComplete, markNodeFailed, addPendingDecision,
    removePendingDecision, completeWorkflow, cancelWorkflow,
    deleteWorkflowState, getWorkflowState, bind, ret, throw, modify, nanoid;
    rewrite ?updateWorkflowState_eq; fold (stateIn pid w).
  - eexists. split; [reflexivity |]. unfold stateIn. simpl.
    rewrite lookupState_app. fold (stateIn pid w).
    destruct (stateIn pid w) eqn:Hs.
    + now right.
    + left. split; [reflexivity |]. split; [reflexivity |].
      eexists. unfold lookupState. simpl. now rewrite String.eqb_refl.
  - eexists. split; [reflexivity |]. right. rewrite stateIn_update.
    now destruct (stateIn pid w).
  - destruct (stateIn pid w) eqn:Hs; rewrite ?updateWorkflowState_eq.
    + eexists. split; [reflexivity |]. right.
      now rewrite stateIn_update, Hs.
    + eexists. split; [reflexivity |]. right. now rewrite Hs.
  - destruct (stateIn pid w) eqn:Hs; rewrite ?updateWorkflowState_eq.
    + eexists. split; [reflexivity |]. right.
      now rewrite stateIn_update, Hs.
    + eexists. split; [reflexivity |]. right. now rewrite Hs.
  - destruct (stateIn pid w) eqn:Hs; rewrite ?updateWorkflowState_eq.
    + eexists. split; [reflexivity |]. right.
      now rewrite stateIn_update, Hs.
    + eexists. split; [reflexivity |]. right. now rewrite Hs.
  - destruct (stateIn pid w) eqn:Hs; rewrite ?updateWorkflowState_eq.
    + eexists. split; [reflexivity |]. right.
      rewrite stateIn_update, Hs. simpl.
      now destruct (List.filter _ (pendingDecisions w0)).
    + eexists. split; [reflexivity |]. right. now rewrite Hs.
  - eexists. split; [reflexivity |]. right. rewrite stateIn_update.
    now destruct (stateIn pid w).
  - eexists. split; [reflexivity |]. right. rewrite stateIn_update.
    now destruct (stateIn pid w).
  - eexists. split; [reflexivity |]. right. unfold stateIn. simpl.
    apply lookupState_deleted.
Qed.
End StateManager.

(** C4, as stated, fails: a stop request on a paused run sets the status
    to [failed] and leaves the pending decision in place. Before the call
    the run of project ["p"] is paused on ["d1"]; after it the status is
    [failed] while [pendingDecisions] is still [["d1"]]. *)
Lemma paused_iff_pending_broken_by_stop :
  exists s s',
    stateIn "p" pausedWorld = Some s /\
    pausedIffPending s /\
    stateAfter "p" (runOp (H := demo) "p" OpCancelWorkflow pausedWorld)
    = Some s' /\
    status s' = failed /\ pendingDecisions s' = ["d1"] /\
    ~ pausedIffPending s'.
Proof.
  eexists. eexists. split; [vm_compute; reflexivity |].
  split; [split; [intros _; discriminate | reflexivity] |].
  split; [vm_compute; reflexivity |].
  split; [reflexivity |]. split; [reflexivity |].
  intros [_ Hback]. simpl in Hback.
  assert (Hp : failed = paused) by (apply Hback; discriminate).
  discriminate.
Qed.

(** C4 (amended). Every operation of the state manager ends, and if
    [status = paused] implied a non-empty [pendingDecisions] before it, it
    does so after it. [addPendingDecision] and [removePendingDecision]
    establish the equivalence; [createWorkflowState], [setCurrentNode] and
    [markNodeComplete] keep it; [markNodeFailed], [completeWorkflow] and
    [cancelWorkflow] set a status other than [paused] and leave
    [pendingDecisions] as they found it. *)
Theorem paused_invariant_amended `{Collaborators}
    (pid : string) (op : StateOp) (w : World) :
  (forall s, stateIn pid w = Some s -> pausedImpliesPending s) ->
  exists w',
    finalWorld (runOp pid op w) = Some w' /\
    forall s',
      stateIn pid w' = Some s' ->
      pausedImpliesPending s' /\
      match op with
      | OpAddPendingDecision _ | OpRemovePendingDecision _ =>
          pausedIffPending s'
      | OpMarkNodeFailed _ | OpCompleteWorkflow | OpCancelWorkflow =>
          status s' <> paused /\
          forall s, stateIn pid w = Some s ->
                    pendingDecisions s' = pendingDecisions s
      | OpCreateWorkflowState | OpSetCurrentNode _ | OpMarkNodeComplete _
      | OpDeleteWorkflowState =>
          (forall s, stateIn pid w = Some s -> pausedIffPending s) ->
          pausedIffPending s'
      end.
Proof.
  intros Hinv. destruct (runOp_effect pid op w) as (w' & Hfinal & Heffect).
  exists w'. split; [assumption |]. intros s' Hs'.
  destruct Heffect as [(-> & Hnone & id & Hnew) | Heffect].
  - rewrite Hnew in Hs'. inversion Hs'; subst s'.
    split; [intros Hp; discriminate |].
    intros _. split; [intros Hp; discriminate | intros Hne; now elim Hne].
  - rewrite Hs' in Heffect.
    destruct (stateIn pid w) as [s|] eqn:Hs;
      [| destruct op; discriminate].
    specialize (Hinv s eq_refl).
    destruct op; simpl in Heffect; inversion Heffect; subst s'; clear Heffect;
      unfold pausedImpliesPending, pausedIffPending in *; simpl.
    + split; [assumption |]. intros Hiff. now apply Hiff.
    + split; [assumption |]. intros Hiff. now apply Hiff.
    + split; [assumption |]. intros Hiff. now apply Hiff.
    + split; [discriminate |]. split; [discriminate |].
      intros s0 Hs0. now inversion Hs0.
    + assert (Hne : (pendingDecisions s ++ [decisionId])%list <> [])
        by (now destruct (pendingDecisions s)).
      split; [now intros _ |]. split; [now intros _ | reflexivity].
    + destruct (List.filter _ (pendingDecisions s)); simpl.
      * split; [discriminate |].
        split; [discriminate | intros Hne; now elim Hne].
      * split; [now intros _ |]. split; [now intros _ | reflexivity].
    + split; [discriminate |]. split; [discriminate |].
      intros s0 Hs0. now inversion Hs0.
    + split; [discriminate |]. split; [discriminate |].
      intros s0 Hs0. now inversion Hs0.
Qed.

(** The amended C4 at a concrete input: the stop request on the paused run
    of project ["p"]. *)
Lemma paused_invariant_amended_witness :
  exists w',
    finalWorld (runOp (H := demo) "p" OpCancelWorkflow pausedWorld) = Some w' /\
    forall s',
      stateIn "p" w' = Some s' ->
      pausedImpliesPending s' /\
      (status s' <> paused /\
       forall s, stateIn "p" pausedWorld = Some s ->
                 pendingDecisions s' = pendingDecisions s).
Proof.
  apply (paused_invariant_amended (H := demo) "p" OpCancelWorkflow
                                  pausedWorld).
  intros s Hs. vm_compute in Hs. inversion Hs; subst s.
  intros _. discriminate.
Defined.

Lemma startWorkflow_eq `{Collaborators} workflow pid input sessionId w :
  startWorkflow workflow pid input sessionId w
  = match stateIn pid w with
    | Some existingState =>
        match status existingState with
        | running | paused => executeNextNodes workflow pid input sessionId w
        | completed | failed =>
            startFresh workflow pid input sessionId
              (set_workflowStates
                 (List.filter
                    (fun s => negb (String.eqb (projectId s) pid))) w)
        end
    | None => startFresh workflow pid input sessionId w
    end.
Proof.
  unfold startWorkflow, bind, getWorkflowState. fold (stateIn pid w).
  destruct (stateIn pid w) as [s|]; [| reflexivity].
  destruct (status s); reflexivity.
Qed.

(** C5, as stated, fails: a stop request on a completed run changes its
    status. After the approval of ["d1"] the run of project ["p"] is
    [completed]; after [cancelWorkflow] it is [failed]. *)
Lemma stop_changes_completed_status :
  exists s s',
    stateIn "p" approvedWorld = Some s /\ status s = completed /\
    stateAfter "p" (cancelWorkflow "p" approvedWorld) = Some s' /\
    status s' = failed.
Proof.
  eexists. eexists. split; [vm_compute; reflexivity |].
  split; [reflexivity |]. split; [vm_compute; reflexivity | reflexivity].
Qed.

(** C5 (amended). On a run whose status is [completed] or [failed]: the
    run loop returns the terminal snapshot and changes nothing, and so
    does [getState]; [startWorkflow] is the deletion of the record
    followed by a start on a project without one; a stop request leaves
    the status [failed] (so it keeps [failed], and turns [completed] into
    [failed]) and a second stop request changes nothing more. *)
Theorem terminal_status_amended `{Collaborators}
    (workflow : WorkflowType) (pid input : string)
    (sessionId : option string) (w : World) (s : WorkflowState) :
  stateIn pid w = Some s ->
  terminal s ->
  executeNextNodes workflow pid input sessionId w
  = Ok (Terminal (status s) (completedNodes s) (failedNodes s)) w /\
  getState pid w = Ok (Some s) w /\
  (exists w1,
      deleteWorkflowState pid w = Ok tt w1 /\ stateIn pid w1 = None /\
      startWorkflow workflow pid input sessionId w
      = startWorkflow workflow pid input sessionId w1) /\
  (exists w' s',
      cancelWorkflow pid w = Ok tt w' /\ stateIn pid w' = Some s' /\
      status s' = failed /\
      (status s = failed -> status s' = status s) /\
      completedNodes s' = completedNodes s /\
      failedNodes s' = failedNodes s /\
      cancelWorkflow pid w' = Ok tt w').
Proof.
  intros Hs Hterm. split; [| split; [| split]].
  - unfold executeNextNodes. simpl. unfold bind, getWorkflowState.
    fold (stateIn pid w). rewrite Hs.
    destruct Hterm as [Hst | Hst]; rewrite Hst; reflexivity.
  - unfold getState, getWorkflowState. fold (stateIn pid w). now rewrite Hs.
  - eexists. split; [reflexivity |]. split.
    + unfold stateIn. simpl. apply lookupState_deleted.
    + rewrite !startWorkflow_eq. rewrite Hs.
      replace (stateIn pid (set_workflowStates _ w)) with (@None WorkflowState)
        by (unfold stateIn; simpl; now rewrite lookupState_deleted).
      destruct Hterm as [Hst | Hst]; rewrite Hst; reflexivity.
  - unfold cancelWorkflow. rewrite updateWorkflowState_eq.
    eexists. eexists. split; [reflexivity |].
    split; [rewrite stateIn_update, Hs; reflexivity |]. simpl.
    split; [reflexivity |]. split; [congruence |].
    split; [reflexivity |]. split; [reflexivity |].
    rewrite updateWorkflowState_eq. f_equal.
    unfold set_workflowStates. simpl. f_equal. apply updateRows_idem.
Qed.

(** The amended C5 at a concrete input: the completed run of project
    ["p"]. *)
Lemma terminal_status_amended_witness :
  executeNextNodes (H := demo) approvalFlow "p" "{}" None approvedWorld
  = Ok (Terminal completed ["A"; "B"] []) approvedWorld /\
  exists w' s',
    cancelWorkflow "p" approvedWorld = Ok tt w' /\
    stateIn "p" w' = Some s' /\ status s' = failed.
Proof.
  destruct (terminal_status_amended (H := demo) approvalFlow "p" "{}" None
              approvedWorld
              (mkState "id0" "p" None ["A"; "B"] [] [] completed "{}"))
    as (Hloop & _ & _ & w' & s' & Hcancel & Hs' & Hfailed & _).
  - vm_compute. reflexivity.
  - left. reflexivity.
  - split; [exact Hloop |]. exists w', s'. now repeat split.
Defined.

(** ** The node executor *)

Lemma markNodeComplete_eq pid nodeId w :
  markNodeComplete pid nodeId w
  = match stateIn pid w with
    | Some s =>
        Ok tt (set_workflowStates
                 (updateRows pid
                    (mkUpdates (Some None)
                               (Some (completedNodes s ++ [nodeId])%list)
                               None None None None)) w)
    | None => Throw (stateNotFound pid) w
    end.
Proof.
  unfold markNodeComplete, bind, getWorkflowState. fold (stateIn pid w).
  now destruct (stateIn pid w).
Qed.

Lemma markNodeFailed_eq pid nodeId w :
  markNodeFailed pid nodeId w
  = match stateIn pid w with
    | Some s =>
        Ok tt (set_workflowStates
                 (updateRows pid
                    (mkUpdates (Some None) None
                               (Some (failedNodes s ++ [nodeId])%list)
                               None (Some failed) None)) w)
    | None => Throw (stateNotFound pid) w
    end.
Proof.
  unfold markNodeFailed, bind, getWorkflowState. fold (stateIn pid w).
  now destruct (stateIn pid w).
Qed.

Lemma addPendingDecision_eq pid decisionId w :
  addPendingDecision pid decisionId w
  = match stateIn pid w with
    | Some s =>
        Ok tt (set_workflowStates
                 (updateRows pid
                    (mkUpdates None None None
                               (Some (pendingDecisions s ++ [decisionId])%list)
                               (Some paused) None)) w)
    | None => Throw (stateNotFound pid) w
    end.
Proof.
  unfold addPendingDecision, bind, getWorkflowState. fold (stateIn pid w).
  now destruct (stateIn pid w).
Qed.

Section NodeExecutor.
Context `{Collaborators}.
Variables (node : WorkflowNodeType) (pid input : string)
          (sessionId : option string).

Lemma attemptNode_spec w :
  match attemptNode node pid input sessionId w with
  | Ok r w' => attemptReturned node pid input sessionId w r w'
  | Throw _ w' => attemptThrew node pid input sessionId w w'
  | OutOfFuel => False
  end.
Proof.
  unfold attemptNode, runAgent, bind at 1, attemptThrew, attemptReturned,
    attemptWrite, failedReply, oneCall.
  destruct (reply_result (agent_run (agentId node) input pid sessionId w))
    as [output | msg] eqn:Hreply.
  2: { simpl. now repeat split. }
  destruct (success output) eqn:Hsucc; simpl.
  2: { now repeat split. }
  unfold completeNode, runAdvisory, orchestratorEvent, logEvent, nanoid,
    bind, modify, ret.
  destruct (runQA node), (runCodeReview node), (requiresApproval node);
    try destruct (decisionIdOf output) as [d|] eqn:Hd;
    cbv beta iota;
    rewrite ?addPendingDecision_eq, ?markNodeComplete_eq;
    unfold stateIn; simpl (workflowStates _);
    fold (stateIn pid w);
    destruct (stateIn pid w) as [s|] eqn:Hs; cbv beta iota;
    try (split; [now split | split; [reflexivity | congruence]]).
  all: split; [now split |]; split;
    [unfold sameRows; simpl (workflowStates _); apply updateRows_ids |];
    exists output, s; rewrite ?Hd; repeat split; try reflexivity;
    try assumption;
    unfold stateIn; simpl (workflowStates _);
    rewrite lookupState_updateRows; fold (stateIn pid w); now rewrite Hs.
Qed.

Lemma retriesFrom_S from n :
  retriesFrom from (S n) = (from + 1) :: retriesFrom (from + 1) n.
Proof.
  unfold retriesFrom. simpl. f_equal; [lia |].
  rewrite <- seq_shift, map_map. apply map_ext. intros i. lia.
Qed.

Lemma retryLoop_spec fuel :
  forall retries lastError w,
    (Z.to_nat (effectiveMaxRetries node + 1 - retries) <= fuel)%nat ->
    match retryLoop fuel node pid input sessionId retries lastError w with
    | Ok (inl r) w' => loopReturned node pid input sessionId retries w r w'
    | Ok (inr (retries', _)) w' =>
        loopExhausted node pid input sessionId retries w retries' w'
    | Throw _ _ => False
    | OutOfFuel => False
    end.
Proof.
  induction fuel as [|fuel IH]; intros retries lastError w Hfuel.
  - simpl. destruct (retries <=? effectiveMaxRetries node) eqn:Hle.
    + apply Z.leb_le in Hle. lia.
    + apply Z.leb_gt in Hle. unfold ret, loopExhausted.
      replace (Z.to_nat (effectiveMaxRetries node + 1 - retries))
        with 0%nat by lia.
      simpl. rewrite !app_nil_r. repeat split; lia.
  - simpl. destruct (retries <=? effectiveMaxRetries node) eqn:Hle.
    2: { apply Z.leb_gt in Hle. unfold ret, loopExhausted.
         replace (Z.to_nat (effectiveMaxRetries node + 1 - retries))
           with 0%nat by lia.
         simpl. rewrite !app_nil_r. repeat split; lia. }
    apply Z.leb_le in Hle. unfold tryCatch, bind at 1.
    pose proof (attemptNode_spec w) as Hattempt.
    destruct (attemptNode node pid input sessionId w)
      as [r w1 | msg w1 |]; [| | contradiction].
    + unfold ret. exists 0%nat, w.
      pose proof Hattempt as ((Hcalls & Hsleeps) & _).
      split; [lia |]. split; [assumption |].
      split; [simpl; now rewrite app_nil_r |].
      split; [reflexivity |]. split; [assumption | lia].
    + destruct Hattempt as ((Hcalls & Hsleeps) & Hstates & Hwhy).
      assert (Hfailed : stateIn pid w <> None ->
                exists w1, failedReply (agent_run (agentId node) input pid
                                                  sessionId w1))
        by (intros Hne; exists w; now apply Hwhy).
      set (w2 := if retries + 1 <=? effectiveMaxRetries node
                 then set_sleeps
                        (fun ds => ds ++ [retryDelay node (retries + 1)])%list
                        w1
                 else w1).
      assert (Hstep :
        bind (if retries + 1 <=? effectiveMaxRetries node
              then sleep (retryDelay node (retries + 1)) else ret tt)
             (fun _ => retryLoop fuel node pid input sessionId
                                 (retries + 1) (Some msg)) w1
        = retryLoop fuel node pid input sessionId (retries + 1)
                    (Some msg) w2).
      { unfold w2, bind, sleep, modify, ret.
        now destruct (retries + 1 <=? effectiveMaxRetries node). }
      rewrite Hstep. clear Hstep.
      assert (Hfuel' : (Z.to_nat (effectiveMaxRetries node + 1
                                  - (retries + 1)) <= fuel)%nat) by lia.
      specialize (IH (retries + 1) (Some msg) w2 Hfuel').
      assert (Hw2 : workflowStates w2 = workflowStates w
                    /\ agentCalls w2
                       = (agentCalls w ++ [agentId node])%list).
      { unfold w2. destruct (retries + 1 <=? effectiveMaxRetries node);
          simpl; now split. }
      destruct Hw2 as [Hw2s Hw2c].
      destruct (retryLoop fuel node pid input sessionId (retries + 1)
                          (Some msg) w2)
        as [[r | [retries' last']] w' | |]; try contradiction.
      * destruct IH as (j & w0 & Hj & Hc & Hsl & Hst & Hret & _).
        assert (Hcond : (retries + 1 <=? effectiveMaxRetries node) = true)
          by (apply Z.leb_le; lia).
        exists (S j), w0. split; [lia |].
        split; [rewrite Hc, Hw2c, <- app_assoc; reflexivity |].
        split; [| split; [congruence | split; [assumption |]]].
        2: { intros _. exact Hfailed. }
        rewrite Hsl, retriesFrom_S. unfold w2. rewrite Hcond. simpl.
        rewrite Hsleeps, <- app_assoc. reflexivity.
      * destruct IH as (Hr & Hst & Hc & Hsl & _).
        unfold loopExhausted.
        replace (Z.to_nat (effectiveMaxRetries node + 1 - retries))
          with (S (Z.to_nat (effectiveMaxRetries node + 1
                             - (retries + 1)))) by lia.
        split; [lia |]. split; [congruence |].
        split; [rewrite Hc, Hw2c, <- app_assoc; reflexivity |].
        split; [| intros _; exact Hfailed].
        rewrite Hsl. unfold w2.
        destruct (retries + 1 <=? effectiveMaxRetries node) eqn:Hcond.
        -- apply Z.leb_le in Hcond.
           replace (S (Z.to_nat (effectiveMaxRetries node + 1
                                 - (retries + 1))) - 1)%nat
             with (S (Z.to_nat (effectiveMaxRetries node + 1
                                - (retries + 1)) - 1))%nat by lia.
           rewrite retriesFrom_S. simpl.
           rewrite Hsleeps, <- app_assoc. reflexivity.
        -- apply Z.leb_gt in Hcond.
           replace (Z.to_nat (effectiveMaxRetries node + 1
                              - (retries + 1))) with 0%nat by lia.
           simpl. now rewrite Hsleeps.
Qed.

Lemma executeNode_spec w :
  match executeNode node pid input sessionId w with
  | Ok r w' =>
      sameRows w w' /\
      exists s, stateIn pid w = Some s /\
                (nodeReturned node pid input sessionId s w r w' \/
                 nodeExhausted node pid input sessionId s w r w')
  | Throw _ w' =>
      stateIn pid w = None /\ sameRows w w' /\ exhaustedTrace node w w'
  | OutOfFuel => False
  end.
Proof.
  unfold executeNode, setCurrentNode.
  unfold bind at 1. rewrite updateWorkflowState_eq.
  unfold bind at 1. unfold orchestratorEvent at 1, logEvent, nanoid,
    bind at 1, modify.
  set (w1 := set_workflowStates _ w).
  set (w2 := set_logEvents _ _).
  assert (Hw2 : workflowStates w2 = workflowStates w1) by reflexivity.
  assert (Hw2c : agentCalls w2 = agentCalls w /\ sleeps w2 = sleeps w)
    by (now split).
  assert (Hs2 : stateIn pid w2 = option_map (started node) (stateIn pid w)).
  { unfold stateIn. rewrite Hw2. unfold w1. simpl (workflowStates _).
    apply lookupState_updateRows. }
  assert (Hrows2 : sameRows w w2).
  { apply sameRows_trans with w1; [apply sameRows_update |].
    now apply sameRows_eq. }
  unfold bind at 1.
  pose proof (retryLoop_spec (Z.to_nat (effectiveMaxRetries node + 1))
                             0 None w2) as Hloop.
  rewrite Z.sub_0_r in Hloop. specialize (Hloop (Nat.le_refl _)).
  destruct (retryLoop _ node pid input sessionId 0 None w2)
    as [[r | [retries last]] w3 | |]; try contradiction.
  - unfold ret.
    destruct Hloop as (j & w0 & Hj & Hc & Hsl & Hst & Hret & Hwhy).
    destruct Hret as (_ & Hrows & output & s0 & Hreply & Hsucc & Hs0 & Hr
                      & Hs3).
    assert (Hs0' : stateIn pid w0 = option_map (started node) (stateIn pid w))
      by (unfold stateIn; rewrite Hst; exact Hs2).
    rewrite Hs0 in Hs0'.
    destruct (stateIn pid w) as [s|] eqn:Hs; [| discriminate].
    simpl in Hs0'. inversion Hs0'; subst s0.
    split.
    + apply sameRows_trans with w2; [assumption |].
      apply sameRows_trans with w0; [apply sameRows_eq; congruence |].
      assumption.
    + exists s. split; [reflexivity |]. left. exists j, output.
      destruct Hw2c as [Hc2 Hsl2].
      split; [lia |]. split; [split; congruence |].
      split; [assumption |]. split; [now exists w0 |].
      split; [assumption |]. split; [assumption |].
      intros Hpos. apply Hwhy; [assumption |]. rewrite Hs2. discriminate.
  - destruct Hloop as (_ & Hst & Hc & Hsl & Hwhy).
    rewrite Z.sub_0_r in Hc, Hsl.
    unfold bind at 1. rewrite markNodeFailed_eq.
    assert (Hs3 : stateIn pid w3 = option_map (started node) (stateIn pid w))
      by (unfold stateIn; rewrite Hst; exact Hs2).
    rewrite Hs3. destruct Hw2c as [Hc2 Hsl2].
    destruct (stateIn pid w) as [s|] eqn:Hs; simpl.
    + unfold orchestratorEvent, logEvent, nanoid, bind, modify, ret.
      split.
      * apply sameRows_trans with w3;
          [apply sameRows_trans with w2;
           [assumption | apply sameRows_eq; congruence] |].
        unfold sameRows. simpl (workflowStates _). apply updateRows_ids.
      * exists s. split; [reflexivity |]. right.
        split; [split; simpl; congruence |].
        split; [reflexivity |]. split; [reflexivity |].
        split; [reflexivity |]. split.
        -- unfold stateIn. simpl (workflowStates _).
           rewrite lookupState_updateRows. fold (stateIn pid w3).
           now rewrite Hs3.
        -- intros Hmax. apply Hwhy; [lia |]. rewrite Hs2. discriminate.
    + split; [reflexivity |]. split.
      * apply sameRows_trans with w2;
          [assumption | apply sameRows_eq; congruence].
      * split; congruence.
Qed.
End NodeExecutor.

(** ** Retry policy *)







Section RetryPolicy.
Context `{Collaborators}.
Variables (node : WorkflowNodeType) (pid input : string)
          (sessionId : option string).


(** When the state exists and the delegate always fails, the loop runs
    out of retries and the node is marked failed. *)
Lemma executeNode_alwaysFails w s :
  stateIn pid w = Some s ->
  alwaysFails node pid input sessionId ->
  exists r w',
    executeNode node pid input sessionId w = Ok r w' /\
    sameRows w w' /\ nodeExhausted node pid input sessionId s w r w'.
Proof.
  intros Hs Hfails.
  pose proof (executeNode_spec node pid input sessionId w) as Hspec.
  destruct (executeNode node pid input sessionId w) as [r w' | msg w' |];
    [| | contradiction].
  - destruct Hspec as (Hrows & s0 & Hs0 & [Hret | Hex]).
    + destruct Hret as (j & output & _ & _ & Hsucc & (w0 & Hreply) & _).
      specialize (Hfails w0). unfold failedReply in Hfails.
      rewrite Hreply in Hfails. congruence.
    + rewrite Hs in Hs0. inversion Hs0; subst s0.
      exists r, w'. split; [reflexivity | split; assumption].
  - destruct Hspec as (Hnone & _). congruence.
Qed.
End RetryPolicy.










(** ** The run loop *)

Lemma extends_refl s : extends s s.
Proof. now repeat split. Qed.

Lemma extends_trans s1 s2 s3 : extends s1 s2 -> extends s2 s3 -> extends s1 s3.
Proof.
  intros (Hid & Hc & Hf) (Hid' & Hc' & Hf'). split; [congruence |].
  split; etransitivity; eassumption.
Qed.

Lemma prefix_In {A} (l k : list A) x : l `prefix_of` k -> In x l -> In x k.
Proof. intros [tail ->] Hin. apply in_or_app. now left. Qed.

Lemma settled_extends s s' nodeId :
  extends s s' -> settled s nodeId = true -> settled s' nodeId = true.
Proof.
  unfold settled. intros (_ & Hc & Hf) Hs. apply orb_true_iff in Hs.
  apply orb_true_iff. rewrite !includes_In in *.
  destruct Hs; [left | right]; eapply prefix_In; eassumption.
Qed.

Lemma filter_length_mono {A} (p q : A -> bool) (l : list A) :
  (forall x, q x = true -> p x = true) ->
  (List.length (List.filter q l) <= List.length (List.filter p l))%nat.
Proof.
  intros Hqp. induction l as [|b l IH]; simpl; [lia |].
  destruct (q b) eqn:Hqb.
  - rewrite (Hqp b Hqb). simpl. lia.
  - destruct (p b); simpl; lia.
Qed.

Lemma filter_length_lt {A} (p q : A -> bool) (l : list A) :
  (forall x, q x = true -> p x = true) ->
  (exists x, In x l /\ p x = true /\ q x = false) ->
  (List.length (List.filter q l) < List.length (List.filter p l))%nat.
Proof.
  intros Hqp. induction l as [|a l IH]; intros (x & Hin & Hp & Hq).
  - destruct Hin.
  - pose proof (filter_length_mono p q l Hqp) as Hle.
    simpl. destruct Hin as [-> | Hin].
    + rewrite Hp, Hq. simpl. lia.
    + assert (IH' : (List.length (List.filter q l)
                     < List.length (List.filter p l))%nat)
        by (apply IH; eauto).
      destruct (q a) eqn:Hqa.
      * rewrite (Hqp a Hqa). simpl. lia.
      * destruct (p a); simpl; lia.
Qed.

Lemma unsettled_decreases workflow s s' node :
  extends s s' ->
  In node (nodes workflow) ->
  settled s (node_id node) = false ->
  settled s' (node_id node) = true ->
  (unsettled workflow s' < unsettled workflow s)%nat.
Proof.
  intros Hext Hin Hbefore Hafter. unfold unsettled.
  apply filter_length_lt.
  - intros n Hn. apply negb_true_iff in Hn. apply negb_true_iff.
    destruct (settled s (node_id n)) eqn:Hs; [| reflexivity].
    rewrite (settled_extends _ _ _ Hext Hs) in Hn. discriminate.
  - exists node. split; [assumption |].
    now rewrite Hbefore, Hafter.
Qed.

Lemma getNextNodes_unsettled workflow s node :
  In node (getNextNodes workflow (completedNodes s) (failedNodes s)) ->
  In node (nodes workflow) /\ settled s (node_id node) = false.
Proof.
  intros Hin. apply getNextNodes_spec in Hin.
  destruct Hin as (Hnode & Hc & Hf & _). split; [assumption |].
  unfold settled. apply orb_false_iff. now rewrite !includes_false.
Qed.

Section RunLoop.
Context `{Collaborators}.
Variables (workflow : WorkflowType) (pid input : string)
          (sessionId : option string).

Lemma executeNode_step node w s :
  stateIn pid w = Some s ->
  runStep pid w s (executeNode node pid input sessionId w)
    (fun r s' =>
       result_requiresApproval r = false ->
       settled s' (node_id node) = true).
Proof.
  intros Hs.
  pose proof (executeNode_spec node pid input sessionId w) as Hspec.
  destruct (executeNode node pid input sessionId w) as [r w' | msg w' |];
    [| | contradiction].
  2: { destruct Hspec as (Hnone & _). congruence. }
  destruct Hspec as (Hrows & s0 & Hs0 & Hcases).
  rewrite Hs in Hs0. inversion Hs0; subst s0. clear Hs0.
  destruct Hcases as [Hret | Hex].
  - destruct Hret as (j & output & _ & _ & _ & _ & Hr & Hs' & _).
    unfold attemptWrite in Hr, Hs'.
    destruct (if requiresApproval node then decisionIdOf output else None)
      as [d|]; simpl in Hr, Hs'; subst r.
    + eexists. eexists. eexists. split; [reflexivity |].
      split; [assumption |]. split; [exact Hs' |].
      split; [now repeat split | discriminate].
    + eexists. eexists. eexists. split; [reflexivity |].
      split; [assumption |]. split; [exact Hs' |]. split.
      * split; [reflexivity |]. split; simpl;
          [now apply prefix_app_r | reflexivity].
      * intros _. unfold settled. simpl. rewrite includes_app.
        apply orb_true_iff. left. apply orb_true_iff. right.
        apply includes_In. now left.
  - destruct Hex as (_ & _ & _ & _ & Hs' & _).
    eexists. eexists. eexists. split; [reflexivity |].
    split; [assumption |]. split; [exact Hs' |]. split.
    + split; [reflexivity |]. split; simpl;
        [reflexivity | now apply prefix_app_r].
    + intros _. unfold settled. simpl. rewrite includes_app.
      apply orb_true_iff. right. apply orb_true_iff. right.
      apply includes_In. now left.
Qed.

Lemma executeBatch_step nextNodes :
  forall w s results,
    stateIn pid w = Some s ->
    runStep pid w s (executeBatch nextNodes pid input sessionId results w)
      (fun results' s' =>
         existsb result_requiresApproval results = false ->
         existsb result_requiresApproval results' = false ->
         forall node, In node nextNodes ->
                      settled s' (node_id node) = true).
Proof.
  induction nextNodes as [|node rest IH]; intros w s results Hs.
  - simpl. exists results, w, s. split; [reflexivity |].
    split; [apply sameRows_refl |]. split; [assumption |].
    split; [apply extends_refl |]. intros _ _ node [].
  - simpl. unfold bind.
    destruct (executeNode_step node w s Hs)
      as (r & w1 & s1 & Hrun & Hrows1 & Hs1 & Hext1 & Hsettled).
    rewrite Hrun.
    destruct (result_requiresApproval r) eqn:Hreq.
    + exists (results ++ [r])%list, w1, s1. split; [reflexivity |].
      split; [assumption |]. split; [assumption |].
      split; [assumption |]. intros _ Hnone.
      rewrite existsb_app in Hnone. simpl in Hnone.
      rewrite Hreq in Hnone. rewrite orb_true_r in Hnone. discriminate.
    + destruct (IH w1 s1 (results ++ [r])%list Hs1)
        as (results' & w' & s' & Hrun' & Hrows' & Hs' & Hext' & Hall).
      exists results', w', s'. split; [assumption |].
      split; [now apply sameRows_trans with w1 |].
      split; [assumption |].
      split; [now apply extends_trans with s1 |].
      intros Hbefore Hafter n [<- | Hin].
      * apply settled_extends with s1; [assumption | now apply Hsettled].
      * apply Hall; try assumption.
        rewrite existsb_app. simpl. now rewrite Hbefore, Hreq.
Qed.

(** The loop ends within one call more than there are unsettled nodes. *)
Lemma executeNextNodes_fuel_step fuel :
  forall w s,
    stateIn pid w = Some s ->
    (unsettled workflow s < fuel)%nat ->
    runStep pid w s (executeNextNodes_fuel fuel workflow pid input sessionId w)
      (fun r s' => resultStatus r = paused \/ resultStatus r = status s').
Proof.
  induction fuel as [|fuel IH]; intros w s Hs Hfuel; [lia |].
  simpl. unfold bind at 1, getWorkflowState. fold (stateIn pid w).
  rewrite Hs.
  assert (Hhere : forall r,
    (resultStatus r = paused \/ resultStatus r = status s) ->
    runStep pid w s (Ok r w)
      (fun r s' => resultStatus r = paused \/ resultStatus r = status s')).
  { intros r Hr. exists r, w, s. split; [reflexivity |].
    split; [apply sameRows_refl |]. split; [assumption |].
    split; [apply extends_refl | assumption]. }
  destruct (status s) eqn:Hstatus.
  2-4: apply Hhere; simpl; auto.
  destruct (getNextNodes workflow (completedNodes s) (failedNodes s))
    as [|first others] eqn:Hnext.
  - simpl. unfold completeWorkflow, bind at 1.
    rewrite updateWorkflowState_eq.
    unfold orchestratorEvent, logEvent, nanoid, bind, modify, ret.
    eexists. eexists. eexists. split; [reflexivity |]. split.
    + unfold sameRows. simpl (workflowStates _). apply updateRows_ids.
    + split.
      * unfold stateIn. simpl (workflowStates _).
        rewrite lookupState_updateRows. fold (stateIn pid w).
        rewrite Hs. reflexivity.
      * split; [now repeat split | now right].
  - cbn [List.length Nat.eqb]. unfold bind at 1.
    destruct (executeBatch_step (first :: others) w s [] Hs)
      as (results & w1 & s1 & Hrun & Hrows1 & Hs1 & Hext1 & Hall).
    rewrite Hrun.
    destruct (existsb result_requiresApproval results) eqn:Hpause.
    + exists (PausedBatch results), w1, s1. split; [reflexivity |].
      split; [assumption |]. split; [assumption |].
      split; [assumption | now left].
    + assert (Hfirst : In first (getNextNodes workflow (completedNodes s)
                                              (failedNodes s)))
        by (rewrite Hnext; now left).
      apply getNextNodes_unsettled in Hfirst.
      destruct Hfirst as [Hnode Hunsettled].
      assert (Hless : (unsettled workflow s1 < unsettled workflow s)%nat).
      { apply unsettled_decreases with first; try assumption.
        apply Hall; [reflexivity | reflexivity | now left]. }
      destruct (IH w1 s1 Hs1) as (r & w' & s' & Hrun' & Hrows' & Hs'
                                  & Hext' & Hr); [lia |].
      exists r, w', s'. split; [assumption |].
      split; [now apply sameRows_trans with w1 |].
      split; [assumption |].
      split; [now apply extends_trans with s1 | assumption].
Qed.

Lemma unsettled_bound s :
  (unsettled workflow s <= List.length (nodes workflow))%nat.
Proof. unfold unsettled. apply filter_length_le. Qed.

(** [executeNextNodes] on an existing run always returns. *)
Lemma executeNextNodes_terminates w s :
  stateIn pid w = Some s ->
  runStep pid w s (executeNextNodes workflow pid input sessionId w)
    (fun r s' => resultStatus r = paused \/ resultStatus r = status s').
Proof.
  intros Hs. unfold executeNextNodes.
  apply executeNextNodes_fuel_step; [assumption |].
  pose proof (unsettled_bound s). lia.
Qed.
End RunLoop.

Lemma startFresh_eq `{Collaborators} workflow pid input sessionId w :
  startFresh workflow pid input sessionId w
  = executeNextNodes workflow pid input sessionId (freshWorld workflow pid w).
Proof.
  unfold startFresh, createWorkflowState, orchestratorEvent, logEvent,
    nanoid, bind, modify, ret, tryCatch, throw.
  cbv beta iota.
  assert (Hsame : forall o : Outcome RunResult,
             match o with
             | Ok a w' => Ok a w'
             | Throw msg w' => Throw msg w'
             | OutOfFuel => OutOfFuel
             end = o) by (intros []; reflexivity).
  rewrite Hsame. reflexivity.
Qed.

Lemma executeNextNodes_fuel_terminal `{Collaborators}
    fuel workflow pid input sessionId w s :
  stateIn pid w = Some s -> terminal s ->
  executeNextNodes_fuel (S fuel) workflow pid input sessionId w
  = Ok (Terminal (status s) (completedNodes s) (failedNodes s)) w.
Proof.
  intros Hs Hterm. simpl.
  unfold bind, getWorkflowState. fold (stateIn pid w). rewrite Hs.
  destruct Hterm as [Hst | Hst]; rewrite Hst; reflexivity.
Qed.

(** C8. On a project whose record has status [running] or [paused],
    [startWorkflow] is [executeNextNodes] on that record: it returns, the
    table holds the same rows as before (none created, none deleted), the
    record of the project is the same row, and its [completedNodes] and
    [failedNodes] are the former lists, possibly with more ids appended.
    On a paused run the call changes nothing at all and returns the
    pending decisions. *)
Theorem start_resumes_existing_run `{Collaborators}
    (workflow : WorkflowType) (pid input : string)
    (sessionId : option string) (w : World) (s : WorkflowState) :
  stateIn pid w = Some s ->
  status s = running \/ status s = paused ->
  exists r w' s',
    startWorkflow workflow pid input sessionId w = Ok r w' /\
    executeNextNodes workflow pid input sessionId w = Ok r w' /\
    map state_id (workflowStates w') = map state_id (workflowStates w) /\
    map projectId (workflowStates w') = map projectId (workflowStates w) /\
    stateIn pid w' = Some s' /\
    state_id s' = state_id s /\
    (exists more, completedNodes s' = (completedNodes s ++ more)%list) /\
    (exists more, failedNodes s' = (failedNodes s ++ more)%list) /\
    (status s = paused ->
     w' = w /\ r = PausedAwaiting (pendingDecisions s)).
Proof.
  intros Hs Hstatus.
  destruct (executeNextNodes_terminates workflow pid input sessionId w s Hs)
    as (r & w' & s' & Hrun & [Hids Hpids] & Hs' & (Hid & Hc & Hf) & _).
  exists r, w', s'.
  split.
  { rewrite startWorkflow_eq, Hs.
    destruct Hstatus as [-> | ->]; assumption. }
  repeat (split; [assumption |]).
  intros Hpaused. unfold executeNextNodes in Hrun. simpl in Hrun.
  unfold bind, getWorkflowState in Hrun. fold (stateIn pid w) in Hrun.
  rewrite Hs, Hpaused in Hrun. unfold ret in Hrun.
  inversion Hrun. now split.
Qed.

(** C8 at a concrete input: a start request on the running record ["s0"]
    of project ["p"]. *)
Lemma start_resumes_existing_run_witness :
  exists r w' s',
    startWorkflow (H := demo) approvalFlow "p" "{}" None freshRun = Ok r w' /\
    map state_id (workflowStates w') = ["s0"] /\
    stateIn "p" w' = Some s' /\
    (exists more, completedNodes s' = ([] ++ more)%list).
Proof.
  destruct (start_resumes_existing_run (H := demo) approvalFlow "p" "{}"
              None freshRun (mkState "s0" "p" None [] [] [] running "{}"))
    as (r & w' & s' & Hrun & _ & Hids & _ & Hs' & _ & Hmore & _).
  - reflexivity.
  - left. reflexivity.
  - exists r, w', s'. repeat split; assumption.
Defined.

(** C9. Given that no id is both completed and failed, every dependency
    of a node in the next-eligible set is in [completedNodes] and not in
    [failedNodes]: a node with a failed dependency is never eligible. And
    in a graph [a -> b -> c] where the delegate of [a] fails on every
    invocation, a run started on a project without a record ends with the
    snapshot [failed], [failedNodes = [a]], [completedNodes = []], and
    every delegate invocation of the run is an attempt of [a]: [b] and [c]
    are never executed. *)
Theorem failed_dependency_blocks_downstream `{Collaborators} :
  (forall workflow completedNodes failedNodes node dep,
      disjointOutcomes completedNodes failedNodes ->
      In node (getNextNodes workflow completedNodes failedNodes) ->
      In dep (dependencies node) ->
      In dep completedNodes /\ ~ In dep failedNodes) /\
  (forall name description a b c pid input sessionId w,
      dependencies a = [] ->
      dependencies b = [node_id a] ->
      dependencies c = [node_id b] ->
      stateIn pid w = None ->
      alwaysFails a pid input sessionId ->
      exists w' s',
        startWorkflow (mkWorkflow name description [a; b; c])
                      pid input sessionId w
        = Ok (Terminal failed [] [node_id a]) w' /\
        stateIn pid w' = Some s' /\
        status s' = failed /\
        failedNodes s' = [node_id a] /\
        completedNodes s' = [] /\
        agentCalls w'
        = (agentCalls w
           ++ repeat (agentId a)
                     (Z.to_nat (effectiveMaxRetries a + 1)))%list).
Proof.
  split.
  - intros workflow completedNodes failedNodes node dep Hdisjoint Hin Hdep.
    apply getNextNodes_spec in Hin. destruct Hin as (_ & _ & _ & Hall).
    specialize (Hall dep Hdep). split; [assumption |].
    intros Hfailed. now apply (Hdisjoint dep).
  - intros name description a b c pid input sessionId w Ha Hb Hc Hnone
           Hfails.
    set (workflow := mkWorkflow name description [a; b; c]).
    rewrite startWorkflow_eq, Hnone, startFresh_eq.
    set (fresh := mkState (nanoid_nth (idCounter w)) pid None [] [] []
                          running "{}").
    set (w2 := freshWorld workflow pid w).
    assert (Hs2 : stateIn pid w2 = Some fresh).
    { unfold stateIn, w2, freshWorld. simpl (workflowStates _).
      rewrite lookupState_app. fold (stateIn pid w). rewrite Hnone.
      unfold lookupState. simpl. now rewrite String.eqb_refl. }
    assert (Hc2 : agentCalls w2 = agentCalls w) by reflexivity.
    unfold executeNextNodes.
    cbn [executeNextNodes_fuel]. unfold bind at 1, getWorkflowState.
    fold (stateIn pid w2). rewrite Hs2. cbn [status fresh].
    assert (Hnext : getNextNodes workflow (completedNodes fresh)
                                 (failedNodes fresh) = [a]).
    { unfold getNextNodes, areDependenciesSatisfied. simpl.
      rewrite Ha, Hb, Hc. reflexivity. }
    rewrite Hnext. cbn [List.length Nat.eqb executeBatch].
    unfold bind at 1, bind at 1.
    destruct (executeNode_alwaysFails a pid input sessionId w2 fresh Hs2
                                      Hfails)
      as (r & w3 & Hrun & _ & (Hcalls & _) & _ & _ & Hreq & Hs3 & _).
    rewrite Hrun, Hreq. unfold ret. cbn [app existsb]. rewrite Hreq.
    cbn [orb]. change (List.length (nodes workflow)) with 3%nat.
    rewrite (executeNextNodes_fuel_terminal _ _ _ _ _ _ _ Hs3
                                            (or_intror eq_refl)).
    exists w3. eexists. split; [reflexivity |]. split; [exact Hs3 |].
    split; [reflexivity |]. split; [reflexivity |]. split; [reflexivity |].
    rewrite Hcalls, Hc2. reflexivity.
Qed.

(** C9 at concrete inputs: node ["B"], whose dependency ["A"] is
    completed, and the chain [stuckChain]. *)
Lemma failed_dependency_blocks_downstream_witness :
  (In "A" ["A"] /\ ~ In "A" (@nil string)) /\
  exists w' s',
    startWorkflow (H := demo) stuckChain "p" "{}" None emptyWorld
    = Ok (Terminal failed [] ["A"]) w' /\
    stateIn "p" w' = Some s' /\ status s' = failed /\
    agentCalls w' = ["failing_agent"; "failing_agent"; "failing_agent"].
Proof.
  destruct (failed_dependency_blocks_downstream (H := demo))
    as [Heligible Hstuck].
  split.
  - apply (Heligible stuckChain ["A"] []
                     (simpleNode "B" "ok_agent" ["A"] false None) "A").
    + intros nodeId _ [].
    + vm_compute. left. reflexivity.
    + left. reflexivity.
  - destruct (Hstuck "chain" ""
                (simpleNode "A" "failing_agent" [] false
                            (Some (mkRetryPolicy 2 10)))
                (simpleNode "B" "ok_agent" ["A"] false None)
                (simpleNode "C" "ok_agent" ["B"] false None)
                "p" "{}" None emptyWorld)
      as (w' & s' & Hrun & Hs' & Hstatus & _ & _ & Hcalls).
    + reflexivity.
    + reflexivity.
    + reflexivity.
    + reflexivity.
    + intros w. exact eq_refl.
    + exists w', s'. repeat split; assumption.
Defined.

(** ** The approval protocol *)

Lemma filter_absent decisionId (l : list string) :
  ~ In decisionId l ->
  List.filter (fun id => negb (String.eqb id decisionId)) l = l.
Proof.
  induction l as [|x l IH]; simpl; intros Hnot; [reflexivity |].
  destruct (String.eqb x decisionId) eqn:Heq; simpl.
  - apply String.eqb_eq in Heq. exfalso. apply Hnot. now left.
  - f_equal. apply IH. intros Hin. apply Hnot. now right.
Qed.

Lemma lookupDecision_approved decisionId selected rows decision :
  List.find (fun d => String.eqb (decision_id d) decisionId) rows
  = Some decision ->
  List.find (fun d => String.eqb (decision_id d) decisionId)
    (map (fun d => if String.eqb (decision_id d) decisionId
                   then approveRow selected d else d) rows)
  = Some (approveRow selected decision).
Proof.
  induction rows as [|d rows IH]; simpl; [discriminate |].
  destruct (String.eqb (decision_id d) decisionId) eqn:Heq; simpl.
  - rewrite Heq. intros Hd. now inversion Hd.
  - rewrite Heq. apply IH.
Qed.

Section Approval.
Context `{Collaborators}.
Variables (workflow : WorkflowType) (pid decisionId selected : string)
          (sessionId : option string).

Lemma approveDecision_stages w :
  approveDecision workflow pid decisionId selected sessionId w
  = bind (approvalStage pid decisionId selected sessionId)
         (approvalResume workflow pid sessionId) w.
Proof.
  unfold approveDecision, approvalStage, approvalResume, bind.
  destruct (removePendingDecision pid decisionId w); reflexivity.
Qed.

Lemma removePendingDecision_eq w :
  removePendingDecision pid decisionId w
  = match stateIn pid w with
    | Some s =>
        Ok tt (set_workflowStates
                 (updateRows pid
                    (mkUpdates None None None
                       (Some (List.filter
                                (fun id => negb (String.eqb id decisionId))
                                (pendingDecisions s)))
                       (Some (statusFor
                                (List.filter
                                   (fun id =>
                                      negb (String.eqb id decisionId))
                                   (pendingDecisions s))))
                       None)) w)
    | None => Throw (stateNotFound pid) w
    end.
Proof.
  unfold removePendingDecision, bind, getWorkflowState.
  fold (stateIn pid w). destruct (stateIn pid w) as [s|]; [| reflexivity].
  rewrite updateWorkflowState_eq.
  now destruct (List.filter _ (pendingDecisions s)).
Qed.

(** With an option that names none of the decision's options, the
    approval stage answers [success: false], the decision row is
    untouched, but the pending decision is already removed from the
    record of the run. *)
Lemma approvalStage_invalid_option w s decision :
  stateIn pid w = Some s ->
  lookupDecision decisionId w = Some decision ->
  lookupOption selected decision = None ->
  exists w',
    approvalStage pid decisionId selected sessionId w
    = Ok (mkAgentOutput false None
            (Some ("Invalid option selected: " ++ selected)%string)) w' /\
    stateIn pid w' = Some (afterRemoval decisionId s) /\
    decisions w' = decisions w /\
    toolCalls w' = toolCalls w.
Proof.
  intros Hs Hdecision Hoption.
  unfold approvalStage, bind at 1. rewrite removePendingDecision_eq, Hs.
  unfold orchestratorEvent, logEvent, nanoid, bind at 1, bind at 1, modify.
  unfold processStrategyDecision, tryCatch.
  unfold lookupDecision in Hdecision. simpl (decisions _).
  rewrite Hdecision. unfold lookupOption in Hoption. rewrite Hoption.
  unfold throw, ret. eexists. split; [reflexivity |].
  split; [| now split].
  unfold stateIn. simpl (workflowStates _).
  rewrite lookupState_updateRows. fold (stateIn pid w). now rewrite Hs.
Qed.

(** With a valid option and a calendar tool that succeeds, the approval
    stage succeeds whatever the status of the decision row: the row is
    written as approved with the selected option and the four tool calls
    are made. *)
Lemma approvalStage_valid_option w s decision opt :
  stateIn pid w = Some s ->
  lookupDecision decisionId w = Some decision ->
  lookupOption selected decision = Some opt ->
  (forall w0, tool_success "artifact_generator" "content_calendar" w0
              = true) ->
  exists w',
    approvalStage pid decisionId selected sessionId w
    = Ok (mkAgentOutput true (Some (mkAgentData None)) None) w' /\
    stateIn pid w' = Some (afterRemoval decisionId s) /\
    lookupDecision decisionId w' = Some (approveRow selected decision) /\
    toolCalls w' = (toolCalls w ++ completionCalls)%list /\
    agentCalls w' = agentCalls w /\
    sameRows w w'.
Proof.
  intros Hs Hdecision Hoption Htool.
  unfold approvalStage, bind at 1. rewrite removePendingDecision_eq, Hs.
  unfold orchestratorEvent, logEvent, nanoid, bind at 1, bind at 1, modify.
  unfold processStrategyDecision, tryCatch.
  unfold lookupDecision in Hdecision. simpl (decisions _).
  rewrite Hdecision. unfold lookupOption in Hoption. rewrite Hoption.
  unfold bind at 1, modify. unfold bind at 1, executeTool at 1.
  rewrite Htool. cbn [negb].
  unfold executeTool, logEvent, nanoid, bind, modify, ret.
  eexists. split; [reflexivity |]. split.
  { unfold stateIn. simpl (workflowStates _).
    rewrite lookupState_updateRows. fold (stateIn pid w). now rewrite Hs. }
  split.
  { unfold lookupDecision. simpl (decisions _).
    now apply lookupDecision_approved. }
  split.
  { simpl (toolCalls _). unfold completionCalls.
    rewrite <- !app_assoc. reflexivity. }
  split; [reflexivity |].
  unfold sameRows. simpl (workflowStates _). apply updateRows_ids.
Qed.
End Approval.

(** When nothing is left to execute, the loop completes the run. *)
Lemma executeNextNodes_nothing_left `{Collaborators}
    workflow pid input sessionId w s :
  stateIn pid w = Some s ->
  status s = running ->
  getNextNodes workflow (completedNodes s) (failedNodes s) = [] ->
  exists w',
    executeNextNodes workflow pid input sessionId w
    = Ok (Completed (completedNodes s)) w' /\
    stateIn pid w'
    = Some (applyUpdates
              (mkUpdates (Some None) None None None (Some completed) None) s).
Proof.
  intros Hs Hstatus Hnext. unfold executeNextNodes.
  cbn [executeNextNodes_fuel]. unfold bind at 1, getWorkflowState.
  fold (stateIn pid w). rewrite Hs, Hstatus, Hnext.
  cbn [List.length Nat.eqb]. unfold completeWorkflow, bind at 1.
  rewrite updateWorkflowState_eq.
  unfold orchestratorEvent, logEvent, nanoid, bind, modify, ret.
  eexists. split; [reflexivity |].
  unfold stateIn. simpl (workflowStates _).
  rewrite lookupState_updateRows. fold (stateIn pid w). now rewrite Hs.
Qed.

(** C3: the code at the failing input. The run of project ["p"] is paused
    on the decision ["d1"], whose options are ["safe"] and ["bold"].
    [approveDecision] with the option ["nope"] returns the unsuccessful
    result with the error "Invalid option selected: nope" (it does not
    throw) and leaves the decision row alone, but the record of the run
    has changed: [pendingDecisions] is empty and the status is [running],
    while the node ["B"] is still the current node and not completed. *)
Lemma invalid_option_still_unpauses_run :
  exists s w' s',
    stateIn "p" pausedWorld = Some s /\
    status s = paused /\ pendingDecisions s = ["d1"] /\
    approveDecision (H := demo) approvalFlow "p" "d1" "nope" None pausedWorld
    = Ok (NotProcessed
            (mkAgentOutput false None
                           (Some "Invalid option selected: nope"))) w' /\
    decisions w' = decisions pausedWorld /\
    stateIn "p" w' = Some s' /\
    status s' = running /\ pendingDecisions s' = [] /\
    currentNode s' = Some "B" /\ completedNodes s' = ["A"] /\
    s' <> s.
Proof.
  eexists. eexists. eexists. split; [vm_compute; reflexivity |].
  split; [reflexivity |]. split; [reflexivity |].
  split; [vm_compute; reflexivity |].
  split; [vm_compute; reflexivity |].
  split; [vm_compute; reflexivity |].
  repeat (split; [reflexivity |]). discriminate.
Qed.

(** C2, as stated, fails: a second approval of an approved decision is
    accepted. In [approvedWorld] the decision ["d1"] is approved with
    ["safe"], it is no longer pending and the run is completed. A second
    [approveDecision], with ["bold"], does not fail: it returns the
    completed snapshot, the four tool calls of the completion logic are
    made a second time, and the approved row now holds ["bold"]. *)
Lemma second_approval_is_accepted :
  exists s decision w' decision',
    stateIn "p" approvedWorld = Some s /\
    ~ In "d1" (pendingDecisions s) /\
    lookupDecision "d1" approvedWorld = Some decision /\
    decision_status decision = approved /\
    selectedOption decision = Some "safe" /\
    toolCalls approvedWorld = completionCalls /\
    approveDecision (H := demo) approvalFlow "p" "d1" "bold" None
                    approvedWorld
    = Ok (Resumed (Completed ["A"; "B"])) w' /\
    toolCalls w' = (completionCalls ++ completionCalls)%list /\
    lookupDecision "d1" w' = Some decision' /\
    selectedOption decision' = Some "bold".
Proof.
  eexists. eexists. eexists. eexists.
  split; [vm_compute; reflexivity |].
  split; [simpl; tauto |].
  split; [vm_compute; reflexivity |].
  split; [reflexivity |]. split; [reflexivity |].
  split; [vm_compute; reflexivity |].
  split; [vm_compute; reflexivity |].
  split; [vm_compute; reflexivity |].
  split; [vm_compute; reflexivity | reflexivity].
Qed.

(** C2 (amended). For a decision id that is not in [pendingDecisions],
    [approveDecision] does not fail: when the decision row exists, the
    option names one of its options and the calendar tool succeeds,
    [removePendingDecision] leaves [pendingDecisions] and
    [completedNodes] as they are, [processStrategyDecision] runs again
    (the row is written as approved with the option now selected and its
    four tool calls are repeated), and the call returns the snapshot of the
    re-entered run loop. With no current node, no node is marked completed
    by the approval itself: [completedNodes] only grows by what the
    resumed loop executes, and when nothing is pending and nothing is
    eligible the loop returns the completed snapshot with [completedNodes]
    unchanged. *)
Theorem second_approval_amended `{Collaborators}
    (workflow : WorkflowType) (pid decisionId selected : string)
    (sessionId : option string) (w : World) (s : WorkflowState)
    (decision : Decision) (opt : DecisionOption) :
  stateIn pid w = Some s ->
  ~ In decisionId (pendingDecisions s) ->
  currentNode s = None ->
  lookupDecision decisionId w = Some decision ->
  lookupOption selected decision = Some opt ->
  (forall w0, tool_success "artifact_generator" "content_calendar" w0
              = true) ->
  exists w2 s2 r w' s',
    approvalStage pid decisionId selected sessionId w
    = Ok (mkAgentOutput true (Some (mkAgentData None)) None) w2 /\
    toolCalls w2 = (toolCalls w ++ completionCalls)%list /\
    lookupDecision decisionId w2 = Some (approveRow selected decision) /\
    stateIn pid w2 = Some s2 /\
    pendingDecisions s2 = pendingDecisions s /\
    completedNodes s2 = completedNodes s /\
    approveDecision workflow pid decisionId selected sessionId w
    = Ok (Resumed r) w' /\
    executeNextNodes workflow pid "{}" sessionId w2 = Ok r w' /\
    stateIn pid w' = Some s' /\
    state_id s' = state_id s /\
    (exists more, completedNodes s' = (completedNodes s ++ more)%list) /\
    (pendingDecisions s = [] ->
     getNextNodes workflow (completedNodes s) (failedNodes s) = [] ->
     r = Completed (completedNodes s) /\
     completedNodes s' = completedNodes s /\
     status s' = completed).
Proof.
  intros Hs Hnotin Hcurrent Hdecision Hoption Htool.
  destruct (approvalStage_valid_option pid decisionId selected sessionId
              w s decision opt Hs Hdecision Hoption Htool)
    as (w2 & Hstage & Hs2 & Hrow & Htools & _ & _).
  assert (Hremoved : afterRemoval decisionId s
                     = applyUpdates
                         (mkUpdates None None None (Some (pendingDecisions s))
                            (Some (statusFor (pendingDecisions s))) None) s).
  { unfold afterRemoval. now rewrite (filter_absent _ _ Hnotin). }
  rewrite Hremoved in Hs2.
  set (s2 := applyUpdates _ s) in *.
  destruct (executeNextNodes_terminates workflow pid "{}" sessionId w2 s2 Hs2)
    as (r & w' & s' & Hloop & _ & Hs' & (Hid & Hc & _) & _).
  exists w2, s2, r, w', s'.
  split; [assumption |]. split; [assumption |]. split; [assumption |].
  split; [assumption |]. split; [reflexivity |]. split; [reflexivity |].
  split.
  { rewrite approveDecision_stages. unfold bind at 1. rewrite Hstage.
    unfold approvalResume. cbn [success].
    unfold bind at 1, getWorkflowState. fold (stateIn pid w2). rewrite Hs2.
    unfold currentNodeOf.
    cbn [currentNode s2 applyUpdates orElse upd_currentNode].
    rewrite Hcurrent. unfold bind at 1, ret at 1. unfold bind.
    rewrite Hloop. reflexivity. }
  split; [assumption |]. split; [assumption |]. split; [assumption |].
  split; [exact Hc |].
  intros Hpending Hnext.
  destruct (executeNextNodes_nothing_left workflow pid "{}" sessionId w2 s2
              Hs2) as (w'' & Hdone & Hs'').
  { unfold s2. simpl. now rewrite Hpending. }
  { exact Hnext. }
  rewrite Hdone in Hloop. inversion Hloop; subst r w''.
  rewrite Hs' in Hs''. inversion Hs''; subst s'.
  now repeat split.
Qed.

(** The amended C2 at a concrete input: the second approval of ["d1"] on
    the completed run of project ["p"]. *)
Lemma second_approval_amended_witness :
  exists r w' s',
    approveDecision (H := demo) approvalFlow "p" "d1" "bold" None
                    approvedWorld
    = Ok (Resumed r) w' /\
    stateIn "p" w' = Some s' /\
    (r = Completed ["A"; "B"] /\
     completedNodes s' = ["A"; "B"] /\ status s' = completed).
Proof.
  destruct (second_approval_amended (H := demo) approvalFlow "p" "d1" "bold"
              None approvedWorld
              (mkState "id0" "p" None ["A"; "B"] [] [] completed "{}")
              (approveRow "safe" (demoDecision "p"))
              (mkOption "bold" "Bold Approach" "{bold}"))
    as (_ & _ & r & w' & s' & _ & _ & _ & _ & _ & _ & Hrun & _ & Hs' & _ & _
        & Hdone).
  - vm_compute. reflexivity.
  - simpl. tauto.
  - reflexivity.
  - vm_compute. reflexivity.
  - reflexivity.
  - intros w0. reflexivity.
  - exists r, w', s'. split; [exact Hrun |]. split; [exact Hs' |].
    apply Hdone; reflexivity.
Defined.

(* ===================================================================== *)
(** * Further properties of the code                                     *)
(* ===================================================================== *)

(** ** Progress in a validated graph *)

(** What [validateWorkflow] accepts. *)
Lemma validateWorkflow_accepts workflow r :
  validateWorkflow workflow = Some r -> valid r = true ->
  (forall x, ~ onCycle workflow x) /\
  (forall node dep, In node (nodes workflow) -> In dep (dependencies node) ->
                    depExists workflow dep = true).
Proof.
  unfold validateWorkflow, validateWorkflow_fuel.
  destruct (cycleLoop_spec workflow (S (List.length (allIds workflow))))
    with (ns := nodes workflow) (st := mkDfs ∅ ∅) (errs := @nil string)
    as (report & st' & Hloop & Hrep).
  - pose proof (universe_size workflow). lia.
  - auto.
  - intros x Hx. simpl in Hx. set_solver.
  - intros z Hz. simpl in Hz. set_solver.
  - rewrite Hloop. simpl. intros Hr Hvalid. inversion Hr; subst r; clear Hr.
    simpl in Hvalid. apply Nat.eqb_eq in Hvalid.
    apply length_zero_iff_nil in Hvalid.
    apply app_eq_nil in Hvalid. destruct Hvalid as [Hreport Hdangling].
    split.
    + intros x Hx. destruct (onCycle_is_node _ _ Hx) as (node & Hin & <-).
      pose proof (cycleReport_In _ _ _ Hrep node Hin (or_introl Hx)) as He.
      rewrite Hreport in He. destruct He.
    + intros node dep Hin Hdep.
      destruct (depExists workflow dep) eqn:Hex; [reflexivity |].
      assert (He : In (danglingError (node_id node) dep)
                      (danglingLoop workflow)).
      { apply danglingLoop_In. exists node, dep.
        repeat split; try assumption. now apply depExists_false. }
      rewrite Hdangling in He. destruct He.
Qed.

Lemma repeated_element (l : list string) :
  ~ List.NoDup l -> exists a l1 l2 l3, l = (l1 ++ a :: l2 ++ a :: l3)%list.
Proof.
  induction l as [|a l IH]; intros Hdup.
  - exfalso. apply Hdup. constructor.
  - destruct (in_dec string_dec a l) as [Hin | Hnotin].
    + apply in_split in Hin. destruct Hin as (l2 & l3 & ->).
      now exists a, [], l2, l3.
    + destruct IH as (b & l1 & l2 & l3 & ->).
      * intros Hnd. apply Hdup. now constructor.
      * now exists b, (a :: l1), l2, l3.
Qed.

Lemma dependencyChain_tail workflow l1 l :
  dependencyChain workflow (l1 ++ l) -> dependencyChain workflow l.
Proof.
  induction l1 as [|x l1 IH]; simpl; [auto |].
  destruct (l1 ++ l)%list eqn:Heq; intros Hc.
  - destruct l1, l; simpl in *; try discriminate; exact I.
  - apply IH. tauto.
Qed.

Lemma dependencyChain_path workflow l2 :
  forall x y l3,
    dependencyChain workflow (x :: l2 ++ y :: l3) -> path workflow x y.
Proof.
  induction l2 as [|z l2 IH]; intros x y l3 Hc.
  - simpl in Hc. apply path_edge. tauto.
  - change (dependsOn workflow x z
            /\ dependencyChain workflow (z :: l2 ++ y :: l3)) in Hc.
    destruct Hc as [Hxz Hrest]. apply path_step with z; [assumption |].
    now apply IH with l3.
Qed.

Lemma descent_chain workflow (U : string -> Prop) :
  (forall x, U x -> exists y, dependsOn workflow x y /\ U y) ->
  forall (n : nat) x, U x ->
    exists l, List.length l = n /\ dependencyChain workflow (x :: l) /\
              forall y, In y l -> U y.
Proof.
  intros Hnext. induction n as [|n IH]; intros x Hx.
  - exists []. repeat split. intros y [].
  - destruct (Hnext x Hx) as (y & Hxy & Hy).
    destruct (IH y Hy) as (l & Hlen & Hchain & Hall).
    exists (y :: l). split; [simpl; now rewrite Hlen |].
    split; [now split |]. intros z [<- | Hz]; auto.
Qed.

(** In a graph without cycle, a set of node ids in which every id
    depends on another id of the set is empty. *)
Lemma no_endless_descent workflow (U : string -> Prop) :
  (forall x, ~ onCycle workflow x) ->
  (forall x, U x -> In x (map node_id (nodes workflow))) ->
  (forall x, U x -> exists y, dependsOn workflow x y /\ U y) ->
  forall x, ~ U x.
Proof.
  intros Hacyclic Hids Hnext x Hx.
  destruct (descent_chain workflow U Hnext
              (List.length (nodes workflow)) x Hx)
    as (l & Hlen & Hchain & Hall).
  assert (Hdup : ~ List.NoDup (x :: l)).
  { intros Hnd.
    assert (Hle : (List.length (x :: l)
                   <= List.length (map node_id (nodes workflow)))%nat).
    { apply NoDup_incl_length; [assumption |].
      intros y [<- | Hy]; apply Hids; auto. }
    rewrite length_map in Hle. simpl in Hle. lia. }
  apply repeated_element in Hdup.
  destruct Hdup as (a & l1 & l2 & l3 & Heq).
  rewrite Heq in Hchain. apply dependencyChain_tail in Hchain.
  apply dependencyChain_path in Hchain. now apply (Hacyclic a).
Qed.

(** In a validated graph, as long as a node is not completed and none has
    failed, some node is eligible. *)
Lemma getNextNodes_progress (workflow : WorkflowType)
    (r : ValidationResult) (completedNodes : list string) :
  validateWorkflow workflow = Some r ->
  valid r = true ->
  (exists node, In node (nodes workflow)
                /\ ~ In (node_id node) completedNodes) ->
  getNextNodes workflow completedNodes [] <> [].
Proof.
  intros Hrun Hvalid (node & Hnode & Hopen) Hnone.
  destruct (validateWorkflow_accepts workflow r Hrun Hvalid)
    as [Hacyclic Hexists].
  set (U := fun x => In x (map node_id (nodes workflow))
                     /\ ~ In x completedNodes).
  apply (no_endless_descent workflow U Hacyclic) with (x := node_id node).
  - intros x [Hx _]. exact Hx.
  - intros x [Hx Hxopen].
    apply in_map_iff in Hx. destruct Hx as (n & <- & Hn).
    destruct (findNode_of_In workflow n Hn) as (first & Hfirst).
    destruct (findNode_In workflow _ _ Hfirst) as [Hin Hid].
    destruct (forallb (fun dep => includes completedNodes dep)
                      (dependencies first)) eqn:Hdeps.
    + exfalso.
      assert (Hel : In first (getNextNodes workflow completedNodes [])).
      { apply getNextNodes_spec. split; [assumption |].
        rewrite Hid. split; [assumption |]. split; [intros [] |].
        intros dep Hdep. apply includes_In.
        rewrite forallb_forall in Hdeps. now apply Hdeps. }
      rewrite Hnone in Hel. destruct Hel.
    + assert (Hex : exists dep, In dep (dependencies first)
                                /\ ~ In dep completedNodes).
      { clear - Hdeps. induction (dependencies first) as [|d ds IH];
          simpl in Hdeps; [discriminate |].
        apply andb_false_iff in Hdeps. destruct Hdeps as [Hd | Hds].
        - exists d. split; [now left | now apply includes_false].
        - destruct (IH Hds) as (dep & ? & ?). exists dep.
          split; [now right | assumption]. }
      destruct Hex as (dep & Hdep & Hdepopen).
      exists dep. split; [now exists first |].
      split; [| assumption].
      specialize (Hexists first dep Hin Hdep).
      unfold depExists in Hexists. apply existsb_exists in Hexists.
      destruct Hexists as (m & Hm & Heq). apply String.eqb_eq in Heq.
      subst dep. now apply in_map.
  - split; [now apply in_map | assumption].
Qed.

(** X1. A workflow that [validateWorkflow] accepts never stalls: whatever
    the list of completed nodes, as long as some node of the workflow is not
    in it and no node has failed, [getNextNodes] returns a node, and that
    node is a node of the workflow that is not completed and whose
    dependencies all are. In particular an accepted workflow that has a node
    has one without dependencies, which is eligible at the start. *)
Theorem valid_workflow_never_stalls (workflow : WorkflowType)
    (r : ValidationResult) :
  validateWorkflow workflow = Some r ->
  valid r = true ->
  (forall completedNodes,
      (exists node, In node (nodes workflow)
                    /\ ~ In (node_id node) completedNodes) ->
      exists node,
        In node (getNextNodes workflow completedNodes []) /\
        In node (nodes workflow) /\
        ~ In (node_id node) completedNodes /\
        forall dep, In dep (dependencies node) -> In dep completedNodes) /\
  (nodes workflow <> [] ->
   exists root, In root (nodes workflow) /\ dependencies root = [] /\
                In root (getNextNodes workflow [] [])).
Proof.
  intros Hrun Hvalid.
  assert (Hsome : forall completedNodes,
    (exists node, In node (nodes workflow)
                  /\ ~ In (node_id node) completedNodes) ->
    exists node,
      In node (getNextNodes workflow completedNodes []) /\
      In node (nodes workflow) /\
      ~ In (node_id node) completedNodes /\
      forall dep, In dep (dependencies node) -> In dep completedNodes).
  { intros completedNodes Hopen.
    pose proof (getNextNodes_progress workflow r completedNodes Hrun Hvalid
                  Hopen) as Hne.
    destruct (getNextNodes workflow completedNodes []) as [|node rest]
      eqn:Hnext; [congruence |].
    exists node. split; [now left |].
    assert (Hin : In node (getNextNodes workflow completedNodes []))
      by (rewrite Hnext; now left).
    apply getNextNodes_spec in Hin. tauto. }
  split; [exact Hsome |].
  intros Hnodes.
  assert (Hfirst : exists n, In n (nodes workflow)).
  { destruct (nodes workflow) as [|n ns]; [congruence |].
    exists n. now left. }
  destruct Hfirst as (n & Hn).
  destruct (Hsome []) as (root & Hel & Hin & _ & Hdeps).
  { exists n. split; [assumption | intros []]. }
  exists root. split; [assumption |]. split; [| assumption].
  destruct (dependencies root) as [|d ds]; [reflexivity |].
  destruct (Hdeps d (or_introl eq_refl)).
Qed.

(** X1 at a concrete input: the chain [A -> B -> C] with [A] completed. *)
Lemma valid_workflow_never_stalls_witness :
  exists node,
    In node (getNextNodes linearChain ["A"] []) /\
    In node (nodes linearChain) /\
    ~ In (node_id node) ["A"] /\
    forall dep, In dep (dependencies node) -> In dep ["A"].
Proof.
  apply (valid_workflow_never_stalls linearChain (mkValidation true [])).
  - vm_compute. reflexivity.
  - reflexivity.
  - exists (simpleNode "B" "ok_agent" ["A"] false None). split.
    + simpl. tauto.
    + simpl. intros [Heq | []]. discriminate Heq.
Defined.

(** ** The run loop as a relation on execution states *)

Lemma stateAfterNode_extends node o s : extends s (stateAfterNode node o s).
Proof.
  destruct o; (split; [reflexivity |]); split; simpl;
    try reflexivity; now apply prefix_app_r.
Qed.

Lemma stateAfterNode_settled node o s :
  isPause o = false -> settled (stateAfterNode node o s) (node_id node) = true.
Proof.
  destruct o; intros Hp; try discriminate; unfold settled; simpl;
    rewrite includes_app; apply orb_true_iff.
  - left. apply orb_true_iff. right. apply includes_In. now left.
  - right. apply orb_true_iff. right. apply includes_In. now left.
Qed.

Lemma batchTrace_extends possible batch s s' b :
  batchTrace possible batch s s' b -> extends s s'.
Proof.
  induction 1 as [s | node rest o s s' b _ _ _ IH | node rest d s _].
  - apply extends_refl.
  - eapply extends_trans; [apply stateAfterNode_extends | exact IH].
  - apply stateAfterNode_extends.
Qed.

Lemma batchTrace_settles possible batch s s' :
  batchTrace possible batch s s' false ->
  forall node, In node batch -> settled s' (node_id node) = true.
Proof.
  intros Hb. remember false as b eqn:Hfalse.
  induction Hb as [s | node rest o s s' b Hposs Hnp Hrest IH | node rest d s _];
    intros n Hin; try discriminate.
  - destruct Hin.
  - destruct Hin as [<- | Hin]; [| now apply IH].
    apply settled_extends with (stateAfterNode node o s).
    + eapply batchTrace_extends; eassumption.
    + now apply stateAfterNode_settled.
Qed.

Section RunTrace.

Context `{Collaborators}.

Variables (workflow : WorkflowType) (pid input : string)
          (sessionId : option string).

Lemma executeNode_outcome node w s :
  stateIn pid w = Some s ->
  exists r w' o,
    executeNode node pid input sessionId w = Ok r w' /\
    sameRows w w' /\
    stateIn pid w' = Some (stateAfterNode node o s) /\
    result_requiresApproval r = isPause o /\
    possibleOutcome pid input sessionId node o.
Proof.
  intros Hs.
  pose proof (executeNode_spec node pid input sessionId w) as Hspec.
  destruct (executeNode node pid input sessionId w) as [r w' | msg w' |];
    [| | contradiction].
  2: { destruct Hspec as (Hnone & _). congruence. }
  destruct Hspec as (Hrows & s0 & Hs0 & Hcases).
  rewrite Hs in Hs0. inversion Hs0; subst s0. clear Hs0.
  destruct Hcases as [Hret | Hex].
  - destruct Hret as (j & output & _ & _ & Hsucc & (w0 & Hreply) & Hr & Hs'
                      & _).
    unfold attemptWrite in Hr, Hs'.
    destruct (requiresApproval node) eqn:Hreq;
      [destruct (decisionIdOf output) as [d|] eqn:Hd |];
      simpl in Hr, Hs'; subst r.
    + eexists. exists w', (Pauses d). split; [reflexivity |].
      split; [assumption |]. split; [exact Hs' |]. split; [reflexivity |].
      split; [assumption |]. now exists w0, output.
    + eexists. exists w', Completes. split; [reflexivity |].
      split; [assumption |]. split; [exact Hs' |]. split; [reflexivity |].
      now exists w0, output.
    + eexists. exists w', Completes. split; [reflexivity |].
      split; [assumption |]. split; [exact Hs' |]. split; [reflexivity |].
      exists w0, output. repeat split; try assumption. congruence.
  - destruct Hex as (_ & _ & _ & Hreq & Hs' & Hfail).
    exists r, w', Fails. split; [reflexivity |]. split; [assumption |].
    split; [exact Hs' |]. split; [exact Hreq |].
    destruct (Z_lt_le_dec (effectiveMaxRetries node) 0) as [Hneg | Hpos];
      [now left | right; now apply Hfail].
Qed.

Lemma executeBatch_trace nextNodes :
  forall w s results,
    stateIn pid w = Some s ->
    exists results' w' s' b,
      executeBatch nextNodes pid input sessionId results w = Ok results' w' /\
      sameRows w w' /\ stateIn pid w' = Some s' /\
      batchTrace (possibleOutcome pid input sessionId) nextNodes s s' b /\
      existsb result_requiresApproval results'
      = existsb result_requiresApproval results || b.
Proof.
  induction nextNodes as [|node rest IH]; intros w s results Hs.
  - simpl. exists results, w, s, false. split; [reflexivity |].
    split; [apply sameRows_refl |]. split; [assumption |].
    split; [constructor | now rewrite orb_false_r].
  - simpl. unfold bind.
    destruct (executeNode_outcome node w s Hs)
      as (r & w1 & o & Hrun & Hrows1 & Hs1 & Hreq & Hposs).
    rewrite Hrun, Hreq.
    destruct (isPause o) eqn:Hpause.
    + destruct o as [| d |]; try discriminate.
      exists (results ++ [r])%list, w1, (stateAfterNode node (Pauses d) s),
        true.
      split; [reflexivity |]. split; [assumption |]. split; [assumption |].
      split; [now constructor |].
      rewrite existsb_app. simpl. rewrite Hreq. simpl.
      now rewrite !orb_true_r.
    + destruct (IH w1 _ (results ++ [r])%list Hs1)
        as (results' & w' & s' & b & Hrun' & Hrows' & Hs' & Htrace & Hex).
      exists results', w', s', b. split; [assumption |].
      split; [now apply sameRows_trans with w1 |]. split; [assumption |].
      split; [now apply batch_next with o |].
      rewrite Hex, existsb_app. simpl. rewrite Hreq. simpl.
      now rewrite orb_false_r.
Qed.

Lemma executeNextNodes_fuel_trace fuel :
  forall w s,
    stateIn pid w = Some s ->
    (unsettled workflow s < fuel)%nat ->
    exists r w' s',
      executeNextNodes_fuel fuel workflow pid input sessionId w = Ok r w' /\
      sameRows w w' /\ stateIn pid w' = Some s' /\
      runTrace (possibleOutcome pid input sessionId) workflow s s' r.
Proof.
  induction fuel as [|fuel IH]; intros w s Hs Hfuel; [lia |].
  simpl. unfold bind at 1, getWorkflowState. fold (stateIn pid w).
  rewrite Hs.
  destruct (status s) eqn:Hstatus.
  2: { exists (PausedAwaiting (pendingDecisions s)), w, s.
       split; [reflexivity |]. split; [apply sameRows_refl |].
       split; [assumption | now constructor]. }
  2: { exists (Terminal completed (completedNodes s) (failedNodes s)), w, s.
       split; [reflexivity |]. split; [apply sameRows_refl |].
       split; [assumption |]. rewrite <- Hstatus. constructor. now left. }
  2: { exists (Terminal failed (completedNodes s) (failedNodes s)), w, s.
       split; [reflexivity |]. split; [apply sameRows_refl |].
       split; [assumption |]. rewrite <- Hstatus. constructor. now right. }
  destruct (getNextNodes workflow (completedNodes s) (failedNodes s))
    as [|first others] eqn:Hnext.
  - simpl. unfold completeWorkflow, bind at 1.
    rewrite updateWorkflowState_eq.
    unfold orchestratorEvent, logEvent, nanoid, bind, modify, ret.
    eexists. eexists. eexists. split; [reflexivity |]. split.
    + unfold sameRows. simpl (workflowStates _). apply updateRows_ids.
    + split.
      * unfold stateIn. simpl (workflowStates _).
        rewrite lookupState_updateRows. fold (stateIn pid w).
        rewrite Hs. reflexivity.
      * now constructor.
  - cbn [List.length Nat.eqb]. unfold bind at 1.
    destruct (executeBatch_trace (first :: others) w s [] Hs)
      as (results & w1 & s1 & b & Hrun & Hrows1 & Hs1 & Htrace & Hex).
    rewrite Hrun, Hex. simpl (existsb _ []). cbn [orb].
    destruct b.
    + exists (PausedBatch results), w1, s1. split; [reflexivity |].
      split; [assumption |]. split; [assumption |].
      apply run_pause; [assumption | now rewrite Hnext].
    + assert (Hfirst : In first (getNextNodes workflow (completedNodes s)
                                              (failedNodes s)))
        by (rewrite Hnext; now left).
      apply getNextNodes_unsettled in Hfirst.
      destruct Hfirst as [Hnode Hunsettled].
      assert (Hless : (unsettled workflow s1 < unsettled workflow s)%nat).
      { apply unsettled_decreases with first; try assumption.
        - eapply batchTrace_extends; eassumption.
        - eapply batchTrace_settles; [eassumption | now left]. }
      destruct (IH w1 s1 Hs1) as (r & w' & s' & Hrun' & Hrows' & Hs' & Hr);
        [lia |].
      exists r, w', s'. split; [assumption |].
      split; [now apply sameRows_trans with w1 |].
      split; [assumption |].
      apply run_next with s1; try assumption; rewrite Hnext;
        [discriminate | assumption].
Qed.

Lemma executeNextNodes_trace w s :
  stateIn pid w = Some s ->
  exists r w' s',
    executeNextNodes workflow pid input sessionId w = Ok r w' /\
    sameRows w w' /\ stateIn pid w' = Some s' /\
    runTrace (possibleOutcome pid input sessionId) workflow s s' r.
Proof.
  intros Hs. unfold executeNextNodes.
  apply executeNextNodes_fuel_trace; [assumption |].
  pose proof (unsettled_bound workflow s). lia.
Qed.

End RunTrace.

Lemma runTrace_extends possible workflow s s' r :
  runTrace possible workflow s s' r -> extends s s'.
Proof.
  induction 1 as [s | s | s | s s' results _ Hb | s s1 s' r _ _ Hb _ IH].
  - apply extends_refl.
  - apply extends_refl.
  - now repeat split.
  - eapply batchTrace_extends; eassumption.
  - eapply extends_trans; [eapply batchTrace_extends |]; eassumption.
Qed.

(** ** Completed nodes follow their dependencies *)

Lemma dependenciesFirst_nil workflow : dependenciesFirst workflow [].
Proof. intros before x after Heq. now destruct before. Qed.

Lemma dependenciesFirst_snoc workflow l node :
  dependenciesFirst workflow l ->
  In node (nodes workflow) ->
  (forall dep, In dep (dependencies node) -> In dep l) ->
  dependenciesFirst workflow (l ++ [node_id node]).
Proof.
  intros Hl Hin Hdeps before x after Heq.
  induction after as [|z after' _] using rev_ind.
  - apply app_inj_tail in Heq. destruct Heq as [-> <-]. now exists node.
  - rewrite app_comm_cons, app_assoc in Heq.
    apply app_inj_tail in Heq. destruct Heq as [-> _].
    now apply (Hl before x after').
Qed.

Lemma dependencies_satisfied_extends node s s' :
  extends s s' ->
  (forall dep, In dep (dependencies node) -> In dep (completedNodes s)) ->
  forall dep, In dep (dependencies node) -> In dep (completedNodes s').
Proof.
  intros (_ & Hc & _) Hdeps dep Hdep. eapply prefix_In; eauto.
Qed.

Lemma batchTrace_dependenciesFirst possible workflow batch s s' b :
  batchTrace possible batch s s' b ->
  (forall node, In node batch ->
     In node (nodes workflow) /\
     forall dep, In dep (dependencies node) -> In dep (completedNodes s)) ->
  dependenciesFirst workflow (completedNodes s) ->
  dependenciesFirst workflow (completedNodes s').
Proof.
  induction 1 as [s | node rest o s s' b _ _ Hrest IH | node rest d s _];
    intros Hbatch Hinv.
  - assumption.
  - apply IH.
    + intros n Hn. destruct (Hbatch n (or_intror Hn)) as [Hin Hdeps].
      split; [assumption |].
      apply dependencies_satisfied_extends with s; [| assumption].
      apply stateAfterNode_extends.
    + destruct (Hbatch node (or_introl eq_refl)) as [Hin Hdeps].
      destruct o; simpl; try assumption.
      now apply dependenciesFirst_snoc.
  - assumption.
Qed.

Lemma runTrace_dependenciesFirst possible workflow s s' r :
  runTrace possible workflow s s' r ->
  dependenciesFirst workflow (completedNodes s) ->
  dependenciesFirst workflow (completedNodes s').
Proof.
  assert (Hbatch : forall s node,
    In node (getNextNodes workflow (completedNodes s) (failedNodes s)) ->
    In node (nodes workflow) /\
    forall dep, In dep (dependencies node) -> In dep (completedNodes s)).
  { intros s0 node Hin. apply getNextNodes_spec in Hin. tauto. }
  induction 1 as [s | s | s | s s' results _ Hb | s s1 s' r _ _ Hb _ IH];
    intros Hinv; try assumption.
  - eapply batchTrace_dependenciesFirst; eauto.
  - apply IH. eapply batchTrace_dependenciesFirst; eauto.
Qed.



(** ** A node is settled once *)

Section StartTrace.

Context `{Collaborators}.

Variables (workflow : WorkflowType) (pid input : string)
          (sessionId : option string).

Lemma stateIn_freshWorld w :
  stateIn pid w = None ->
  stateIn pid (freshWorld workflow pid w)
  = Some (mkState (nanoid_nth (idCounter w)) pid None [] [] [] running "{}").
Proof.
  intros Hnone. unfold stateIn, freshWorld. simpl (workflowStates _).
  rewrite lookupState_app. fold (stateIn pid w). rewrite Hnone.
  unfold lookupState. simpl. now rewrite String.eqb_refl.
Qed.

Lemma startWorkflow_trace w :
  exists r w' s0 s',
    startWorkflow workflow pid input sessionId w = Ok r w' /\
    entryState (stateIn pid w) s0 /\
    stateIn pid w' = Some s' /\
    runTrace (possibleOutcome pid input sessionId) workflow s0 s' r.
Proof.
  assert (Hfresh : forall w0,
    stateIn pid w0 = None ->
    exists r w' s0 s',
      startFresh workflow pid input sessionId w0 = Ok r w' /\
      freshState s0 /\
      stateIn pid w' = Some s' /\
      runTrace (possibleOutcome pid input sessionId) workflow s0 s' r).
  { intros w0 Hnone. rewrite startFresh_eq.
    pose proof (stateIn_freshWorld w0 Hnone) as Hs.
    destruct (executeNextNodes_trace workflow pid input sessionId _ _ Hs)
      as (r & w' & s' & Hrun & _ & Hs' & Htrace).
    eexists r, w', _, s'. split; [assumption |].
    split; [| split; eassumption]. now repeat split. }
  rewrite startWorkflow_eq. unfold entryState.
  destruct (stateIn pid w) as [s|] eqn:Hs; [| now apply Hfresh].
  destruct (status s) eqn:Hstatus.
  1,2: destruct (executeNextNodes_trace workflow pid input sessionId _ _ Hs)
         as (r & w' & s' & Hrun & _ & Hs' & Htrace);
       exists r, w', s, s'; now repeat split.
  all: apply Hfresh; unfold stateIn; simpl (workflowStates _);
       apply lookupState_deleted.
Qed.

End StartTrace.

Lemma NoDup_map_filter {A B} (f : A -> B) (p : A -> bool) (l : list A) :
  List.NoDup (map f l) -> List.NoDup (map f (List.filter p l)).
Proof.
  induction l as [|a l IH]; simpl; intros Hnd; [constructor |].
  inversion Hnd as [|? ? Hnotin Hnd']; subst.
  destruct (p a); simpl; [| now apply IH].
  constructor; [| now apply IH].
  intros Hin. apply Hnotin. apply in_map_iff in Hin.
  destruct Hin as (x & Hx & Hin). apply filter_In in Hin.
  apply in_map_iff. exists x. tauto.
Qed.

Lemma settled_In s x :
  settled s x = true <-> In x (completedNodes s ++ failedNodes s).
Proof.
  unfold settled. rewrite orb_true_iff, !includes_In, in_app_iff. tauto.
Qed.

Lemma settled_stateAfterNode node o s x :
  settled (stateAfterNode node o s) x = true ->
  settled s x = true \/ x = node_id node.
Proof.
  rewrite !settled_In.
  destruct o; simpl; rewrite ?in_app_iff; simpl; intuition.
Qed.

Lemma stateAfterNode_once node o s :
  settled s (node_id node) = false ->
  List.NoDup (completedNodes s ++ failedNodes s) ->
  List.NoDup (completedNodes (stateAfterNode node o s)
              ++ failedNodes (stateAfterNode node o s)).
Proof.
  intros Hopen Hnd.
  assert (Hnotin : ~ In (node_id node) (completedNodes s ++ failedNodes s)).
  { rewrite <- settled_In. congruence. }
  assert (Hcons : List.NoDup (node_id node
                              :: completedNodes s ++ failedNodes s))
    by now constructor.
  destruct o; simpl; [| assumption |].
  - eapply Permutation_NoDup; [| exact Hcons].
    rewrite <- app_assoc. simpl. apply Permutation_middle.
  - eapply Permutation_NoDup; [| exact Hcons].
    rewrite app_assoc. apply Permutation_cons_append.
Qed.

Lemma batchTrace_once possible batch s s' b :
  batchTrace possible batch s s' b ->
  List.NoDup (map node_id batch) ->
  (forall node, In node batch -> settled s (node_id node) = false) ->
  List.NoDup (completedNodes s ++ failedNodes s) ->
  List.NoDup (completedNodes s' ++ failedNodes s').
Proof.
  induction 1 as [s | node rest o s s' b _ _ Hrest IH | node rest d s _];
    intros Hids Hopen Hnd.
  - assumption.
  - inversion Hids as [|? ? Hnotin Hids']; subst.
    apply IH; [assumption | |].
    + intros n Hn.
      destruct (settled (stateAfterNode node o s) (node_id n)) eqn:Hset;
        [| reflexivity].
      apply settled_stateAfterNode in Hset. destruct Hset as [Hset | Heq].
      * rewrite (Hopen n (or_intror Hn)) in Hset. discriminate.
      * exfalso. apply Hnotin. rewrite <- Heq. now apply in_map.
    + apply stateAfterNode_once; [| assumption]. apply Hopen. now left.
  - apply stateAfterNode_once; [| assumption]. apply Hopen. now left.
Qed.

Lemma runTrace_once possible workflow s s' r :
  List.NoDup (map node_id (nodes workflow)) ->
  runTrace possible workflow s s' r ->
  List.NoDup (completedNodes s ++ failedNodes s) ->
  List.NoDup (completedNodes s' ++ failedNodes s').
Proof.
  intros Hids.
  assert (Hbatch : forall s s' b,
    batchTrace possible
      (getNextNodes workflow (completedNodes s) (failedNodes s)) s s' b ->
    List.NoDup (completedNodes s ++ failedNodes s) ->
    List.NoDup (completedNodes s' ++ failedNodes s')).
  { intros s0 s1 b Hb. apply (batchTrace_once _ _ _ _ _ Hb).
    - unfold getNextNodes. now apply NoDup_map_filter.
    - intros node Hin. now apply getNextNodes_unsettled in Hin. }
  induction 1 as [s | s | s | s s' results _ Hb | s s1 s' r _ _ Hb _ IH];
    intros Hnd; try assumption.
  - eapply Hbatch; eassumption.
  - apply IH. eapply Hbatch; eassumption.
Qed.

(** X3. In a workflow whose node ids are distinct a node is settled at most
    once: after [startWorkflow] no id occurs twice in [completedNodes] and
    [failedNodes] taken together, so none is both completed and failed. (The
    same must hold of a record that is resumed.) *)
Theorem unique_ids_settle_once `{Collaborators}
    (workflow : WorkflowType) (pid input : string)
    (sessionId : option string) (w : World) :
  List.NoDup (map node_id (nodes workflow)) ->
  (forall s, stateIn pid w = Some s ->
             status s = running \/ status s = paused ->
             List.NoDup (completedNodes s ++ failedNodes s)) ->
  exists r w' s',
    startWorkflow workflow pid input sessionId w = Ok r w' /\
    stateIn pid w' = Some s' /\
    List.NoDup (completedNodes s' ++ failedNodes s') /\
    disjointOutcomes (completedNodes s') (failedNodes s').
Proof.
  intros Hids Hinv.
  destruct (startWorkflow_trace workflow pid input sessionId w)
    as (r & w' & s0 & s' & Hrun & Hentry & Hs' & Htrace).
  assert (Hnd : List.NoDup (completedNodes s' ++ failedNodes s')).
  { apply (runTrace_once _ _ _ _ _ Hids Htrace).
    unfold entryState in Hentry.
    destruct (stateIn pid w) as [s|];
      [destruct (status s) eqn:Hstatus |].
    1,2: subst s0; apply Hinv; [reflexivity | rewrite Hstatus; auto].
    all: destruct Hentry as (_ & -> & -> & _); constructor. }
  exists r, w', s'. split; [assumption |]. split; [assumption |].
  split; [assumption |].
  intros x Hc Hf. clear - Hnd Hc Hf.
  induction (completedNodes s') as [|c cs IH]; [destruct Hc |].
  simpl in Hnd. inversion Hnd as [|? ? Hnotin Hnd']; subst.
  destruct Hc as [-> | Hc]; [| now apply IH].
  apply Hnotin. apply in_or_app. now right.
Qed.

(** X3 at a concrete input: a first start of the chain whose first delegate
    always fails. *)
Lemma unique_ids_settle_once_witness :
  exists r w' s',
    startWorkflow (H := demo) stuckChain "p" "{}" None emptyWorld
    = Ok r w' /\
    stateIn "p" w' = Some s' /\
    List.NoDup (completedNodes s' ++ failedNodes s') /\
    disjointOutcomes (completedNodes s') (failedNodes s').
Proof.
  apply (unique_ids_settle_once (H := demo) stuckChain "p" "{}" None
           emptyWorld).
  - simpl. repeat constructor; simpl; intuition discriminate.
  - intros s Hs. discriminate Hs.
Defined.

(** ** What the result of a run says *)

Lemma batchTrace_failure possible batch s s' :
  batchTrace possible batch s s' false ->
  (failedNodes s' = failedNodes s /\ status s' = status s) \/
  (status s' = failed /\ failedNodes s' <> []).
Proof.
  intros Hb. remember false as b eqn:Hfalse.
  induction Hb as [s | node rest o s s' b _ Hnp _ IH | node rest d s _];
    try discriminate.
  - now left.
  - specialize (IH Hfalse). destruct o; try discriminate.
    + destruct IH as [[Hf Hst] | Hfailed]; [left | now right].
      now rewrite Hf, Hst.
    + right. destruct IH as [[Hf Hst] | Hfailed]; [| assumption].
      rewrite Hf, Hst. simpl. split; [reflexivity |].
      now destruct (failedNodes s).
Qed.

Lemma batchTrace_paused possible batch s s' :
  batchTrace possible batch s s' true ->
  status s' = paused /\ pendingDecisions s' <> [].
Proof.
  intros Hb. remember true as b eqn:Htrue.
  induction Hb as [s | node rest o s s' b _ _ _ IH | node rest d s _];
    try discriminate; [now apply IH |].
  simpl. split; [reflexivity |]. now destruct (pendingDecisions s).
Qed.

Lemma runTrace_verdict possible workflow v s s' r :
  validateWorkflow workflow = Some v -> valid v = true ->
  runTrace possible workflow s s' r ->
  status s = running \/ status s = paused ->
  (status s = running -> failedNodes s = []) ->
  runVerdict workflow r s'.
Proof.
  intros Hrun Hvalid.
  induction 1 as [s Hp | s Ht | s Hr Hnext | s s' results Hr Hb
                  | s s1 s' r Hr Hne Hb Hrest IH];
    intros Hstatus Hclean.
  - split; [assumption | reflexivity].
  - destruct Ht, Hstatus; congruence.
  - split; [reflexivity |]. simpl. split; [reflexivity |].
    specialize (Hclean Hr). split; [assumption |].
    intros node Hin.
    destruct (in_dec string_dec (node_id node) (completedNodes s))
      as [Hdone | Hopen]; [assumption |].
    exfalso.
    apply (getNextNodes_progress workflow v (completedNodes s)
             Hrun Hvalid); [now exists node |].
    now rewrite <- Hclean.
  - apply batchTrace_paused in Hb. destruct Hb as [Hp Hpending].
    split; assumption.
  - apply batchTrace_failure in Hb.
    destruct Hb as [[Hf Hst] | [Hfailed Hsome]].
    + apply IH.
      * left. congruence.
      * intros _. rewrite Hf. now apply Hclean.
    + inversion Hrest; subst; try congruence.
      * split; [reflexivity |]. simpl. now repeat split.
Qed.

(** X4. On a workflow that [validateWorkflow] accepts the result of
    [startWorkflow] tells what happened (given that a running record that is
    resumed has no failed node). The status of the record is the status
    returned; 'completed' is returned only when every node of the workflow
    is in [completedNodes] and none has failed; a terminal snapshot is
    'failed' and names at least one failed node; 'paused' comes with a
    pending decision. *)
Theorem validated_run_verdict `{Collaborators}
    (workflow : WorkflowType) (v : ValidationResult) (pid input : string)
    (sessionId : option string) (w : World) :
  validateWorkflow workflow = Some v ->
  valid v = true ->
  (forall s, stateIn pid w = Some s -> status s = running ->
             failedNodes s = []) ->
  exists r w' s',
    startWorkflow workflow pid input sessionId w = Ok r w' /\
    stateIn pid w' = Some s' /\
    status s' = resultStatus r /\
    match r with
    | Completed l =>
        l = completedNodes s' /\ failedNodes s' = [] /\
        forall node, In node (nodes workflow) -> In (node_id node) l
    | Terminal st _ l => st = failed /\ l = failedNodes s' /\ l <> []
    | PausedBatch _ => pendingDecisions s' <> []
    | PausedAwaiting l => l = pendingDecisions s'
    end.
Proof.
  intros Hrun Hvalid Hclean.
  destruct (startWorkflow_trace workflow pid input sessionId w)
    as (r & w' & s0 & s' & Hstart & Hentry & Hs' & Htrace).
  exists r, w', s'. split; [assumption |]. split; [assumption |].
  apply (runTrace_verdict _ _ _ _ _ _ Hrun Hvalid Htrace);
    unfold entryState in Hentry;
    (destruct (stateIn pid w) as [s|];
     [destruct (status s) eqn:Hstatus |]).
  1,2: subst s0; rewrite Hstatus; auto.
  1-3: destruct Hentry as (_ & _ & _ & _ & ->); auto.
  1,2: subst s0; intros Hr; apply Hclean; auto; congruence.
  all: destruct Hentry as (_ & _ & -> & _); auto.
Qed.

(** X4 at a concrete input: a first start of the chain whose first delegate
    always fails. *)
Lemma validated_run_verdict_witness :
  exists r w' s',
    startWorkflow (H := demo) stuckChain "p" "{}" None emptyWorld
    = Ok r w' /\
    stateIn "p" w' = Some s' /\
    status s' = resultStatus r.
Proof.
  destruct (validated_run_verdict (H := demo) stuckChain
              (mkValidation true []) "p" "{}" None emptyWorld)
    as (r & w' & s' & Hrun & Hs' & Hstatus & _).
  - vm_compute. reflexivity.
  - reflexivity.
  - intros s Hs. discriminate Hs.
  - exists r, w', s'. repeat split; assumption.
Defined.

Lemma reliable_outcome `{Collaborators} pid input sessionId node o :
  reliable pid input sessionId node ->
  possibleOutcome pid input sessionId node o -> o = Completes.
Proof.
  intros [Hmax Hok] Hposs. destruct o as [| d |]; [reflexivity | |]; exfalso.
  - destruct Hposs as (Hreq & w0 & output & Hreply & _ & Hd).
    destruct (Hok w0) as (output' & Hreply' & _ & Hnone).
    rewrite Hreply in Hreply'. inversion Hreply'; subst output'.
    rewrite (Hnone Hreq) in Hd. discriminate.
  - destruct Hposs as [Hneg | (w1 & Hfail)]; [lia |].
    destruct (Hok w1) as (output & Hreply & Hsucc & _).
    unfold failedReply in Hfail. rewrite Hreply in Hfail. congruence.
Qed.

Lemma batchTrace_reliable possible batch s s' b :
  batchTrace possible batch s s' b ->
  (forall node o, In node batch -> possible node o -> o = Completes) ->
  b = false /\ status s' = status s /\
  pendingDecisions s' = pendingDecisions s.
Proof.
  induction 1 as [s | node rest o s s' b Hposs _ _ IH | node rest d s Hposs];
    intros Hall.
  - now repeat split.
  - assert (o = Completes) by (apply (Hall node); [now left | assumption]).
    subst o. destruct IH as (Hb & Hst & Hf).
    { intros n o Hn. apply Hall. now right. }
    now repeat split.
  - assert (Hd : Pauses d = Completes)
      by (apply (Hall node); [now left | assumption]).
    discriminate.
Qed.

Lemma runTrace_reliable possible workflow s s' r :
  (forall node o, In node (nodes workflow) -> possible node o ->
                  o = Completes) ->
  runTrace possible workflow s s' r ->
  status s = running ->
  (exists l, r = Completed l) /\ pendingDecisions s' = pendingDecisions s.
Proof.
  intros Hall.
  assert (Hbatch : forall s node o,
    In node (getNextNodes workflow (completedNodes s) (failedNodes s)) ->
    possible node o -> o = Completes).
  { intros s0 node o Hin. apply Hall. apply getNextNodes_spec in Hin. tauto. }
  induction 1 as [s Hp | s Ht | s Hr Hnext | s s' results Hr Hb
                  | s s1 s' r Hr Hne Hb Hrest IH];
    intros Hstatus.
  - congruence.
  - destruct Ht; congruence.
  - split; [eauto | reflexivity].
  - apply batchTrace_reliable in Hb; [| now apply Hbatch].
    destruct Hb as [Hb _]. discriminate.
  - apply batchTrace_reliable in Hb; [| now apply Hbatch].
    destruct Hb as (_ & Hst & Hp). rewrite <- Hp. apply IH. congruence.
Qed.

(** X5. The happy path. On an accepted workflow whose delegates all succeed
    (with non-negative retry budgets, and no decision created for a node
    that requires approval), a start request for a project with no record,
    or with a completed or failed one, runs the whole workflow: it returns
    'completed' with every node in [completedNodes], in dependency order,
    nothing failed and nothing pending. *)
Theorem reliable_delegates_complete_the_run `{Collaborators}
    (workflow : WorkflowType) (v : ValidationResult) (pid input : string)
    (sessionId : option string) (w : World) :
  validateWorkflow workflow = Some v ->
  valid v = true ->
  (forall node, In node (nodes workflow) ->
                reliable pid input sessionId node) ->
  (forall s, stateIn pid w = Some s -> terminal s) ->
  exists l w' s',
    startWorkflow workflow pid input sessionId w = Ok (Completed l) w' /\
    stateIn pid w' = Some s' /\
    status s' = completed /\
    completedNodes s' = l /\
    failedNodes s' = [] /\
    pendingDecisions s' = [] /\
    (forall node, In node (nodes workflow) -> In (node_id node) l) /\
    dependenciesFirst workflow l.
Proof.
  intros Hrun Hvalid Hreliable Hfresh.
  destruct (startWorkflow_trace workflow pid input sessionId w)
    as (r & w' & s0 & s' & Hstart & Hentry & Hs' & Htrace).
  assert (Hs0 : freshState s0).
  { unfold entryState in Hentry.
    destruct (stateIn pid w) as [s|]; [| assumption].
    destruct (Hfresh s eq_refl) as [Hst | Hst]; now rewrite Hst in Hentry. }
  destruct Hs0 as (Hcur & Hc & Hf & Hp & Hst).
  destruct (runTrace_reliable _ _ _ _ _
              (fun node o Hin => reliable_outcome pid input sessionId node o
                                   (Hreliable node Hin))
              Htrace Hst) as ((l & ->) & Hpending).
  destruct (runTrace_verdict _ _ _ _ _ _ Hrun Hvalid Htrace
              (or_introl Hst) (fun _ => Hf))
    as (Hstatus & Hl & Hnone & Hall).
  exists l, w', s'. split; [assumption |]. split; [assumption |].
  split; [assumption |]. split; [now symmetry |]. split; [assumption |].
  split; [congruence |]. split; [assumption |].
  rewrite Hl. apply (runTrace_dependenciesFirst _ _ _ _ _ Htrace).
  rewrite Hc. apply dependenciesFirst_nil.
Qed.

(** X5 at a concrete input: a first start of the chain [A -> B -> C]. *)
Lemma reliable_delegates_complete_the_run_witness :
  exists l w' s',
    startWorkflow (H := demo) linearChain "p" "{}" None emptyWorld
    = Ok (Completed l) w' /\
    stateIn "p" w' = Some s' /\
    status s' = completed /\
    (forall node, In node (nodes linearChain) -> In (node_id node) l).
Proof.
  destruct (reliable_delegates_complete_the_run (H := demo) linearChain
              (mkValidation true []) "p" "{}" None emptyWorld)
    as (l & w' & s' & Hrun & Hs' & Hstatus & _ & _ & _ & Hall & _).
  - vm_compute. reflexivity.
  - reflexivity.
  - intros node Hnode. simpl in Hnode.
    destruct Hnode as [<- | [<- | [<- | []]]];
      (split; [vm_compute; discriminate |]);
      intros w; eexists; (split; [reflexivity |]);
      (split; [reflexivity | intros Hreq; discriminate Hreq]).
  - intros s Hs. discriminate Hs.
  - exists l, w', s'. repeat split; assumption.
Defined.

(** ** The approval call, case by case *)

Section ApprovalStage.

Context `{Collaborators}.

Variables (workflow : WorkflowType) (pid decisionId selected : string)
          (sessionId : option string).

Lemma approvalStage_missing w :
  stateIn pid w = None ->
  approvalStage pid decisionId selected sessionId w
  = Throw (stateNotFound pid) w.
Proof.
  intros Hnone. unfold approvalStage, bind at 1.
  now rewrite removePendingDecision_eq, Hnone.
Qed.

Lemma approvalStage_cases w s :
  stateIn pid w = Some s ->
  exists result w',
    approvalStage pid decisionId selected sessionId w = Ok result w' /\
    stateIn pid w' = Some (afterRemoval decisionId s) /\
    sameRows w w' /\
    agentCalls w' = agentCalls w /\
    approvalEffect decisionId selected w result w'.
Proof.
  intros Hs.
  unfold approvalStage, bind at 1. rewrite removePendingDecision_eq, Hs.
  unfold orchestratorEvent, logEvent, nanoid, bind at 1, bind at 1, modify.
  unfold processStrategyDecision, tryCatch, approvalEffect, lookupDecision,
    lookupOption.
  simpl (decisions _).
  assert (Hstate : forall w0,
    workflowStates w0
    = updateRows pid
        (mkUpdates None None None
           (Some (List.filter (fun id => negb (String.eqb id decisionId))
                              (pendingDecisions s)))
           (Some (statusFor
                    (List.filter (fun id => negb (String.eqb id decisionId))
                                 (pendingDecisions s))))
           None) (workflowStates w) ->
    stateIn pid w0 = Some (afterRemoval decisionId s) /\ sameRows w w0).
  { intros w0 Hrows. unfold stateIn, sameRows. rewrite Hrows. split.
    - rewrite lookupState_updateRows. fold (stateIn pid w). now rewrite Hs.
    - apply updateRows_ids. }
  destruct (List.find (fun d => String.eqb (decision_id d) decisionId)
                      (decisions w)) as [decision|] eqn:Hdecision.
  2: { unfold throw, ret. eexists. eexists. split; [reflexivity |].
       split; [now apply Hstate |]. split; [now apply Hstate |].
       now repeat split. }
  destruct (List.find (fun opt => String.eqb (option_id opt) selected)
                      (options decision)) as [opt|] eqn:Hoption.
  2: { unfold throw, ret. eexists. eexists. split; [reflexivity |].
       split; [now apply Hstate |]. split; [now apply Hstate |].
       now repeat split. }
  unfold bind at 1, modify. unfold bind at 1, executeTool at 1.
  match goal with
  | |- context [tool_success "artifact_generator" "content_calendar" ?w0] =>
      set (wcall := w0)
  end.
  destruct (tool_success "artifact_generator" "content_calendar" wcall)
    eqn:Htool; cbn [negb].
  - unfold executeTool, logEvent, nanoid, bind, modify, ret.
    eexists. eexists. split; [reflexivity |].
    split; [now apply Hstate |]. split; [now apply Hstate |].
    split; [reflexivity |]. split.
    + simpl (decisions _). now apply lookupDecision_approved.
    + exists wcall. rewrite Htool. split; [reflexivity |].
      simpl (toolCalls _). unfold completionCalls.
      rewrite <- !app_assoc. reflexivity.
  - unfold throw, ret. eexists. eexists. split; [reflexivity |].
    split; [now apply Hstate |]. split; [now apply Hstate |].
    split; [reflexivity |]. split.
    + simpl (decisions _). now apply lookupDecision_approved.
    + exists wcall. rewrite Htool. now split.
Qed.

End ApprovalStage.

Section ApprovalResume.

Context `{Collaborators}.

Variables (workflow : WorkflowType) (pid : string)
          (sessionId : option string).

Lemma approvalResume_failure result w :
  success result = false ->
  approvalResume workflow pid sessionId result w = Ok (NotProcessed result) w.
Proof. intros Hfail. unfold approvalResume. now rewrite Hfail. Qed.

Lemma approvalResume_success result w s :
  success result = true ->
  stateIn pid w = Some s ->
  exists w1 r w' s',
    stateIn pid w1 = Some (resumeState s) /\
    sameRows w w1 /\
    decisions w1 = decisions w /\
    agentCalls w1 = agentCalls w /\
    toolCalls w1 = toolCalls w /\
    executeNextNodes workflow pid "{}" sessionId w1 = Ok r w' /\
    approvalResume workflow pid sessionId result w = Ok (Resumed r) w' /\
    stateIn pid w' = Some s' /\
    runTrace (possibleOutcome pid "{}" sessionId) workflow
             (resumeState s) s' r.
Proof.
  intros Hsucc Hs. unfold approvalResume. rewrite Hsucc.
  unfold bind at 1, getWorkflowState. fold (stateIn pid w). rewrite Hs.
  unfold resumeState.
  destruct (currentNodeOf (Some s)) as [n|] eqn:Hcur.
  - unfold bind at 1. rewrite markNodeComplete_eq, Hs.
    set (w1 := set_workflowStates _ w).
    assert (Hs1 : stateIn pid w1
                  = Some (applyUpdates
                            (mkUpdates (Some None)
                               (Some (completedNodes s ++ [n])%list)
                               None None None None) s)).
    { unfold stateIn, w1. simpl (workflowStates _).
      rewrite lookupState_updateRows. fold (stateIn pid w). now rewrite Hs. }
    destruct (executeNextNodes_trace workflow pid "{}" sessionId w1 _ Hs1)
      as (r & w' & s' & Hrun & _ & Hs' & Htrace).
    exists w1, r, w', s'. split; [assumption |].
    split; [unfold sameRows, w1; simpl (workflowStates _);
            apply updateRows_ids |].
    split; [reflexivity |]. split; [reflexivity |]. split; [reflexivity |].
    split; [assumption |]. unfold bind. rewrite Hrun.
    now repeat split.
  - unfold bind at 1, ret at 1.
    destruct (executeNextNodes_trace workflow pid "{}" sessionId w _ Hs)
      as (r & w' & s' & Hrun & _ & Hs' & Htrace).
    exists w, r, w', s'. split; [assumption |].
    split; [apply sameRows_refl |].
    split; [reflexivity |]. split; [reflexivity |]. split; [reflexivity |].
    split; [assumption |]. unfold bind. rewrite Hrun.
    now repeat split.
Qed.

End ApprovalResume.


(** X7. An approval that goes through. When the run has a current node, the
    decision row exists, the option is one of its options and the calendar
    tool succeeds, [approveDecision] writes the row as approved, makes the
    four tool calls of [processStrategyDecision] and no delegate call,
    appends the current node to [completedNodes] and clears it, leaves the
    status recomputed from what is still pending, and returns what the run
    loop returns from that state on the input [{}]; the completed nodes are
    kept by the resumed loop. *)
Theorem approval_completes_current_node `{Collaborators}
    (workflow : WorkflowType) (pid decisionId selected : string)
    (sessionId : option string) (w : World) (s : WorkflowState)
    (n : string) (decision : Decision) (opt : DecisionOption) :
  stateIn pid w = Some s ->
  currentNode s = Some n -> n <> ""%string ->
  lookupDecision decisionId w = Some decision ->
  lookupOption selected decision = Some opt ->
  (forall w0, tool_success "artifact_generator" "content_calendar" w0
              = true) ->
  exists w1 s1 r w' s',
    approveDecision workflow pid decisionId selected sessionId w
    = Ok (Resumed r) w' /\
    executeNextNodes workflow pid "{}" sessionId w1 = Ok r w' /\
    lookupDecision decisionId w1 = Some (approveRow selected decision) /\
    toolCalls w1 = (toolCalls w ++ completionCalls)%list /\
    agentCalls w1 = agentCalls w /\
    stateIn pid w1 = Some s1 /\
    completedNodes s1 = (completedNodes s ++ [n])%list /\
    currentNode s1 = None /\
    failedNodes s1 = failedNodes s /\
    pendingDecisions s1
    = List.filter (fun id => negb (String.eqb id decisionId))
                  (pendingDecisions s) /\
    status s1 = statusFor (pendingDecisions s1) /\
    stateIn pid w' = Some s' /\
    (completedNodes s ++ [n])%list `prefix_of` completedNodes s'.
Proof.
  intros Hs Hcur Hn Hdecision Hoption Htool.
  destruct (approvalStage_cases pid decisionId selected sessionId w s Hs)
    as (result & w0 & Hstage & Hs0 & _ & Hcalls0 & Heffect).
  unfold approvalEffect in Heffect. rewrite Hdecision, Hoption in Heffect.
  destruct Heffect as (Hrow & wcall & Hcalendar).
  rewrite Htool in Hcalendar. destruct Hcalendar as [-> Htools].
  destruct (approvalResume_success workflow pid sessionId
              (mkAgentOutput true (Some (mkAgentData None)) None) w0 _
              eq_refl Hs0)
    as (w1 & r & w' & s' & Hs1 & _ & Hdec1 & Hcalls1 & Htools1 & Hrun
        & Hresume & Hs' & Htrace).
  assert (Hentry : resumeState (afterRemoval decisionId s)
                   = applyUpdates
                       (mkUpdates (Some None)
                          (Some (completedNodes s ++ [n])%list)
                          None None None None)
                       (afterRemoval decisionId s)).
  { unfold resumeState, currentNodeOf. simpl. rewrite Hcur.
    destruct (String.eqb n "") eqn:Heq; [| reflexivity].
    apply String.eqb_eq in Heq. contradiction. }
  rewrite Hentry in Hs1, Htrace.
  eexists w1, _, r, w', s'. split.
  { rewrite approveDecision_stages. unfold bind. now rewrite Hstage. }
  split; [assumption |].
  split; [unfold lookupDecision in *; now rewrite Hdec1 |].
  split; [congruence |]. split; [congruence |].
  split; [exact Hs1 |].
  split; [reflexivity |]. split; [reflexivity |]. split; [reflexivity |].
  split; [reflexivity |]. split; [reflexivity |].
  split; [assumption |].
  apply runTrace_extends in Htrace. now destruct Htrace as (_ & Hc & _).
Qed.

(** X7 at a concrete input: the approval of ["d1"] with ["bold"] on the
    paused run of project ["p"]. *)
Lemma approval_completes_current_node_witness :
  exists r w' s',
    approveDecision (H := demo) approvalFlow "p" "d1" "bold" None
                    pausedWorld
    = Ok (Resumed r) w' /\
    stateIn "p" w' = Some s' /\
    ["A"; "B"] `prefix_of` completedNodes s'.
Proof.
  destruct (approval_completes_current_node (H := demo) approvalFlow "p"
              "d1" "bold" None pausedWorld
              (mkState "id0" "p" (Some "B") ["A"] [] ["d1"] paused "{}")
              "B" (demoDecision "p")
              (mkOption "bold" "Bold Approach" "{bold}"))
    as (w1 & s1 & r & w' & s' & Hrun & _ & _ & _ & _ & _ & _ & _ & _ & _ & _
        & Hs' & Hprefix).
  - vm_compute. reflexivity.
  - reflexivity.
  - discriminate.
  - vm_compute. reflexivity.
  - reflexivity.
  - intros w0. reflexivity.
  - exists r, w', s'. repeat split; assumption.
Defined.

(** X8. When the calendar generation fails, [approveDecision] answers
    [{success: false, error: 'Calendar generation failed'}], but the
    decision row has already been written as approved and the id has left
    [pendingDecisions]; the current node is not completed and the run loop
    is not re-entered. A run that was paused on this decision alone is left
    running, with nothing pending and its current node not completed. *)
Theorem failed_calendar_leaves_decision_approved `{Collaborators}
    (workflow : WorkflowType) (pid decisionId selected : string)
    (sessionId : option string) (w : World) (s : WorkflowState)
    (decision : Decision) (opt : DecisionOption) :
  stateIn pid w = Some s ->
  lookupDecision decisionId w = Some decision ->
  lookupOption selected decision = Some opt ->
  (forall w0, tool_success "artifact_generator" "content_calendar" w0
              = false) ->
  exists w',
    approveDecision workflow pid decisionId selected sessionId w
    = Ok (NotProcessed (notProcessed "Calendar generation failed")) w' /\
    lookupDecision decisionId w' = Some (approveRow selected decision) /\
    toolCalls w'
    = (toolCalls w ++ ["artifact_generator.content_calendar"])%list /\
    agentCalls w' = agentCalls w /\
    stateIn pid w' = Some (afterRemoval decisionId s) /\
    completedNodes (afterRemoval decisionId s) = completedNodes s /\
    currentNode (afterRemoval decisionId s) = currentNode s /\
    (pendingDecisions s = [decisionId] ->
     pendingDecisions (afterRemoval decisionId s) = [] /\
     status (afterRemoval decisionId s) = running).
Proof.
  intros Hs Hdecision Hoption Htool.
  destruct (approvalStage_cases pid decisionId selected sessionId w s Hs)
    as (result & w' & Hstage & Hs' & _ & Hcalls & Heffect).
  unfold approvalEffect in Heffect. rewrite Hdecision, Hoption in Heffect.
  destruct Heffect as (Hrow & wcall & Hcalendar).
  rewrite Htool in Hcalendar. destruct Hcalendar as [-> Htools].
  exists w'. split.
  { rewrite approveDecision_stages. unfold bind. rewrite Hstage.
    now apply approvalResume_failure. }
  repeat (split; [assumption || reflexivity |]).
  intros Hpending. unfold afterRemoval. rewrite Hpending. simpl.
  rewrite String.eqb_refl. now split.
Qed.

(** X8 at a concrete input: the same approval when the calendar generation
    fails. *)
Lemma failed_calendar_leaves_decision_approved_witness :
  exists w' s',
    approveDecision (H := calendarDown) approvalFlow "p" "d1" "bold" None
                    pausedWorld
    = Ok (NotProcessed (notProcessed "Calendar generation failed")) w' /\
    lookupDecision "d1" w' = Some (approveRow "bold" (demoDecision "p")) /\
    stateIn "p" w' = Some s' /\
    completedNodes s' = ["A"] /\
    pendingDecisions s' = [] /\
    status s' = running.
Proof.
  destruct (failed_calendar_leaves_decision_approved (H := calendarDown)
              approvalFlow "p" "d1" "bold" None pausedWorld
              (mkState "id0" "p" (Some "B") ["A"] [] ["d1"] paused "{}")
              (demoDecision "p")
              (mkOption "bold" "Bold Approach" "{bold}"))
    as (w' & Hrun & Hrow & _ & _ & Hs' & Hdone & _ & Hpending).
  - vm_compute. reflexivity.
  - vm_compute. reflexivity.
  - reflexivity.
  - intros w0. reflexivity.
  - destruct Hpending as [Hnone Hstatus]; [reflexivity |].
    eexists w', _. repeat split; eassumption.
Defined.

(** X9. For a decision id that has no row, [approveDecision] answers
    'Decision not found: <id>', writes no decision row and calls no tool and
    no delegate; the record of the run has still been rewritten by
    [removePendingDecision]: the id is filtered out of [pendingDecisions]
    and the status is recomputed from what remains, so that for an id that
    was not pending the list is as before and the status is paused or
    running by that list alone. *)
Theorem unknown_decision_still_unpauses_run `{Collaborators}
    (workflow : WorkflowType) (pid decisionId selected : string)
    (sessionId : option string) (w : World) (s : WorkflowState) :
  stateIn pid w = Some s ->
  lookupDecision decisionId w = None ->
  exists w',
    approveDecision workflow pid decisionId selected sessionId w
    = Ok (NotProcessed
            (notProcessed ("Decision not found: " ++ decisionId)%string)) w' /\
    decisions w' = decisions w /\
    toolCalls w' = toolCalls w /\
    agentCalls w' = agentCalls w /\
    stateIn pid w' = Some (afterRemoval decisionId s) /\
    (~ In decisionId (pendingDecisions s) ->
     pendingDecisions (afterRemoval decisionId s) = pendingDecisions s /\
     status (afterRemoval decisionId s)
     = statusFor (pendingDecisions s)).
Proof.
  intros Hs Hdecision.
  destruct (approvalStage_cases pid decisionId selected sessionId w s Hs)
    as (result & w' & Hstage & Hs' & _ & Hcalls & Heffect).
  unfold approvalEffect in Heffect. rewrite Hdecision in Heffect.
  destruct Heffect as (-> & Hdec & Htools).
  exists w'. split.
  { rewrite approveDecision_stages. unfold bind. rewrite Hstage.
    now apply approvalResume_failure. }
  repeat (split; [assumption |]).
  intros Hnotin. unfold afterRemoval.
  rewrite (filter_absent _ _ Hnotin). now split.
Qed.

(** X9 at a concrete input: the approval of the unknown id ["d7"] on the
    paused run. *)
Lemma unknown_decision_still_unpauses_run_witness :
  exists w' s',
    approveDecision (H := demo) approvalFlow "p" "d7" "bold" None
                    pausedWorld
    = Ok (NotProcessed (notProcessed "Decision not found: d7")) w' /\
    decisions w' = decisions pausedWorld /\
    stateIn "p" w' = Some s' /\
    pendingDecisions s' = ["d1"] /\
    status s' = paused.
Proof.
  destruct (unknown_decision_still_unpauses_run (H := demo) approvalFlow
              "p" "d7" "bold" None pausedWorld
              (mkState "id0" "p" (Some "B") ["A"] [] ["d1"] paused "{}"))
    as (w' & Hrun & Hrows & _ & _ & Hs' & Hkept).
  - vm_compute. reflexivity.
  - vm_compute. reflexivity.
  - destruct Hkept as [Hpending Hstatus].
    + simpl. intros [Heq | []]. discriminate Heq.
    + eexists w', _. repeat split; eassumption.
Defined.

(** X10. Stop does not make a paused run final. After [cancelWorkflow] on a
    run paused on one decision the record is failed with the decision still
    pending; approving the decision then sets the status back to running,
    with nothing pending, the completed and failed nodes of before the stop
    and no node newly completed (the stop cleared [currentNode]), and the
    run loop is re-entered from that state. *)
Theorem approval_revives_stopped_run `{Collaborators}
    (workflow : WorkflowType) (pid decisionId selected : string)
    (sessionId : option string) (w : World) (s : WorkflowState)
    (decision : Decision) (opt : DecisionOption) :
  stateIn pid w = Some s ->
  pendingDecisions s = [decisionId] ->
  lookupDecision decisionId w = Some decision ->
  lookupOption selected decision = Some opt ->
  (forall w0, tool_success "artifact_generator" "content_calendar" w0
              = true) ->
  exists w0 s0 w1 s1 r w',
    cancelWorkflow pid w = Ok tt w0 /\
    stateIn pid w0 = Some s0 /\
    status s0 = failed /\ currentNode s0 = None /\
    pendingDecisions s0 = [decisionId] /\
    approveDecision workflow pid decisionId selected sessionId w0
    = Ok (Resumed r) w' /\
    executeNextNodes workflow pid "{}" sessionId w1 = Ok r w' /\
    stateIn pid w1 = Some s1 /\
    status s1 = running /\
    pendingDecisions s1 = [] /\
    currentNode s1 = None /\
    completedNodes s1 = completedNodes s /\
    failedNodes s1 = failedNodes s.
Proof.
  intros Hs Hpending Hdecision Hoption Htool.
  set (s0 := applyUpdates
               (mkUpdates (Some None) None None None (Some failed) None) s).
  set (w0 := set_workflowStates
               (updateRows pid
                  (mkUpdates (Some None) None None None (Some failed) None))
               w).
  assert (Hs0 : stateIn pid w0 = Some s0).
  { unfold stateIn, w0. simpl (workflowStates _).
    rewrite lookupState_updateRows. fold (stateIn pid w). now rewrite Hs. }
  destruct (approvalStage_cases pid decisionId selected sessionId w0 s0 Hs0)
    as (result & w1 & Hstage & Hs1 & _ & _ & Heffect).
  unfold approvalEffect in Heffect.
  change (lookupDecision decisionId w0) with (lookupDecision decisionId w)
    in Heffect.
  rewrite Hdecision, Hoption in Heffect.
  destruct Heffect as (_ & wcall & Hcalendar).
  rewrite Htool in Hcalendar. destruct Hcalendar as [-> _].
  destruct (approvalResume_success workflow pid sessionId
              (mkAgentOutput true (Some (mkAgentData None)) None) w1 _
              eq_refl Hs1)
    as (w2 & r & w' & s' & Hs2 & _ & _ & _ & _ & Hrun & Hresume & _).
  assert (Hentry : resumeState (afterRemoval decisionId s0)
                   = afterRemoval decisionId s0) by reflexivity.
  rewrite Hentry in Hs2.
  exists w0, s0, w2, (afterRemoval decisionId s0), r, w'.
  split; [unfold cancelWorkflow; now rewrite updateWorkflowState_eq |].
  split; [assumption |]. split; [reflexivity |]. split; [reflexivity |].
  split; [exact Hpending |].
  split.
  { rewrite approveDecision_stages. unfold bind. now rewrite Hstage. }
  split; [assumption |]. split; [assumption |].
  unfold afterRemoval. simpl. rewrite Hpending. simpl.
  rewrite String.eqb_refl. simpl. now repeat split.
Qed.

(** X10 at a concrete input: the paused run of project ["p"], stopped and
    then approved. *)
Lemma approval_revives_stopped_run_witness :
  exists w0 s0 r w',
    cancelWorkflow "p" pausedWorld = Ok tt w0 /\
    stateIn "p" w0 = Some s0 /\
    status s0 = failed /\
    approveDecision (H := demo) approvalFlow "p" "d1" "bold" None w0
    = Ok (Resumed r) w'.
Proof.
  destruct (approval_revives_stopped_run (H := demo) approvalFlow "p" "d1"
              "bold" None pausedWorld
              (mkState "id0" "p" (Some "B") ["A"] [] ["d1"] paused "{}")
              (demoDecision "p")
              (mkOption "bold" "Bold Approach" "{bold}"))
    as (w0 & s0 & w1 & s1 & r & w' & Hstop & Hs0 & Hfailed & _ & _ & Hrun
        & _).
  - vm_compute. reflexivity.
  - reflexivity.
  - vm_compute. reflexivity.
  - reflexivity.
  - intros w. reflexivity.
  - exists w0, s0, r, w'. repeat split; assumption.
Defined.

(** ** What an operation leaves alone *)

Section Keeps.

Variable R : World -> World -> Prop.

Hypothesis R_refl : forall w, R w w.

Hypothesis R_trans : forall w1 w2 w3, R w1 w2 -> R w2 w3 -> R w1 w3.

Lemma keeps_ret {A} (a : A) : keeps R (ret a).
Proof. intros w. apply R_refl. Qed.

Lemma keeps_throw {A} msg : keeps R (@throw A msg).
Proof. intros w. apply R_refl. Qed.

Lemma keeps_outOfFuel {A} : keeps R (@outOfFuel A).
Proof. intros w. exact I. Qed.

Lemma keeps_bind {A B} (m : M A) (k : A -> M B) :
  keeps R m -> (forall a, keeps R (k a)) -> keeps R (bind m k).
Proof.
  intros Hm Hk w. unfold bind. specialize (Hm w).
  destruct (m w) as [a w1 | msg w1 |]; [| assumption | exact I].
  specialize (Hk a w1). destruct (k a w1); eauto.
Qed.

Lemma keeps_tryCatch {A} (body : M A) handler :
  keeps R body -> (forall msg, keeps R (handler msg)) ->
  keeps R (tryCatch body handler).
Proof.
  intros Hm Hk w. unfold tryCatch. specialize (Hm w).
  destruct (body w) as [a w1 | msg w1 |]; [assumption | | exact I].
  specialize (Hk msg w1). destruct (handler msg w1); eauto.
Qed.

Lemma keeps_modify f : (forall w, R w (f w)) -> keeps R (modify f).
Proof. intros Hf w. apply Hf. Qed.

Lemma keeps_read {A} (f : World -> A) : keeps R (fun w => Ok (f w) w).
Proof. intros w. apply R_refl. Qed.

End Keeps.

(** What the run loop keeps, from what its primitive steps keep. *)
Section KeepsRun.

Context `{Collaborators}.

Variable pid : string.

Variable R : World -> World -> Prop.

Hypothesis steps : StepInvariant pid R.

Let R_refl := step_refl pid R steps.

Let R_trans := step_trans pid R steps.

Let R_update := step_update pid R steps.

Let R_insert := step_insert pid R steps.

Let R_delete := step_delete pid R steps.

Let R_nanoid := step_nanoid pid R steps.

Let R_log := step_log pid R steps.

Let R_advisory := step_advisory pid R steps.

Let R_sleep := step_sleep pid R steps.

Let R_agent := step_agent pid R steps.

Ltac keep :=
  repeat first
    [ assumption
    | solve [auto]
    | apply (keeps_ret R R_refl)
    | apply (keeps_throw R R_refl)
    | apply keeps_outOfFuel
    | apply (keeps_read R R_refl)
    | apply (keeps_bind R R_trans); [| intros ?]
    | apply (keeps_tryCatch R R_trans); [| intros ?]
    | match goal with
      | |- keeps _ (match ?x with _ => _ end) => destruct x
      end ].

Lemma keeps_getWorkflowState : keeps R (getWorkflowState pid).
Proof. unfold getWorkflowState. keep. Qed.

Lemma keeps_logEvent agent agentName type summary :
  keeps R (logEvent agent agentName type summary pid).
Proof. unfold logEvent. keep. Qed.

Lemma keeps_createWorkflowState : keeps R (createWorkflowState pid).
Proof. unfold createWorkflowState. keep. Qed.

Lemma keeps_markNodeComplete nodeId : keeps R (markNodeComplete pid nodeId).
Proof. pose proof keeps_getWorkflowState. unfold markNodeComplete. keep. Qed.

Lemma keeps_markNodeFailed nodeId : keeps R (markNodeFailed pid nodeId).
Proof. pose proof keeps_getWorkflowState. unfold markNodeFailed. keep. Qed.

Lemma keeps_addPendingDecision d : keeps R (addPendingDecision pid d).
Proof. pose proof keeps_getWorkflowState. unfold addPendingDecision. keep. Qed.

Lemma keeps_removePendingDecision d : keeps R (removePendingDecision pid d).
Proof.
  pose proof keeps_getWorkflowState. unfold removePendingDecision. keep.
Qed.

Lemma keeps_stateOps op : keeps R (runOp pid op).
Proof.
  pose proof keeps_createWorkflowState.
  pose proof keeps_markNodeComplete. pose proof keeps_markNodeFailed.
  pose proof keeps_addPendingDecision. pose proof keeps_removePendingDecision.
  destruct op; unfold runOp, setCurrentNode, completeWorkflow,
    cancelWorkflow; keep.
Qed.

Lemma keeps_attemptNode node input sessionId :
  keeps R (attemptNode node pid input sessionId).
Proof.
  pose proof keeps_logEvent.
  pose proof keeps_addPendingDecision. pose proof keeps_markNodeComplete.
  unfold attemptNode, completeNode, runAdvisory, orchestratorEvent. keep.
Qed.

Lemma keeps_retryLoop node input sessionId fuel :
  forall retries lastError,
    keeps R (retryLoop fuel node pid input sessionId retries lastError).
Proof.
  pose proof keeps_attemptNode.
  induction fuel as [|fuel IH]; intros retries lastError; simpl;
    unfold sleep; keep.
Qed.

Lemma keeps_executeNode node input sessionId :
  keeps R (executeNode node pid input sessionId).
Proof.
  pose proof keeps_retryLoop. pose proof keeps_logEvent.
  pose proof keeps_markNodeFailed.
  unfold executeNode, setCurrentNode, orchestratorEvent. keep.
Qed.

Lemma keeps_executeBatch input sessionId nextNodes :
  forall results,
    keeps R (executeBatch nextNodes pid input sessionId results).
Proof.
  pose proof keeps_executeNode.
  induction nextNodes as [|node rest IH]; intros results; simpl; keep.
Qed.

Lemma keeps_executeNextNodes_fuel workflow input sessionId fuel :
  keeps R (executeNextNodes_fuel fuel workflow pid input sessionId).
Proof.
  pose proof keeps_executeBatch. pose proof keeps_logEvent.
  pose proof keeps_getWorkflowState.
  induction fuel as [|fuel IH]; simpl;
    unfold completeWorkflow, orchestratorEvent; keep.
Qed.

Lemma keeps_executeNextNodes workflow input sessionId :
  keeps R (executeNextNodes workflow pid input sessionId).
Proof. apply keeps_executeNextNodes_fuel. Qed.

Lemma keeps_startWorkflow workflow input sessionId :
  keeps R (startWorkflow workflow pid input sessionId).
Proof.
  pose proof keeps_executeNextNodes. pose proof keeps_logEvent.
  pose proof keeps_getWorkflowState. pose proof keeps_createWorkflowState.
  unfold startWorkflow, startFresh, orchestratorEvent. keep.
Qed.

(** [approveDecision], given that [processStrategyDecision] keeps the
    relation too. *)
Lemma keeps_approveDecision workflow decisionId selected sessionId :
  keeps R (processStrategyDecision pid decisionId selected sessionId) ->
  keeps R (approveDecision workflow pid decisionId selected sessionId).
Proof.
  intros Hprocess.
  pose proof keeps_executeNextNodes. pose proof keeps_logEvent.
  pose proof keeps_getWorkflowState. pose proof keeps_markNodeComplete.
  pose proof keeps_removePendingDecision.
  unfold approveDecision, orchestratorEvent. keep.
Qed.

End KeepsRun.

Lemma otherProjects_updateRows pid u rows :
  List.filter (fun s => negb (String.eqb (projectId s) pid))
              (updateRows pid u rows)
  = List.filter (fun s => negb (String.eqb (projectId s) pid)) rows.
Proof.
  unfold updateRows. induction rows as [|s rows IH]; simpl; [reflexivity |].
  destruct (String.eqb (projectId s) pid) eqn:Heq; simpl.
  - now rewrite Heq.
  - rewrite Heq. simpl. now rewrite IH.
Qed.

Lemma otherProjects_deleted pid rows :
  List.filter (fun s => negb (String.eqb (projectId s) pid))
    (List.filter (fun s => negb (String.eqb (projectId s) pid)) rows)
  = List.filter (fun s => negb (String.eqb (projectId s) pid)) rows.
Proof.
  induction rows as [|s rows IH]; simpl; [reflexivity |].
  destruct (negb (String.eqb (projectId s) pid)) eqn:Heq; simpl;
    [rewrite Heq, IH |]; auto.
Qed.

Lemma sameOthers_rows pid w w' :
  workflowStates w' = workflowStates w -> sameOthers pid w w'.
Proof. unfold sameOthers, otherProjects. now intros ->. Qed.

Section Isolation.

Context `{Collaborators}.

Variable pid : string.

Lemma sameOthers_trans w1 w2 w3 :
  sameOthers pid w1 w2 -> sameOthers pid w2 w3 -> sameOthers pid w1 w3.
Proof. unfold sameOthers. congruence. Qed.

Lemma sameOthers_update u : keeps (sameOthers pid) (updateWorkflowState pid u).
Proof.
  intros w. rewrite updateWorkflowState_eq. unfold sameOthers, otherProjects.
  simpl (workflowStates _). apply otherProjects_updateRows.
Qed.

Lemma sameOthers_insert row :
  projectId row = pid ->
  keeps (sameOthers pid)
        (modify (set_workflowStates (fun rows => rows ++ [row])%list)).
Proof.
  intros Hrow w. unfold modify, sameOthers, otherProjects.
  simpl (workflowStates _). rewrite List.filter_app. simpl.
  rewrite Hrow, String.eqb_refl. simpl. apply app_nil_r.
Qed.

Lemma sameOthers_delete : keeps (sameOthers pid) (deleteWorkflowState pid).
Proof.
  intros w. unfold deleteWorkflowState, modify, sameOthers, otherProjects.
  simpl (workflowStates _). apply otherProjects_deleted.
Qed.

Lemma sameOthers_agent agent input sessionId :
  keeps (sameOthers pid) (runAgent agent input pid sessionId).
Proof.
  intros w. unfold runAgent.
  destruct (reply_result _); now apply sameOthers_rows.
Qed.

Lemma sameOthers_processStrategyDecision decisionId selected sessionId :
  keeps (sameOthers pid)
        (processStrategyDecision pid decisionId selected sessionId).
Proof.
  intros w. unfold processStrategyDecision, tryCatch.
  destruct (List.find _ (decisions w)) as [decision|];
    [| now apply sameOthers_rows].
  destruct (List.find _ (options decision)) as [opt|];
    [| now apply sameOthers_rows].
  unfold bind at 1, modify. unfold bind at 1, executeTool at 1.
  destruct (tool_success "artifact_generator" "content_calendar" _);
    cbn [negb]; [| now apply sameOthers_rows].
  unfold executeTool, logEvent, nanoid, bind, modify, ret.
  now apply sameOthers_rows.
Qed.

End Isolation.

Lemma sameOthers_steps `{Collaborators} pid :
  StepInvariant pid (sameOthers pid).
Proof.
  assert (Hrows : forall A (m : M A),
    (forall w0, match m w0 with
                | Ok _ w1 | Throw _ w1 => workflowStates w1 = workflowStates w0
                | OutOfFuel => True
                end) ->
    keeps (sameOthers pid) m).
  { intros A m Hm w0. specialize (Hm w0).
    destruct (m w0); try exact I; now apply sameOthers_rows. }
  constructor.
  - reflexivity.
  - apply sameOthers_trans.
  - apply sameOthers_update.
  - apply sameOthers_insert.
  - apply sameOthers_delete.
  - apply Hrows. intros w0. reflexivity.
  - intros f. apply Hrows. intros w0. reflexivity.
  - intros f. apply Hrows. intros w0. reflexivity.
  - intros f. apply Hrows. intros w0. reflexivity.
  - apply sameOthers_agent.
Qed.

Lemma stateIn_sameOthers pid other w w' :
  other <> pid -> sameOthers pid w w' -> stateIn other w' = stateIn other w.
Proof.
  intros Hother Hsame. unfold sameOthers, otherProjects in Hsame.
  unfold stateIn.
  assert (Hvia : forall rows,
    lookupState other rows
    = lookupState other
        (List.filter (fun s => negb (String.eqb (projectId s) pid)) rows)).
  { unfold lookupState. induction rows as [|s rows IH]; [reflexivity |].
    simpl. destruct (String.eqb (projectId s) pid) eqn:Hpid; simpl.
    - destruct (String.eqb (projectId s) other) eqn:Ho; [| assumption].
      apply String.eqb_eq in Hpid, Ho. congruence.
    - now rewrite IH. }
  now rewrite (Hvia (workflowStates w')), Hsame, <- Hvia.
Qed.

(** X11. Project isolation of the workflow table: no operation of the state
    manager, and neither [startWorkflow] nor [approveDecision], called for
    one project changes the record that [getWorkflowState] finds for another
    project, whether the call returns or throws. *)
Theorem operations_leave_other_projects_alone `{Collaborators}
    (workflow : WorkflowType) (pid other input : string)
    (sessionId : option string) (w : World) :
  other <> pid ->
  (forall op w',
      finalWorld (runOp pid op w) = Some w' ->
      stateIn other w' = stateIn other w) /\
  (forall w',
      finalWorld (startWorkflow workflow pid input sessionId w) = Some w' ->
      stateIn other w' = stateIn other w) /\
  (forall decisionId selected w',
      finalWorld (approveDecision workflow pid decisionId selected sessionId w)
      = Some w' ->
      stateIn other w' = stateIn other w).
Proof.
  intros Hother.
  assert (Hread : forall w', sameOthers pid w w' ->
                             stateIn other w' = stateIn other w)
    by (intros w'; now apply stateIn_sameOthers).
  assert (Hfinal : forall A (m : M A) w',
    keeps (sameOthers pid) m -> finalWorld (m w) = Some w' ->
    stateIn other w' = stateIn other w).
  { intros A m w' Hm Hw'. specialize (Hm w). apply Hread.
    destruct (m w); simpl in Hw'; congruence. }
  pose proof (sameOthers_steps pid) as Hsteps.
  split; [| split].
  - intros op w'. now apply Hfinal, keeps_stateOps.
  - intros w'. now apply Hfinal, keeps_startWorkflow.
  - intros decisionId selected w'. apply Hfinal.
    apply keeps_approveDecision; [assumption |].
    apply sameOthers_processStrategyDecision.
Qed.

(** X11 at a concrete input: a start for project ["q"] beside the paused run
    of project ["p"]. *)
Lemma operations_leave_other_projects_alone_witness :
  exists w',
    finalWorld (startWorkflow (H := demo) linearChain "q" "{}" None
                              pausedWorld) = Some w' /\
    stateIn "q" w' <> stateIn "q" pausedWorld /\
    stateIn "p" w' = stateIn "p" pausedWorld.
Proof.
  destruct (operations_leave_other_projects_alone (H := demo) linearChain
              "q" "p" "{}" None pausedWorld) as (_ & Hstart & _).
  - discriminate.
  - eexists. split; [vm_compute; reflexivity |].
    split; [vm_compute; discriminate |].
    apply Hstart. vm_compute. reflexivity.
Defined.

Lemma decisionsKept_rows w w' :
  decisions w' = decisions w -> decisionsKept w w'.
Proof. unfold decisionsKept. now intros ->. Qed.

Lemma decisionsKept_steps `{Collaborators} pid :
  StepInvariant pid decisionsKept.
Proof.
  assert (Hrows : forall A (m : M A),
    (forall w0, match m w0 with
                | Ok _ w1 | Throw _ w1 => decisions w1 = decisions w0
                | OutOfFuel => True
                end) ->
    keeps decisionsKept m).
  { intros A m Hm w0. specialize (Hm w0).
    destruct (m w0); try exact I; now apply decisionsKept_rows. }
  constructor.
  - intros w. unfold decisionsKept. reflexivity.
  - intros w1 w2 w3. unfold decisionsKept. apply transitivity.
  - intros u. apply Hrows. intros w0. reflexivity.
  - intros row _. apply Hrows. intros w0. reflexivity.
  - apply Hrows. intros w0. reflexivity.
  - apply Hrows. intros w0. reflexivity.
  - intros f. apply Hrows. intros w0. reflexivity.
  - intros f. apply Hrows. intros w0. reflexivity.
  - intros f. apply Hrows. intros w0. reflexivity.
  - intros agent input sessionId w. unfold runAgent.
    destruct (reply_result _); unfold decisionsKept; simpl;
      now apply prefix_app_r.
Qed.

Lemma lookupDecision_kept decisionId w w' decision :
  decisionsKept w w' ->
  lookupDecision decisionId w = Some decision ->
  lookupDecision decisionId w' = Some decision.
Proof.
  unfold decisionsKept, lookupDecision. intros [more ->] Hfind.
  induction (decisions w) as [|d rows IH]; simpl in *; [discriminate |].
  destruct (String.eqb (decision_id d) decisionId); [assumption |].
  now apply IH.
Qed.

(** X12. [approveDecision] does not check that the decision belongs to the
    project it is called for. Called for project [pid] with the id of a
    decision of another project, it marks that decision approved (the row
    keeps its project id) and resumes the run of [pid], while the record of
    the owning project stays as it was, still waiting for the decision. *)
Theorem approval_is_not_scoped_to_the_project `{Collaborators}
    (workflow : WorkflowType) (pid other decisionId selected : string)
    (sessionId : option string) (w : World) (s owner : WorkflowState)
    (decision : Decision) (opt : DecisionOption) :
  other <> pid ->
  stateIn pid w = Some s ->
  stateIn other w = Some owner ->
  decision_projectId decision = other ->
  lookupDecision decisionId w = Some decision ->
  lookupOption selected decision = Some opt ->
  (forall w0, tool_success "artifact_generator" "content_calendar" w0
              = true) ->
  exists r w',
    approveDecision workflow pid decisionId selected sessionId w
    = Ok (Resumed r) w' /\
    lookupDecision decisionId w' = Some (approveRow selected decision) /\
    decision_status (approveRow selected decision) = approved /\
    decision_projectId (approveRow selected decision) = other /\
    stateIn other w' = Some owner.
Proof.
  intros Hother Hs Howner Hproject Hdecision Hoption Htool.
  destruct (approvalStage_cases pid decisionId selected sessionId w s Hs)
    as (result & w0 & Hstage & Hs0 & _ & _ & Heffect).
  unfold approvalEffect in Heffect. rewrite Hdecision, Hoption in Heffect.
  destruct Heffect as (Hrow & wcall & Hcalendar).
  rewrite Htool in Hcalendar. destruct Hcalendar as [-> _].
  destruct (approvalResume_success workflow pid sessionId
              (mkAgentOutput true (Some (mkAgentData None)) None) w0 _
              eq_refl Hs0)
    as (w1 & r & w' & s' & _ & _ & Hdec1 & _ & _ & Hrun & Hresume & _).
  assert (Happrove :
    approveDecision workflow pid decisionId selected sessionId w
    = Ok (Resumed r) w').
  { rewrite approveDecision_stages. unfold bind. now rewrite Hstage. }
  exists r, w'. split; [assumption |]. split; [| split; [reflexivity |]].
  - pose proof (keeps_executeNextNodes pid decisionsKept
                  (decisionsKept_steps pid) workflow "{}" sessionId w1)
      as Hkept.
    rewrite Hrun in Hkept.
    apply (lookupDecision_kept _ _ _ _ Hkept).
    unfold lookupDecision in *. now rewrite Hdec1.
  - split; [assumption |].
    pose proof (keeps_approveDecision pid (sameOthers pid)
                  (sameOthers_steps pid) workflow decisionId selected
                  sessionId
                  (sameOthers_processStrategyDecision pid decisionId selected
                                                      sessionId) w)
      as Hsame.
    rewrite Happrove in Hsame. rewrite <- Howner.
    now apply stateIn_sameOthers with pid.
Qed.

(** X12 at a concrete input: project ["q"] approves the decision ["d1"] of
    project ["p"]. *)
Lemma approval_is_not_scoped_to_the_project_witness :
  exists r w',
    approveDecision (H := demo) linearChain "q" "d1" "bold" None
                    sharedWorld
    = Ok (Resumed r) w' /\
    lookupDecision "d1" w' = Some (approveRow "bold" (demoDecision "p")) /\
    stateIn "p" w'
    = Some (mkState "id0" "p" (Some "B") ["A"] [] ["d1"] paused "{}").
Proof.
  destruct (approval_is_not_scoped_to_the_project (H := demo) linearChain
              "q" "p" "d1" "bold" None sharedWorld
              (mkState "s9" "q" None [] [] [] running "{}")
              (mkState "id0" "p" (Some "B") ["A"] [] ["d1"] paused "{}")
              (demoDecision "p")
              (mkOption "bold" "Bold Approach" "{bold}"))
    as (r & w' & Hrun & Hrow & _ & _ & Howner).
  - discriminate.
  - vm_compute. reflexivity.
  - vm_compute. reflexivity.
  - reflexivity.
  - vm_compute. reflexivity.
  - reflexivity.
  - intros w. reflexivity.
  - exists r, w'. repeat split; assumption.
Defined.

(** ** The state manager: missing records and round trips *)

Lemma lookupState_None pid rows :
  lookupState pid rows = None ->
  forall s, In s rows -> String.eqb (projectId s) pid = false.
Proof.
  unfold lookupState. intros Hnone s Hin.
  apply (find_none _ _ Hnone s Hin).
Qed.

Lemma updateRows_missing pid u rows :
  lookupState pid rows = None -> updateRows pid u rows = rows.
Proof.
  intros Hnone. unfold updateRows. rewrite <- (map_id rows) at 2.
  apply map_ext_in. intros s Hin.
  now rewrite (lookupState_None pid rows Hnone s Hin).
Qed.

Lemma deleteRows_missing pid rows :
  lookupState pid rows = None ->
  List.filter (fun s => negb (String.eqb (projectId s) pid)) rows = rows.
Proof.
  intros Hnone. induction rows as [|s rows IH]; [reflexivity |].
  simpl. rewrite (lookupState_None pid _ Hnone s (or_introl eq_refl)). simpl.
  f_equal. apply IH. unfold lookupState in *. simpl in Hnone.
  now destruct (String.eqb (projectId s) pid).
Qed.

Lemma set_workflowStates_same f w :
  f (workflowStates w) = workflowStates w -> set_workflowStates f w = w.
Proof.
  intros Hf. destruct w. unfold set_workflowStates. simpl in *.
  now rewrite Hf.
Qed.

(** X13. The state manager on a project without a record: [getWorkflowState]
    returns null; [markNodeComplete], [markNodeFailed], [addPendingDecision]
    and [removePendingDecision] throw 'Workflow state not found for project:
    <id>'; [setCurrentNode], [completeWorkflow], [cancelWorkflow] and
    [deleteWorkflowState] return without an error. None of them changes
    anything. *)
Theorem state_operations_without_record (pid : string) (w : World) :
  stateIn pid w = None ->
  getWorkflowState pid w = Ok None w /\
  (forall nodeId,
      markNodeComplete pid nodeId w = Throw (stateNotFound pid) w /\
      markNodeFailed pid nodeId w = Throw (stateNotFound pid) w /\
      setCurrentNode pid nodeId w = Ok tt w) /\
  (forall decisionId,
      addPendingDecision pid decisionId w = Throw (stateNotFound pid) w /\
      removePendingDecision pid decisionId w
      = Throw (stateNotFound pid) w) /\
  completeWorkflow pid w = Ok tt w /\
  cancelWorkflow pid w = Ok tt w /\
  deleteWorkflowState pid w = Ok tt w.
Proof.
  intros Hnone.
  assert (Hupdate : forall u, updateWorkflowState pid u w = Ok tt w).
  { intros u. rewrite updateWorkflowState_eq. f_equal.
    apply set_workflowStates_same. now apply updateRows_missing. }
  split.
  { unfold getWorkflowState. fold (stateIn pid w). now rewrite Hnone. }
  split.
  { intros nodeId. rewrite markNodeComplete_eq, markNodeFailed_eq, Hnone.
    split; [reflexivity |]. split; [reflexivity | apply Hupdate]. }
  split.
  { intros decisionId.
    rewrite addPendingDecision_eq, removePendingDecision_eq, Hnone.
    now split. }
  split; [apply Hupdate |]. split; [apply Hupdate |].
  unfold deleteWorkflowState, modify. f_equal.
  apply set_workflowStates_same. now apply deleteRows_missing.
Qed.

(** X13 at a concrete input: project ["p"] in the empty database. *)
Lemma state_operations_without_record_witness :
  markNodeComplete "p" "A" emptyWorld = Throw (stateNotFound "p") emptyWorld
  /\ cancelWorkflow "p" emptyWorld = Ok tt emptyWorld.
Proof.
  destruct (state_operations_without_record "p" emptyWorld)
    as (_ & Hnode & _ & _ & Hcancel & _).
  - reflexivity.
  - split; [apply (Hnode "A") | exact Hcancel].
Defined.

(** X14. [addPendingDecision] followed by [removePendingDecision] of the
    same id. The add appends the id and pauses the run; the remove filters
    out every occurrence of the id and recomputes the status. For an id that
    was not pending before, the list is back to what it was, and so is the
    whole record when the run was running or paused, with paused meaning
    that something is pending. *)
Theorem pending_decision_round_trip (pid decisionId : string) (w : World)
    (s : WorkflowState) :
  stateIn pid w = Some s ->
  exists w1 w2 s1,
    addPendingDecision pid decisionId w = Ok tt w1 /\
    stateIn pid w1 = Some s1 /\
    pendingDecisions s1 = (pendingDecisions s ++ [decisionId])%list /\
    status s1 = paused /\
    removePendingDecision pid decisionId w1 = Ok tt w2 /\
    stateIn pid w2 = Some (afterRemoval decisionId s) /\
    (~ In decisionId (pendingDecisions s) ->
     pendingDecisions (afterRemoval decisionId s) = pendingDecisions s /\
     (pausedIffPending s ->
      status s = running \/ status s = paused ->
      afterRemoval decisionId s = s)).
Proof.
  intros Hs.
  set (s1 := applyUpdates
               (mkUpdates None None None
                  (Some (pendingDecisions s ++ [decisionId])%list)
                  (Some paused) None) s).
  set (w1 := set_workflowStates
               (updateRows pid
                  (mkUpdates None None None
                     (Some (pendingDecisions s ++ [decisionId])%list)
                     (Some paused) None)) w).
  assert (Hs1 : stateIn pid w1 = Some s1)
    by (unfold w1; now rewrite stateIn_update, Hs).
  assert (Hfilter :
    List.filter (fun id => negb (String.eqb id decisionId))
                (pendingDecisions s1)
    = List.filter (fun id => negb (String.eqb id decisionId))
                  (pendingDecisions s)).
  { unfold s1. simpl. rewrite List.filter_app. simpl.
    rewrite String.eqb_refl. simpl. apply app_nil_r. }
  eexists w1, _, s1.
  split; [now rewrite addPendingDecision_eq, Hs |].
  split; [assumption |]. split; [reflexivity |]. split; [reflexivity |].
  split; [rewrite removePendingDecision_eq, Hs1; reflexivity |].
  split.
  { rewrite stateIn_update, Hs1. cbn [option_map]. rewrite Hfilter.
    reflexivity. }
  intros Hnotin. unfold afterRemoval. rewrite (filter_absent _ _ Hnotin).
  split; [reflexivity |].
  intros [Hp Hn] Hstatus. destruct s as [i p c done failedL pend st m].
  unfold applyUpdates. simpl in *. f_equal.
  destruct pend as [|d ds]; simpl.
  - destruct Hstatus as [-> | Hpaused]; [reflexivity |].
    now elim (Hp Hpaused).
  - symmetry. now apply Hn.
Qed.

(** X14 at a concrete input: the decision ["d1"] on a fresh run. *)
Lemma pending_decision_round_trip_witness :
  exists w1 w2,
    addPendingDecision "p" "d1" freshRun = Ok tt w1 /\
    removePendingDecision "p" "d1" w1 = Ok tt w2 /\
    stateIn "p" w2 = stateIn "p" freshRun.
Proof.
  destruct (pending_decision_round_trip "p" "d1" freshRun
              (mkState "s0" "p" None [] [] [] running "{}"))
    as (w1 & w2 & s1 & Hadd & _ & _ & _ & Hremove & Hs2 & Hback).
  - reflexivity.
  - exists w1, w2. split; [exact Hadd |]. split; [exact Hremove |].
    rewrite Hs2. destruct Hback as [_ Hsame].
    + intros [].
    + rewrite Hsame; [reflexivity | | left; reflexivity].
      split; [discriminate | intros Hne; now destruct Hne].
Defined.

(** X15. [deleteWorkflowState] followed by [createWorkflowState], the reset
    of [startWorkflow], leaves the project with exactly one record, whatever
    records it had before: under a new id, running, with no current node and
    nothing completed, failed or pending. *)
Theorem reset_gives_a_fresh_record `{Collaborators} (pid : string)
    (w : World) :
  exists w1 w2,
    deleteWorkflowState pid w = Ok tt w1 /\
    stateIn pid w1 = None /\
    createWorkflowState pid w1 = Ok (nanoid_nth (idCounter w)) w2 /\
    stateIn pid w2
    = Some (mkState (nanoid_nth (idCounter w)) pid None [] [] [] running
                    "{}") /\
    List.filter (fun s => String.eqb (projectId s) pid) (workflowStates w2)
    = [mkState (nanoid_nth (idCounter w)) pid None [] [] [] running "{}"].
Proof.
  eexists. eexists. split; [reflexivity |].
  assert (Hnone : stateIn pid
            (set_workflowStates
               (List.filter (fun s => negb (String.eqb (projectId s) pid)))
               w) = None).
  { unfold stateIn. simpl (workflowStates _). apply lookupState_deleted. }
  split; [exact Hnone |]. split; [reflexivity |]. split.
  - unfold stateIn in *. simpl (workflowStates _) in *.
    rewrite lookupState_app, Hnone. unfold lookupState. simpl.
    now rewrite String.eqb_refl.
  - simpl (workflowStates _). rewrite List.filter_app. simpl.
    rewrite String.eqb_refl.
    assert (Hempty : forall rows,
      List.filter (fun s => String.eqb (projectId s) pid)
        (List.filter (fun s => negb (String.eqb (projectId s) pid)) rows)
      = []).
    { induction rows as [|s rows IH]; [reflexivity |]. simpl.
      destruct (String.eqb (projectId s) pid) eqn:Heq; simpl;
        [| rewrite Heq]; assumption. }
    now rewrite Hempty.
Qed.






(** ** One batch of the run loop *)

(** X17. A node whose retry policy has a negative [maxRetries] is failed
    without its delegate being invoked: the loop [while (retries <=
    maxRetries)] is not entered, so [executeNode] makes no delegate call, no
    advisory check and no sleep, appends the node to [failedNodes] and sets
    the run to failed. *)
Theorem negative_retry_budget_fails_unattempted `{Collaborators}
    (node : WorkflowNodeType) (pid input : string)
    (sessionId : option string) (w : World) (s : WorkflowState)
    (policy : RetryPolicy) :
  retryPolicy node = Some policy ->
  maxRetries policy < 0 ->
  stateIn pid w = Some s ->
  exists w' s',
    executeNode node pid input sessionId w
    = Ok (mkNodeResult (node_id node) node_failed false None None) w' /\
    agentCalls w' = agentCalls w /\
    advisoryCalls w' = advisoryCalls w /\
    sleeps w' = sleeps w /\
    stateIn pid w' = Some s' /\
    failedNodes s' = (failedNodes s ++ [node_id node])%list /\
    completedNodes s' = completedNodes s /\
    status s' = failed /\
    currentNode s' = None.
Proof.
  intros Hpolicy Hneg Hs.
  assert (Hmax : effectiveMaxRetries node = maxRetries policy).
  { unfold effectiveMaxRetries. rewrite Hpolicy. simpl.
    destruct (maxRetries policy =? 0) eqn:Hz; [| reflexivity].
    apply Z.eqb_eq in Hz. lia. }
  unfold executeNode, setCurrentNode.
  unfold bind at 1. rewrite updateWorkflowState_eq.
  unfold bind at 1. unfold orchestratorEvent at 1, logEvent, nanoid,
    bind at 1, modify.
  unfold bind at 1.
  assert (Hloop : forall fuel w0,
    retryLoop fuel node pid input sessionId 0 None w0
    = Ok (inr (0, None)) w0).
  { intros fuel w0. destruct fuel; simpl;
      (destruct (0 <=? effectiveMaxRetries node) eqn:Hle;
       [apply Z.leb_le in Hle; lia | reflexivity]). }
  rewrite Hloop. unfold bind at 1. rewrite markNodeFailed_eq.
  set (w2 := set_logEvents _ _).
  assert (Hs2 : stateIn pid w2 = Some (started node s)).
  { unfold w2, stateIn. simpl (workflowStates _).
    rewrite lookupState_updateRows. fold (stateIn pid w). now rewrite Hs. }
  rewrite Hs2. unfold orchestratorEvent, logEvent, nanoid, bind, modify, ret.
  eexists. eexists. split; [reflexivity |].
  split; [reflexivity |]. split; [reflexivity |]. split; [reflexivity |].
  split.
  { etransitivity; [exact (stateIn_update pid _ w2) |].
    rewrite Hs2. reflexivity. }
  now repeat split.
Qed.

(** X17 at a concrete input: a node with [maxRetries: -1] on a fresh run. *)
Lemma negative_retry_budget_fails_unattempted_witness :
  exists w' s',
    executeNode (H := demo) negativeRetryNode "p" "{}" None freshRun
    = Ok (mkNodeResult "A" node_failed false None None) w' /\
    agentCalls w' = [] /\
    stateIn "p" w' = Some s' /\
    failedNodes s' = ["A"] /\
    status s' = failed.
Proof.
  destruct (negative_retry_budget_fails_unattempted (H := demo)
              negativeRetryNode "p" "{}" None freshRun
              (mkState "s0" "p" None [] [] [] running "{}")
              (mkRetryPolicy (-1) 0))
    as (w' & s' & Hrun & Hcalls & _ & _ & Hs' & Hfailed & _ & Hstatus & _).
  - reflexivity.
  - simpl. lia.
  - reflexivity.
  - exists w', s'. repeat split; assumption.
Defined.

Section Answers.

Context `{Collaborators}.

Variables (node : WorkflowNodeType) (pid input : string)
          (sessionId : option string).

(** A delegate that always gives the same successful answer is invoked
    once. *)
Lemma executeNode_answers w s output :
  0 <= effectiveMaxRetries node ->
  stateIn pid w = Some s ->
  alwaysAnswers node pid input sessionId output ->
  success output = true ->
  exists w',
    executeNode node pid input sessionId w
    = Ok (fst (attemptWrite node output (started node s))) w' /\
    agentCalls w' = (agentCalls w ++ [agentId node])%list /\
    sleeps w' = sleeps w /\
    stateIn pid w' = Some (snd (attemptWrite node output (started node s))).
Proof.
  intros Hmax Hs Hanswers Hsucc.
  pose proof (executeNode_spec node pid input sessionId w) as Hspec.
  destruct (executeNode node pid input sessionId w) as [r w' | msg w' |];
    [| | contradiction].
  2: { destruct Hspec as (Hnostate & _). congruence. }
  destruct Hspec as (_ & s0 & Hs0 & Hcases).
  rewrite Hs in Hs0. inversion Hs0; subst s0. clear Hs0.
  assert (Hnofail : forall w1,
            ~ failedReply (agent_run (agentId node) input pid sessionId w1)).
  { intros w1. unfold failedReply. rewrite (Hanswers w1). congruence. }
  destruct Hcases as [Hret | Hex].
  - destruct Hret as (j & output' & Hj & [Hc Hsl] & _ & (w0 & Hreply) & Hr
                      & Hs' & Hwhy).
    rewrite (Hanswers w0) in Hreply. inversion Hreply; subst output'.
    assert (j = 0%nat).
    { destruct j; [reflexivity |].
      destruct Hwhy as (w1 & Hfail); [lia |]. now elim (Hnofail w1). }
    subst j r. simpl in Hc, Hsl. rewrite app_nil_r in Hsl.
    exists w'. now repeat split.
  - destruct Hex as (_ & _ & _ & _ & _ & Hwhy).
    destruct (Hwhy Hmax) as (w1 & Hfail). now elim (Hnofail w1).
Qed.

End Answers.

(** X18. When the first eligible node requires approval and its delegate
    answers with a decision id, [executeNextNodes] invokes that delegate
    once, registers the decision and returns 'paused' with that one node
    result: the other eligible nodes of the batch are not executed, and the
    node stays the current node and is not completed. *)
Theorem approval_pauses_and_skips_the_rest `{Collaborators}
    (workflow : WorkflowType) (pid input : string)
    (sessionId : option string) (w : World) (s : WorkflowState)
    (node : WorkflowNodeType) (rest : list WorkflowNodeType)
    (output : AgentOutputType) (decisionId : string) :
  stateIn pid w = Some s ->
  status s = running ->
  getNextNodes workflow (completedNodes s) (failedNodes s) = node :: rest ->
  requiresApproval node = true ->
  0 <= effectiveMaxRetries node ->
  alwaysAnswers node pid input sessionId output ->
  success output = true ->
  decisionIdOf output = Some decisionId ->
  exists w' s',
    executeNextNodes workflow pid input sessionId w
    = Ok (PausedBatch
            [mkNodeResult (node_id node) awaiting_approval true
                          (Some decisionId) None]) w' /\
    agentCalls w' = (agentCalls w ++ [agentId node])%list /\
    stateIn pid w' = Some s' /\
    status s' = paused /\
    pendingDecisions s' = (pendingDecisions s ++ [decisionId])%list /\
    currentNode s' = Some (node_id node) /\
    completedNodes s' = completedNodes s /\
    failedNodes s' = failedNodes s.
Proof.
  intros Hs Hrunning Hnext Happroval Hmax Hanswers Hsucc Hdecision.
  destruct (executeNode_answers node pid input sessionId w s output
              Hmax Hs Hanswers Hsucc) as (w' & Hrun & Hcalls & _ & Hs').
  unfold attemptWrite in Hrun, Hs'. rewrite Happroval, Hdecision in Hrun, Hs'.
  cbn [fst snd] in Hrun, Hs'.
  exists w'. eexists. split.
  { unfold executeNextNodes. cbn [executeNextNodes_fuel].
    unfold bind at 1, getWorkflowState. fold (stateIn pid w).
    rewrite Hs, Hrunning, Hnext. cbn [List.length Nat.eqb executeBatch].
    unfold bind at 1, bind at 1. rewrite Hrun.
    cbn [result_requiresApproval app]. unfold ret. cbn [existsb].
    cbn [result_requiresApproval orb]. reflexivity. }
  split; [assumption |]. split; [exact Hs' |]. now repeat split.
Qed.

(** X18 at a concrete input: two roots, of which the first requires
    approval. *)
Lemma approval_pauses_and_skips_the_rest_witness :
  exists w' s',
    executeNextNodes (H := demo) gateFlow "p" "{}" None freshRun
    = Ok (PausedBatch
            [mkNodeResult "B" awaiting_approval true (Some "d1") None]) w' /\
    agentCalls w' = ["strategy_agent"] /\
    stateIn "p" w' = Some s' /\
    status s' = paused /\
    pendingDecisions s' = ["d1"] /\
    completedNodes s' = [].
Proof.
  destruct (approval_pauses_and_skips_the_rest (H := demo) gateFlow "p"
              "{}" None freshRun
              (mkState "s0" "p" None [] [] [] running "{}")
              (simpleNode "B" "strategy_agent" [] true None)
              [simpleNode "C" "ok_agent" [] false None]
              (mkAgentOutput true (Some (mkAgentData (Some "d1"))) None)
              "d1")
    as (w' & s' & Hrun & Hcalls & Hs' & Hstatus & Hpending & _ & Hdone & _).
  - reflexivity.
  - reflexivity.
  - reflexivity.
  - reflexivity.
  - vm_compute. discriminate.
  - intros w. reflexivity.
  - reflexivity.
  - reflexivity.
  - exists w', s'. repeat split; assumption.
Defined.

(** X19. A failed node does not stop the rest of its batch. With two
    eligible nodes of which the first always fails and the second succeeds,
    [executeNextNodes] exhausts the attempts of the first, still invokes the
    second once and marks it completed, and returns the terminal snapshot
    with status failed. *)
Theorem failure_does_not_stop_siblings `{Collaborators}
    (workflow : WorkflowType) (pid input : string)
    (sessionId : option string) (w : World) (s : WorkflowState)
    (a b : WorkflowNodeType) (output : AgentOutputType) :
  stateIn pid w = Some s ->
  status s = running ->
  getNextNodes workflow (completedNodes s) (failedNodes s) = [a; b] ->
  alwaysFails a pid input sessionId ->
  0 <= effectiveMaxRetries b ->
  alwaysAnswers b pid input sessionId output ->
  success output = true ->
  (requiresApproval b = true -> decisionIdOf output = None) ->
  exists w' s',
    executeNextNodes workflow pid input sessionId w
    = Ok (Terminal failed (completedNodes s ++ [node_id b])
                   (failedNodes s ++ [node_id a])) w' /\
    agentCalls w'
    = (agentCalls w
       ++ repeat (agentId a) (Z.to_nat (effectiveMaxRetries a + 1))
       ++ [agentId b])%list /\
    stateIn pid w' = Some s' /\
    status s' = failed /\
    completedNodes s' = (completedNodes s ++ [node_id b])%list /\
    failedNodes s' = (failedNodes s ++ [node_id a])%list.
Proof.
  intros Hs Hrunning Hnext Hfails Hmax Hanswers Hsucc Hnone.
  destruct (executeNode_alwaysFails a pid input sessionId w s Hs Hfails)
    as (ra & w1 & Hrun1 & _ & (Hcalls1 & _) & _ & _ & Hreq1 & Hs1 & _).
  destruct (executeNode_answers b pid input sessionId w1 _ output
              Hmax Hs1 Hanswers Hsucc) as (w2 & Hrun2 & Hcalls2 & _ & Hs2).
  assert (Hwrite : attemptWrite b output
                     (started b (failedState a (started a s)))
                   = (mkNodeResult (node_id b) node_completed false None None,
                      applyUpdates
                        (mkUpdates (Some None)
                           (Some (completedNodes s ++ [node_id b])%list)
                           None None None None)
                        (started b (failedState a (started a s))))).
  { unfold attemptWrite. destruct (requiresApproval b); [| reflexivity].
    now rewrite (Hnone eq_refl). }
  rewrite Hwrite in Hrun2, Hs2. cbn [fst snd] in Hrun2, Hs2.
  assert (Hlen : exists n, List.length (nodes workflow) = S n).
  { assert (Hin : In a (nodes workflow)).
    { assert (Ha : In a (getNextNodes workflow (completedNodes s)
                                      (failedNodes s)))
        by (rewrite Hnext; now left).
      apply getNextNodes_spec in Ha. tauto. }
    destruct (nodes workflow); [destruct Hin | eauto]. }
  destruct Hlen as (n & Hlen).
  exists w2. eexists. split.
  { unfold executeNextNodes. cbn [executeNextNodes_fuel].
    unfold bind at 1, getWorkflowState. fold (stateIn pid w).
    rewrite Hs, Hrunning, Hnext. cbn [List.length Nat.eqb executeBatch].
    unfold bind at 1, bind at 1. rewrite Hrun1, Hreq1.
    unfold bind at 1. rewrite Hrun2.
    cbn [result_requiresApproval app]. unfold ret. cbn [existsb].
    rewrite Hreq1. cbn [result_requiresApproval orb]. rewrite Hlen.
    rewrite (executeNextNodes_fuel_terminal _ _ _ _ _ _ _ Hs2
                                            (or_intror eq_refl)).
    reflexivity. }
  split; [rewrite Hcalls2, Hcalls1, <- app_assoc; reflexivity |].
  split; [exact Hs2 |]. now repeat split.
Qed.

(** X19 at a concrete input: two roots, of which the first always fails. *)
Lemma failure_does_not_stop_siblings_witness :
  exists w' s',
    executeNextNodes (H := demo) twoRoots "p" "{}" None freshRun
    = Ok (Terminal failed ["B"] ["A"]) w' /\
    agentCalls w' = ["failing_agent"; "ok_agent"] /\
    stateIn "p" w' = Some s' /\
    status s' = failed.
Proof.
  destruct (failure_does_not_stop_siblings (H := demo) twoRoots "p" "{}"
              None freshRun
              (mkState "s0" "p" None [] [] [] running "{}")
              (simpleNode "A" "failing_agent" [] false None)
              (simpleNode "B" "ok_agent" [] false None)
              (mkAgentOutput true (Some (mkAgentData None)) None))
    as (w' & s' & Hrun & Hcalls & Hs' & Hstatus & _).
  - reflexivity.
  - reflexivity.
  - reflexivity.
  - intros w. reflexivity.
  - vm_compute. discriminate.
  - intros w. reflexivity.
  - reflexivity.
  - intros _. reflexivity.
  - exists w', s'. repeat split; assumption.
Defined.

(** ** The execution graph and [initialize] *)

Lemma find_app {A} (p : A -> bool) (l k : list A) :
  List.find p (l ++ k)
  = match List.find p l with
    | Some x => Some x
    | None => List.find p k
    end.
Proof.
  induction l as [|a l IH]; simpl; [reflexivity |]. now destruct (p a).
Qed.

Lemma buildExecutionGraph_fold ns :
  forall (graph : gmap string (list string)) x,
    x <> "__proto__"%string ->
    fold_left
      (fun graph node =>
         if String.eqb (node_id node) "__proto__" then graph
         else <[node_id node := dependencies node]> graph) ns graph !! x
    = match List.find (fun n => String.eqb (node_id n) x) (rev ns) with
      | Some n => Some (dependencies n)
      | None => graph !! x
      end.
Proof.
  induction ns as [|n ns IH]; intros graph x Hx; simpl; [reflexivity |].
  rewrite IH by assumption. rewrite find_app.
  destruct (List.find _ (rev ns)) as [m|]; [reflexivity |]. simpl.
  destruct (String.eqb (node_id n) x) eqn:Heq.
  - apply String.eqb_eq in Heq. subst x.
    destruct (String.eqb (node_id n) "__proto__") eqn:Hp.
    + apply String.eqb_eq in Hp. contradiction.
    + apply lookup_insert_eq.
  - apply String.eqb_neq in Heq.
    destruct (String.eqb (node_id n) "__proto__"); [reflexivity |].
    now apply lookup_insert_ne.
Qed.

Lemma findLast_unique workflow node :
  List.NoDup (map node_id (nodes workflow)) ->
  In node (nodes workflow) ->
  findLastNode workflow (node_id node) = Some node.
Proof.
  unfold findLastNode. intros Hnd Hin.
  destruct (List.find _ (rev (nodes workflow))) as [m|] eqn:Hfind.
  - apply find_some in Hfind. destruct Hfind as [Hm Heq].
    apply in_rev in Hm. apply String.eqb_eq in Heq.
    f_equal. clear - Hnd Hin Hm Heq.
    induction (nodes workflow) as [|n ns IH]; [destruct Hin |].
    simpl in Hnd. inversion Hnd as [|? ? Hnotin Hnd']; subst.
    destruct Hin as [-> | Hin], Hm as [-> | Hm]; try reflexivity.
    + exfalso. apply Hnotin. rewrite <- Heq. now apply in_map.
    + exfalso. apply Hnotin. rewrite Heq. now apply in_map.
    + now apply IH.
  - exfalso. apply in_rev in Hin.
    pose proof (find_none _ _ Hfind node Hin) as Hno. simpl in Hno.
    now rewrite String.eqb_refl in Hno.
Qed.

(** X20. [buildExecutionGraph] has, for each node id other than
    ['__proto__'], one own key, which holds the dependencies of the last
    node with that id, and no key for any other text; ['__proto__'] never
    becomes a key. When the ids are distinct, [y] is a dependency of [x] in
    the workflow iff [y] is in the entry of [x]. *)
Theorem execution_graph_lookup (workflow : WorkflowType) :
  (forall x, x <> "__proto__"%string ->
             buildExecutionGraph workflow !! x
             = option_map dependencies (findLastNode workflow x)) /\
  buildExecutionGraph workflow !! "__proto__"%string = None /\
  (List.NoDup (map node_id (nodes workflow)) ->
   forall x y, x <> "__proto__"%string ->
     (dependsOn workflow x y <->
      exists deps, buildExecutionGraph workflow !! x = Some deps
                   /\ In y deps)).
Proof.
  assert (Hlookup : forall x, x <> "__proto__"%string ->
            buildExecutionGraph workflow !! x
            = option_map dependencies (findLastNode workflow x)).
  { intros x Hx. unfold buildExecutionGraph, findLastNode.
    rewrite buildExecutionGraph_fold by assumption.
    now destruct (List.find _ (rev (nodes workflow))). }
  split; [exact Hlookup |]. split.
  { unfold buildExecutionGraph.
    assert (Hkeep : forall ns (graph : gmap string (list string)),
      graph !! "__proto__"%string = None ->
      fold_left
        (fun graph node =>
           if String.eqb (node_id node) "__proto__" then graph
           else <[node_id node := dependencies node]> graph) ns graph
      !! "__proto__"%string = None).
    { induction ns as [|n ns IH]; intros graph Hg; simpl; [assumption |].
      apply IH. destruct (String.eqb (node_id n) "__proto__") eqn:Hp;
        [assumption |].
      apply String.eqb_neq in Hp. now rewrite lookup_insert_ne. }
    now apply Hkeep. }
  intros Hnd x y Hx. rewrite (dependsOn_unique_ids workflow x y Hnd).
  rewrite (Hlookup x Hx). split.
  - intros (node & Hin & <- & Hy). exists (dependencies node).
    now rewrite (findLast_unique workflow node Hnd Hin).
  - intros (deps & Hfind & Hy).
    destruct (findLastNode workflow x) as [node|] eqn:Hlast;
      [| discriminate].
    simpl in Hfind. inversion Hfind; subst deps.
    unfold findLastNode in Hlast. apply find_some in Hlast.
    destruct Hlast as [Hin Heq]. apply in_rev in Hin.
    apply String.eqb_eq in Heq. now exists node.
Qed.

(** X21. Validation guards the first call only. On an orchestrator whose
    workflow is not loaded, [startWorkflow] with a workflow that
    [validateWorkflow] rejects throws 'Invalid workflow: <errors>' and
    writes nothing, but leaves the workflow assigned: every later call skips
    [initialize], runs the rejected workflow and returns. *)
Theorem validation_guards_first_call_only `{Collaborators}
    (workflow : WorkflowType) (v : ValidationResult) (pid input : string)
    (sessionId : option string) (w : World) :
  validateWorkflow workflow = Some v ->
  valid v = false ->
  startWorkflowMethod (inl workflow) pid input sessionId None w
  = (Some workflow, Throw (invalidWorkflow (errors v)) w) /\
  forall loaded,
    startWorkflowMethod loaded pid input sessionId (Some workflow) w
    = (Some workflow, startWorkflow workflow pid input sessionId w) /\
    exists r w', startWorkflow workflow pid input sessionId w = Ok r w'.
Proof.
  intros Hrun Hvalid. split.
  - unfold startWorkflowMethod, initialize. now rewrite Hrun, Hvalid.
  - intros loaded. split; [reflexivity |].
    destruct (startWorkflow_trace workflow pid input sessionId w)
      as (r & w' & _ & _ & Hstart & _). now exists r, w'.
Qed.

(** X21 at a concrete input: the cyclic graph, with its three errors. *)
Lemma validation_guards_first_call_only_witness :
  startWorkflowMethod (H := demo) (inl cyclicGraph) "p" "{}" None None
                      emptyWorld
  = (Some cyclicGraph,
     Throw (invalidWorkflow
              ["Circular dependency detected involving node: A";
               "Circular dependency detected involving node: B";
               "Node C depends on non-existent node: D"]) emptyWorld) /\
  forall loaded,
    startWorkflowMethod (H := demo) loaded "p" "{}" None (Some cyclicGraph)
                        emptyWorld
    = (Some cyclicGraph,
       startWorkflow (H := demo) cyclicGraph "p" "{}" None emptyWorld) /\
    exists r w',
      startWorkflow (H := demo) cyclicGraph "p" "{}" None emptyWorld
      = Ok r w'.
Proof.
  apply (validation_guards_first_call_only (H := demo) cyclicGraph
           (mkValidation false
              ["Circular dependency detected involving node: A";
               "Circular dependency detected involving node: B";
               "Node C depends on non-existent node: D"])).
  - vm_compute. reflexivity.
  - reflexivity.
Defined.

(** ** The route handlers *)

(** X22. [POST /api/decisions/[decisionId]/approve] answers 400 and changes
    nothing when [projectId] or [selectedOption] is missing or empty.
    Otherwise it answers 500 with 'Workflow state not found for project:
    <id>' when the project has no record, and else 200 with [success: true]
    and the result of [approveDecision] as data, also when that result is a
    refusal such as 'Invalid option selected: <option>'. *)
Theorem approve_route_answers `{Collaborators} (workflow : WorkflowType)
    (decisionId pid selected : string) (sessionId : option string)
    (w : World) :
  (forall body,
      missing (approve_projectId body)
      || missing (approve_selectedOption body) = true ->
      approveRoute workflow decisionId body w
      = Ok (mkResponse 400 None None
              (Some "projectId and selectedOption are required") None) w) /\
  (pid <> ""%string -> selected <> ""%string ->
  let body := mkApproveBody (Some pid) (Some selected) sessionId in
  match stateIn pid w with
  | None =>
      approveRoute workflow decisionId body w
      = Ok (mkResponse 500 (Some false) None (Some (stateNotFound pid)) None)
           w
  | Some s =>
      exists result w',
        approveDecision workflow pid decisionId selected sessionId w
        = Ok result w' /\
        approveRoute workflow decisionId body w
        = Ok (mkResponse 200 (Some true) (Some result) None None) w' /\
        forall decision,
          lookupDecision decisionId w = Some decision ->
          lookupOption selected decision = None ->
          result
          = NotProcessed
              (notProcessed ("Invalid option selected: " ++ selected)%string)
  end).
Proof.
  split.
  { intros body Hmissing. unfold approveRoute. now rewrite Hmissing. }
  intros Hpid Hselected body.
  assert (Hbody : missing (approve_projectId body)
                  || missing (approve_selectedOption body) = false).
  { simpl. apply String.eqb_neq in Hpid, Hselected.
    now rewrite Hpid, Hselected. }
  assert (Hp : strOr (approve_projectId body) "" = pid).
  { simpl. apply String.eqb_neq in Hpid. now rewrite Hpid. }
  assert (Hsel : strOr (approve_selectedOption body) "" = selected).
  { simpl. apply String.eqb_neq in Hselected. now rewrite Hselected. }
  unfold approveRoute. rewrite Hbody, Hp, Hsel.
  change (approve_sessionId body) with sessionId.
  destruct (stateIn pid w) as [s|] eqn:Hs.
  - destruct (approvalStage_cases pid decisionId selected sessionId w s Hs)
      as (result & w1 & Hstage & Hs1 & _ & _ & Heffect).
    assert (Hcall : exists r w',
      approveDecision workflow pid decisionId selected sessionId w = Ok r w'
      /\ (success result = false -> r = NotProcessed result)).
    { rewrite approveDecision_stages. unfold bind at 1. rewrite Hstage.
      destruct (success result) eqn:Hsucc.
      - destruct (approvalResume_success workflow pid sessionId result w1 _
                    Hsucc Hs1)
          as (_ & r & w' & _ & _ & _ & _ & _ & _ & _ & Hresume & _).
        exists (Resumed r), w'. split; [assumption | discriminate].
      - rewrite approvalResume_failure by assumption.
        exists (NotProcessed result), w1. now split. }
    destruct Hcall as (r & w' & Hcall & Hfailed).
    exists r, w'. split; [assumption |]. split.
    + unfold tryCatch, bind. now rewrite Hcall.
    + intros decision Hdecision Hoption. unfold approvalEffect in Heffect.
      rewrite Hdecision, Hoption in Heffect. destruct Heffect as (-> & _).
      now apply Hfailed.
  - unfold tryCatch, bind at 1. rewrite approveDecision_stages.
    unfold bind at 1. now rewrite approvalStage_missing.
Qed.

(** X22 at a concrete input: a well-formed request for a project without a
    record. *)
Lemma approve_route_answers_witness :
  approveRoute (H := demo) approvalFlow "d1"
               (mkApproveBody (Some "p") (Some "bold") None) emptyWorld
  = Ok (mkResponse 500 (Some false) None (Some (stateNotFound "p")) None)
       emptyWorld.
Proof.
  destruct (approve_route_answers (H := demo) approvalFlow "d1" "p" "bold"
              None emptyWorld) as [_ Hanswer].
  apply Hanswer; discriminate.
Defined.

(** X23. [POST /api/orchestrator/stop] answers 400 when [projectId] is
    missing or empty and 200 'Workflow stopped' otherwise, never 500: also
    for a project without a record, where nothing changes. With a record the
    status becomes failed and the current node is cleared, while the pending
    decisions and the completed and failed nodes are kept. *)
Theorem stop_route_answers (projectId : option string) (w : World) :
  if missing projectId then
    stopRoute projectId w
    = Ok (mkResponse 400 None None (Some "projectId is required") None) w
  else
    exists w',
      stopRoute projectId w
      = Ok (mkResponse 200 (Some true) None None (Some "Workflow stopped"))
           w' /\
      cancelWorkflow (strOr projectId "") w = Ok tt w' /\
      (stateIn (strOr projectId "") w = None -> w' = w) /\
      (forall s, stateIn (strOr projectId "") w = Some s ->
         exists s', stateIn (strOr projectId "") w' = Some s' /\
                    status s' = failed /\ currentNode s' = None /\
                    pendingDecisions s' = pendingDecisions s /\
                    completedNodes s' = completedNodes s /\
                    failedNodes s' = failedNodes s).
Proof.
  unfold stopRoute. destruct (missing projectId); [reflexivity |].
  set (pid := strOr projectId "").
  exists (set_workflowStates
            (updateRows pid
               (mkUpdates (Some None) None None None (Some failed) None)) w).
  split; [reflexivity |]. split; [reflexivity |]. split.
  - intros Hnone. apply set_workflowStates_same.
    now apply updateRows_missing.
  - intros s Hs. eexists. split.
    + rewrite stateIn_update, Hs. reflexivity.
    + now repeat split.
Qed.

(** ** The memory tool *)

Lemma mapGet_mapSet {A} key (value : A) m :
  mapGet key (mapSet key value m) = Some value.
Proof.
  unfold mapGet. induction m as [|[k v] m IH]; simpl.
  - now rewrite String.eqb_refl.
  - destruct (String.eqb k key) eqn:Heq; simpl.
    + now rewrite String.eqb_refl.
    + now rewrite Heq.
Qed.

Lemma mapGet_mapSet_ne {A} key other (value : A) m :
  other <> key -> mapGet other (mapSet key value m) = mapGet other m.
Proof.
  intros Hne. unfold mapGet. induction m as [|[k v] m IH]; simpl.
  - apply String.eqb_neq in Hne. rewrite String.eqb_sym in Hne.
    now rewrite Hne.
  - destruct (String.eqb k key) eqn:Heq; simpl.
    + apply String.eqb_eq in Heq. subst k.
      apply String.eqb_neq in Hne. rewrite String.eqb_sym in Hne.
      now rewrite Hne.
    + destruct (String.eqb k other); [reflexivity | exact IH].
Qed.

Lemma missing_false x : missing x = false -> x = Some (strOr x "").
Proof.
  destruct x as [v|]; simpl; [| discriminate].
  intros Hv. now rewrite Hv.
Qed.

Section MemoryFacts.

Variable Value : Type.

(** X24. Round trip of the memory tool: after [storeMemory] with a non-empty
    project id and key, [retrieveMemory] of that project and key returns the
    stored value and metadata with the timestamp of the store, and
    [retrieveMemory] of any other project or key answers what it answered
    before. *)
Theorem stored_memory_is_retrieved (projectId key : string)
    (value metadata : Value) (query : option string) (limit : option Z)
    (now : string)
    (store : gmap string (JsMap (MemoryEntry Value))) :
  projectId <> ""%string -> key <> ""%string ->
  let params :=
    mkParams (Some projectId) (Some key) value metadata query limit in
  exists store',
    storeMemory params now store = (succeeded (Stored key), store') /\
    (forall value' metadata' query' limit',
        retrieveMemory
          (mkParams (Some projectId) (Some key) value' metadata' query'
                    limit') store'
        = (succeeded (Retrieved (mkEntry value metadata now)), store')) /\
    (forall otherProject otherKey value' metadata' query' limit',
        (otherProject, otherKey) <> (projectId, key) ->
        fst (retrieveMemory
               (mkParams (Some otherProject) (Some otherKey) value'
                         metadata' query' limit') store')
        = fst (retrieveMemory
                 (mkParams (Some otherProject) (Some otherKey) value'
                           metadata' query' limit') store)).
Proof.
  intros Hp Hk params.
  assert (Hpe : String.eqb projectId "" = false) by now apply String.eqb_neq.
  assert (Hke : String.eqb key "" = false) by now apply String.eqb_neq.
  unfold storeMemory, retrieveMemory, getMemoryStore, params.
  cbn [param_projectId param_key param_value param_metadata missing strOr].
  rewrite Hpe, Hke. cbn [orb].
  destruct (store !! projectId) as [memory|] eqn:Hstore.
  - eexists. split; [reflexivity |]. split.
    + intros. rewrite lookup_insert_eq, mapGet_mapSet. reflexivity.
    + intros otherProject otherKey value' metadata' query' limit' Hother.
      destruct (String.eqb otherProject "") eqn:Hop; [reflexivity |].
      destruct (String.eqb otherKey "") eqn:Hok; [reflexivity |].
      cbn [orb].
      destruct (decide (otherProject = projectId)) as [-> | Hne].
      * rewrite lookup_insert_eq, Hstore.
        rewrite mapGet_mapSet_ne by congruence.
        now destruct (mapGet otherKey memory).
      * rewrite lookup_insert_ne by congruence.
        destruct (store !! otherProject) as [m|];
          [now destruct (mapGet otherKey m) | reflexivity].
  - eexists. split; [reflexivity |]. split.
    + intros. rewrite lookup_insert_eq, mapGet_mapSet. reflexivity.
    + intros otherProject otherKey value' metadata' query' limit' Hother.
      destruct (String.eqb otherProject "") eqn:Hop; [reflexivity |].
      destruct (String.eqb otherKey "") eqn:Hok; [reflexivity |].
      cbn [orb].
      destruct (decide (otherProject = projectId)) as [-> | Hne].
      * rewrite lookup_insert_eq, Hstore.
        rewrite mapGet_mapSet_ne by congruence. reflexivity.
      * rewrite !lookup_insert_ne by congruence.
        destruct (store !! otherProject) as [m|];
          [now destruct (mapGet otherKey m) | reflexivity].
Qed.

Variable stringifyLower : Value -> string + string.

Variable toLowerCase : string -> string.

Lemma searchLoop_limit queryLower limit entries :
  serialisable stringifyLower entries ->
  1 <= limit ->
  forall results,
    Z.of_nat (List.length results) < limit ->
    searchLoop stringifyLower queryLower limit entries results
    = inl (results
           ++ firstn (Z.to_nat limit - List.length results)
                (List.filter (matchesQuery stringifyLower queryLower)
                             entries))%list.
Proof.
  intros Hok Hlimit. induction entries as [|[key data] rest IH];
    intros results Hroom; simpl.
  - now rewrite firstn_nil, app_nil_r.
  - destruct (Hok (key, data) (or_introl eq_refl)) as (valueStr & Hstr).
    simpl in Hstr. unfold matchesQuery at 1. simpl. rewrite Hstr.
    assert (Hrest : serialisable stringifyLower rest)
      by (intros e He; apply Hok; now right).
    destruct (includesText valueStr queryLower).
    + rewrite length_app. simpl.
      destruct (limit <=? Z.of_nat (List.length results + 1)) eqn:Hfull.
      * apply Z.leb_le in Hfull.
        replace (Z.to_nat limit - List.length results)%nat with 1%nat by lia.
        simpl. now rewrite firstn_O.
      * apply Z.leb_gt in Hfull. rewrite IH; [| assumption |];
          rewrite ?length_app; simpl; [| lia].
        rewrite <- app_assoc. simpl.
        replace (Z.to_nat limit - List.length results)%nat
          with (S (Z.to_nat limit - (List.length results + 1)))%nat by lia.
        reflexivity.
    + destruct (limit <=? Z.of_nat (List.length results)) eqn:Hfull;
        [apply Z.leb_le in Hfull; lia |].
      now apply IH.
Qed.

(** X25. [searchMemory] on a project that has memory, all of whose values
    can be serialised, returns in insertion order the first [limit] entries
    whose serialised value contains the lower-cased query ([limit] is 10
    when absent), and [count] is their number. The limit is tested after an
    entry has been looked at, so with a limit below 1 the first entry is
    still returned when it matches; the number of results is at most the
    larger of [limit] and 1. *)
Theorem search_returns_first_matches (projectId query : string)
    (key : option string) (value metadata : Value) (limit : option Z)
    (store : gmap string (JsMap (MemoryEntry Value)))
    (memory : JsMap (MemoryEntry Value)) :
  projectId <> ""%string -> query <> ""%string ->
  store !! projectId = Some memory ->
  serialisable stringifyLower memory ->
  let params :=
    mkParams (Some projectId) key value metadata (Some query) limit in
  let bound := match limit with Some n => n | None => 10 end in
  let matches :=
    List.filter (matchesQuery stringifyLower (toLowerCase query)) in
  let results :=
    if 1 <=? bound then firstn (Z.to_nat bound) (matches memory)
    else matches (firstn 1 memory) in
  searchMemory stringifyLower toLowerCase params store
  = (succeeded (Found results (Z.of_nat (List.length results))), store) /\
  Z.of_nat (List.length results) <= Z.max bound 1.
Proof.
  intros Hp Hq Hstore Hok params bound matches results.
  assert (Hpe : String.eqb projectId "" = false) by now apply String.eqb_neq.
  assert (Hqe : String.eqb query "" = false) by now apply String.eqb_neq.
  assert (Hloop : searchLoop stringifyLower (toLowerCase query) bound
                             memory [] = inl results).
  { unfold results. destruct (1 <=? bound) eqn:Hb.
    - apply Z.leb_le in Hb. rewrite searchLoop_limit; try assumption.
      + simpl. now rewrite Nat.sub_0_r.
      + simpl. lia.
    - apply Z.leb_gt in Hb. destruct memory as [|[k data] rest];
        [reflexivity |].
      simpl. destruct (Hok (k, data) (or_introl eq_refl)) as (valueStr & Hstr).
      simpl in Hstr. unfold matches, matchesQuery. simpl. rewrite Hstr.
      destruct (includesText valueStr (toLowerCase query)); simpl.
      + assert (Hfull : (bound <=? Z.of_nat 1) = true)
          by (apply Z.leb_le; simpl; lia).
        now rewrite Hfull.
      + assert (Hfull : (bound <=? Z.of_nat 0) = true)
          by (apply Z.leb_le; simpl; lia).
        now rewrite Hfull. }
  split.
  - unfold searchMemory, getMemoryStore, params.
    cbn [param_projectId param_query param_limit missing strOr].
    rewrite Hpe, Hqe. cbn [orb]. rewrite Hstore.
    fold bound. now rewrite Hloop.
  - unfold results. destruct (1 <=? bound) eqn:Hb.
    + apply Z.leb_le in Hb. pose proof (firstn_le_length (Z.to_nat bound)
                                          (matches memory)). lia.
    + destruct memory as [|e rest]; simpl; [lia |].
      unfold matches. simpl.
      destruct (matchesQuery stringifyLower (toLowerCase query) e);
        simpl; lia.
Qed.

End MemoryFacts.

(** X24 at a concrete input: the key ["tone"] of project ["p"] is
    overwritten and read back. *)
Lemma stored_memory_is_retrieved_witness :
  exists store',
    storeMemory (mkParams (Some "p") (Some "tone") "calm" "" None None)
                "t4" demoStore
    = (succeeded (Stored "tone"), store') /\
    retrieveMemory (mkParams (Some "p") (Some "tone") "" "" None None) store'
    = (succeeded (Retrieved (mkEntry "calm" "" "t4")), store').
Proof.
  destruct (stored_memory_is_retrieved string "p" "tone" "calm" "" None
              None "t4" demoStore) as (store' & Hstore & Hget & _).
  - discriminate.
  - discriminate.
  - exists store'. split; [exact Hstore | apply Hget].
Defined.

(** X25 at a concrete input: the query ["o"] with limit 2 on a memory of
    three entries. *)
Lemma search_returns_first_matches_witness :
  searchMemory (fun v : string => inl v) (fun q => q)
               (mkParams (Some "p") None "" "" (Some "o") (Some 2))
               demoStore
  = (succeeded
       (Found [("tone", mkEntry "bold voice" "" "t1");
               ("audience", mkEntry "founders" "" "t2")] 2),
     demoStore).
Proof.
  apply (search_returns_first_matches string (fun v : string => inl v)
           (fun q => q) "p" "o" None "" "" (Some 2) demoStore demoMemory).
  - discriminate.
  - discriminate.
  - reflexivity.
  - intros e _. eexists. reflexivity.
Defined.

(** ** Bounds on a run *)

Lemma unique_id_node workflow a b :
  List.NoDup (map node_id (nodes workflow)) ->
  In a (nodes workflow) -> In b (nodes workflow) ->
  node_id a = node_id b -> a = b.
Proof.
  intros Hnd Ha Hb Heq.
  pose proof (findNode_unique workflow a Hnd Ha) as Hfa.
  pose proof (findNode_unique workflow b Hnd Hb) as Hfb.
  rewrite Heq in Hfa. congruence.
Qed.

Lemma dependenciesFirst_sound workflow l :
  List.NoDup (map node_id (nodes workflow)) ->
  dependenciesFirst workflow l ->
  forall node, In node (nodes workflow) -> In (node_id node) l ->
    ~ reachesCycle workflow (node_id node) /\
    forall dep, In dep (dependencies node) -> In dep l.
Proof.
  intros Hnd Hfirst.
  assert (Hprefix : forall before after,
    l = (before ++ after)%list ->
    forall node, In node (nodes workflow) -> In (node_id node) before ->
      ~ reachesCycle workflow (node_id node) /\
      forall dep, In dep (dependencies node) -> In dep before).
  { induction before as [|z before IH] using rev_ind;
      intros after Heq node Hnode Hin; [destruct Hin |].
    rewrite <- app_assoc in Heq. simpl in Heq.
    assert (Hearlier : forall n, In n (nodes workflow) ->
              In (node_id n) before ->
              ~ reachesCycle workflow (node_id n) /\
              forall dep, In dep (dependencies n) -> In dep before)
      by (intros n Hn Hb; now apply (IH (z :: after) Heq n)).
    apply in_app_or in Hin. destruct Hin as [Hin | [Hz | []]].
    - destruct (Hearlier node Hnode Hin) as [Hgood Hdeps].
      split; [assumption |]. intros dep Hdep. apply in_or_app. left.
      now apply Hdeps.
    - destruct (Hfirst before z after Heq) as (n & Hn & Hid & Hdeps).
      assert (n = node)
        by (apply (unique_id_node workflow); congruence).
      subst n. split.
      + intros Hbad. apply reachesCycle_inv in Hbad.
        destruct Hbad as (y & Hedge & Hy).
        apply (dependsOn_unique_ids workflow _ _ Hnd) in Hedge.
        destruct Hedge as (n & Hn' & Hid' & Hdep).
        assert (n = node) by (now apply (unique_id_node workflow)).
        subst n. specialize (Hdeps y Hdep).
        destruct (reachesCycle_inv workflow y Hy) as (y' & Hedge' & _).
        destruct Hedge' as (ny & Hfind & _).
        apply findNode_In in Hfind. destruct Hfind as [Hny Hnyid].
        subst y. now apply (Hearlier ny Hny Hdeps).
      + intros dep Hdep. apply in_or_app. left. now apply Hdeps. }
  intros node Hnode Hin. apply (Hprefix l []); [now rewrite app_nil_r | |];
    assumption.
Qed.

(** X26. Whether or not the workflow was validated, a fresh run of a
    workflow with distinct ids never completes a node that lies on or leads
    to a dependency cycle, nor a node that depends on a missing node: every
    dependency of a completed node is itself completed and is a node of the
    workflow. *)
Theorem cyclic_and_dangling_nodes_never_run `{Collaborators}
    (workflow : WorkflowType) (pid input : string)
    (sessionId : option string) (w : World) :
  List.NoDup (map node_id (nodes workflow)) ->
  (forall s, stateIn pid w = Some s -> terminal s) ->
  exists r w' s',
    startWorkflow workflow pid input sessionId w = Ok r w' /\
    stateIn pid w' = Some s' /\
    forall node,
      In node (nodes workflow) ->
      In (node_id node) (completedNodes s') ->
      ~ reachesCycle workflow (node_id node) /\
      forall dep, In dep (dependencies node) ->
        In dep (completedNodes s') /\
        exists n, In n (nodes workflow) /\ node_id n = dep.
Proof.
  intros Hnd Hfresh.
  destruct (startWorkflow_trace workflow pid input sessionId w)
    as (r & w' & s0 & s' & Hstart & Hentry & Hs' & Htrace).
  assert (Hs0 : freshState s0).
  { unfold entryState in Hentry.
    destruct (stateIn pid w) as [s|]; [| assumption].
    destruct (Hfresh s eq_refl) as [Hst | Hst]; now rewrite Hst in Hentry. }
  destruct Hs0 as (_ & Hc & _).
  assert (Hfirst : dependenciesFirst workflow (completedNodes s')).
  { apply (runTrace_dependenciesFirst _ _ _ _ _ Htrace).
    rewrite Hc. apply dependenciesFirst_nil. }
  exists r, w', s'. split; [assumption |]. split; [assumption |].
  intros node Hnode Hin.
  destruct (dependenciesFirst_sound workflow _ Hnd Hfirst node Hnode Hin)
    as [Hgood Hdeps].
  split; [assumption |]. intros dep Hdep. split; [now apply Hdeps |].
  specialize (Hdeps dep Hdep). apply in_split in Hdeps.
  destruct Hdeps as (before & after & Heq).
  destruct (Hfirst before dep after Heq) as (n & Hn & Hid & _).
  now exists n.
Qed.

(** X26 at a concrete input: a first start of the cyclic graph. *)
Lemma cyclic_and_dangling_nodes_never_run_witness :
  exists r w' s',
    startWorkflow (H := demo) cyclicGraph "p" "{}" None emptyWorld
    = Ok r w' /\
    stateIn "p" w' = Some s' /\
    forall node,
      In node (nodes cyclicGraph) ->
      In (node_id node) (completedNodes s') ->
      ~ reachesCycle cyclicGraph (node_id node) /\
      forall dep, In dep (dependencies node) ->
        In dep (completedNodes s') /\
        exists n, In n (nodes cyclicGraph) /\ node_id n = dep.
Proof.
  apply (cyclic_and_dangling_nodes_never_run (H := demo) cyclicGraph "p"
           "{}" None emptyWorld).
  - simpl. repeat constructor; simpl; intuition discriminate.
  - intros s Hs. discriminate Hs.
Defined.



Section BoundedWork.

Context `{Collaborators}.

Variables (workflow : WorkflowType) (pid input : string)
          (sessionId : option string).

(** A counter read off the world, and the most that one [executeNode] adds
    to it. *)
Variable count : World -> nat.

Variable budget : WorkflowNodeType -> nat.

Hypothesis count_node :
  forall node w w',
    finalWorld (executeNode node pid input sessionId w) = Some w' ->
    (count w' <= count w + budget node)%nat.

Hypothesis count_rest :
  forall w w',
    agentCalls w' = agentCalls w -> sleeps w' = sleeps w ->
    count w' = count w.







End BoundedWork.


(** ** Scenarios of the specification, by evaluation *)

(** Cycle rejection: both nodes of the cycle are reported, and so is the
    dangling dependency of [C]. *)
Example cyclic_graph_is_rejected :
  validateWorkflow cyclicGraph
  = Some (mkValidation false
            [circularError "A"; circularError "B"; danglingError "C" "D"]).
Proof. vm_compute. reflexivity. Qed.

(** A valid graph has no error. *)
Example linear_chain_is_valid :
  validateWorkflow linearChain = Some (mkValidation true []).
Proof. vm_compute. reflexivity. Qed.

(** Linear chain: the run completes with [A], [B], [C] in that order. *)
Example linear_chain_completes :
  exists w',
    startWorkflow (H := demo) linearChain "p" "{}" None emptyWorld
    = Ok (Completed ["A"; "B"; "C"]) w' /\
    option_map status (stateIn "p" w') = Some completed /\
    agentCalls w' = ["ok_agent"; "ok_agent"; "ok_agent"].
Proof.
  eexists. split; [vm_compute; reflexivity |].
  split; [vm_compute; reflexivity | reflexivity].
Qed.

(** Approval pause and resume: the run pauses on ["d1"] with [A]
    completed, and the approval with ["bold"] completes it. *)
Example approval_pauses_then_resumes :
  stateIn "p" pausedWorld
  = Some (mkState "id0" "p" (Some "B") ["A"] [] ["d1"] paused "{}") /\
  exists w' decision,
    approveDecision (H := demo) approvalFlow "p" "d1" "bold" None pausedWorld
    = Ok (Resumed (Completed ["A"; "B"])) w' /\
    stateIn "p" w'
    = Some (mkState "id0" "p" None ["A"; "B"] [] [] completed "{}") /\
    lookupDecision "d1" w' = Some decision /\
    decision_status decision = approved /\
    selectedOption decision = Some "bold".
Proof.
  split; [vm_compute; reflexivity |].
  eexists. eexists. split; [vm_compute; reflexivity |].
  split; [vm_compute; reflexivity |].
  split; [vm_compute; reflexivity |]. split; reflexivity.
Qed.
